(** * ABC notation assembler: duration grammar, bar arithmetic, assembly

    A shallow embedding of [adhoc-midi-scripts/abc_assembler.py] and the
    properties of its duration parser, bar validation, header rendering and
    section assembly, with the validation step of the scripts in
    [adhoc-xy-scripts] that build their parts on it.

    Conventions of the embedding.
    - Python [str] values are [string]s over the code points below 256.
    - Python [int] is [Z]; [//] and [%] are [Z.div] and [Z.modulo] (both floor).
    - Python [float] is IEEE 754 binary64, taken from [SpecFloat] with
      precision 53 and maximal exponent 1024; every operation rounds to
      nearest, ties to even, exactly as the interpreter's hardware does.
    - A raised exception is the [Err] branch of [result]; the interpreter's
      own message texts are not kept, the messages built by the script are.
    - The interpreter's optional cap on the length of integer literals
      (sys.set_int_max_str_digits) is taken as switched off. *)

From Stdlib Require Import ZArith String Ascii List Bool Lia.
From Stdlib Require Import DecimalString.
From Stdlib Require DecimalZ.
From Stdlib Require Import Floats.SpecFloat.
From stdpp Require Import gmap strings.

Local Open Scope Z_scope.

(** Appending to a literal is unfolded by [simpl], as for lists. *)
Arguments String.append !s1 s2 : simpl nomatch.

(** ** Exceptions and results *)

Inductive exn : Type :=
| ValueError (msg : string)   (* raise ValueError(...) written in the script *)
| InvalidLiteral              (* ValueError of int() on a malformed literal *)
| UnpackError                 (* ValueError of a two-target unpacking *)
| ZeroDivisionError
| OverflowError.

Inductive result (A : Type) : Type :=
| Ok (a : A)
| Err (e : exn).
Arguments Ok {A} a.
Arguments Err {A} e.

Definition bind {A B : Type} (r : result A) (k : A -> result B) : result B :=
  match r with
  | Ok a => k a
  | Err e => Err e
  end.

Notation "'let*' x ':=' r 'in' k" := (bind r (fun x => k))
  (at level 10, x pattern, r at level 200, k at level 200, only parsing).

(** ** Characters and strings *)

Definition code (c : ascii) : Z := Z.of_nat (nat_of_ascii c).

Definition newline : ascii := ascii_of_nat 10.
Definition nl : string := String newline EmptyString.

(** [\d] on code points below 256. *)
Definition is_digit (c : ascii) : bool := (48 <=? code c) && (code c <=? 57).

Definition digit_value (c : ascii) : Z := code c - 48.

(** The characters int() strips from both ends of its argument. *)
Definition is_int_space (c : ascii) : bool :=
  ((9 <=? code c) && (code c <=? 13)) || (code c =? 32)
  || (code c =? 133) || (code c =? 160).

Definition is_empty (s : string) : bool :=
  match s with
  | EmptyString => true
  | String _ _ => false
  end.

(** [s * n] for a string [s] and a count [n]; a count below 1 gives "". *)
Fixpoint repeat_string (s : string) (n : nat) : string :=
  match n with
  | O => EmptyString
  | S k => s +:+ repeat_string s k
  end.

(** [sep.join(parts)] *)
Fixpoint join (sep : string) (parts : list string) : string :=
  match parts with
  | [] => EmptyString
  | [p] => p
  | p :: rest => p +:+ sep +:+ join sep rest
  end.

(** [s.split(sep)] for a one-character separator: never an empty list. *)
Fixpoint split_on (sep : ascii) (s : string) : list string :=
  match s with
  | EmptyString => [EmptyString]
  | String c r =>
      if Ascii.eqb c sep then EmptyString :: split_on sep r
      else match split_on sep r with
           | [] => [String c EmptyString]
           | p :: ps => String c p :: ps
           end
  end.

(** [str.lower] on the ASCII letters (it is only applied to pitch names). *)
Definition lower_char (c : ascii) : ascii :=
  if (65 <=? code c) && (code c <=? 90)
  then ascii_of_nat (nat_of_ascii c + 32) else c.

Fixpoint lower (s : string) : string :=
  match s with
  | EmptyString => EmptyString
  | String c r => String (lower_char c) (lower r)
  end.

(** ** Integers: [int(s)] and [str(n)] *)

Fixpoint lstrip (s : string) : string :=
  match s with
  | EmptyString => EmptyString
  | String c r => if is_int_space c then lstrip r else s
  end.

Fixpoint rstrip (s : string) : string :=
  match s with
  | EmptyString => EmptyString
  | String c r =>
      let r' := rstrip r in
      if is_empty r' && is_int_space c then EmptyString else String c r'
  end.

(** Value of a run of decimal digits, most significant first. *)
Fixpoint digits_value (acc : Z) (s : string) : Z :=
  match s with
  | EmptyString => acc
  | String c r => digits_value (10 * acc + digit_value c) r
  end.

Inductive literal_state : Type := AtStart | AfterDigit | AfterUnderscore.

(** Digits with single underscores between them, at least one digit. *)
Fixpoint literal_body (st : literal_state) (acc : Z) (s : string) : option Z :=
  match s with
  | EmptyString =>
      match st with
      | AfterDigit => Some acc
      | _ => None
      end
  | String c r =>
      if is_digit c then literal_body AfterDigit (10 * acc + digit_value c) r
      else if Ascii.eqb c "_" then
        match st with
        | AfterDigit => literal_body AfterUnderscore acc r
        | _ => None
        end
      else None
  end.

(** [int(s)] in base 10. *)
Definition py_int (s : string) : result Z :=
  let body := rstrip (lstrip s) in
  let signed :=
    match body with
    | String "-" r => option_map Z.opp (literal_body AtStart 0 r)
    | String "+" r => literal_body AtStart 0 r
    | _ => literal_body AtStart 0 body
    end in
  match signed with
  | Some z => Ok z
  | None => Err InvalidLiteral
  end.

(** [str(n)] *)
Definition py_str (n : Z) : string := NilZero.string_of_int (Z.to_int n).

(** ** Floats *)

Abbreviation float := spec_float.

Definition prec : Z := 53.
Definition emax : Z := 1024.

Definition fadd : float -> float -> float := SFadd prec emax.
Definition fsub : float -> float -> float := SFsub prec emax.
Definition fdiv : float -> float -> float := SFdiv prec emax.
Definition fabs : float -> float := SFabs.
Definition fltb : float -> float -> bool := SFltb.

Definition is_infinite (f : float) : bool :=
  match f with
  | S754_infinity _ => true
  | _ => false
  end.

(** An integer as an unrounded operand (mantissa of any width). *)
Definition exact_operand (z : Z) : float :=
  match z with
  | Z0 => S754_zero false
  | Zpos p => S754_finite false p 0
  | Zneg p => S754_finite true p 0
  end.

(** [float(n)]: the nearest float, or OverflowError beyond the range. *)
Definition float_of_int (z : Z) : result float :=
  let f := binary_normalize prec emax z 0 false in
  if is_infinite f then Err OverflowError else Ok f.

(** [a / b] on two ints: the correctly rounded quotient. *)
Definition int_truediv (a b : Z) : result float :=
  if b =? 0 then Err ZeroDivisionError
  else
    let f := fdiv (exact_operand a) (exact_operand b) in
    if is_infinite f then Err OverflowError else Ok f.

(** [x / n] on a float and an int: the int is converted first. *)
Definition float_div_int (x : float) (n : Z) : result float :=
  let* y := float_of_int n in
  if n =? 0 then Err ZeroDivisionError else Ok (fdiv x y).

(** [x - n] on a float and an int. *)
Definition float_sub_int (x : float) (n : Z) : result float :=
  let* y := float_of_int n in Ok (fsub x y).

(** The literals [0.0], [1.0] and [0.01]. *)
Definition f_zero : float := S754_zero false.
Definition f_one : float := S754_finite false 4503599627370496 (-52).
Definition f_tolerance : float := S754_finite false 5764607523034235 (-59).

(** A value that is either an int or a float, as [duration] is. *)
Inductive number : Type :=
| PyInt (z : Z)
| PyFloat (f : float).

(** [total + d] with [total] a float. *)
Definition float_add_number (total : float) (d : number) : result float :=
  match d with
  | PyInt z => let* y := float_of_int z in Ok (fadd total y)
  | PyFloat y => Ok (fadd total y)
  end.

(** [format(x, ".2f")]: the exact value rounded to two decimals, ties to
    even. *)
Definition two_digits (n : Z) : string :=
  if n <? 10 then "0" +:+ py_str n else py_str n.

Definition hundredths (m : positive) (e : Z) : Z :=
  match e with
  | Zneg p =>
      let d := Z.pow_pos 2 p in
      let q := (Zpos m * 100) / d in
      let r := (Zpos m * 100) mod d in
      match 2 * r ?= d with
      | Lt => q
      | Gt => q + 1
      | Eq => if Z.even q then q else q + 1
      end
  | _ => Zpos m * 2 ^ e * 100
  end.

Definition sign_string (s : bool) : string := if s then "-" else "".

Definition format_2f (x : float) : string :=
  match x with
  | S754_nan => "nan"
  | S754_infinity s => sign_string s +:+ "inf"
  | S754_zero s => sign_string s +:+ "0.00"
  | S754_finite s m e =>
      let n := hundredths m e in
      sign_string s +:+ py_str (n / 100) +:+ "." +:+ two_digits (n mod 100)
  end.

(** ** Regular-expression scans

    A matcher looks at the text from the current position on and tells how
    long the pattern's match starting there is, if there is one.  None of the
    patterns of the script matches the empty string. *)

Definition dquote : ascii := ascii_of_nat 34.

(** [re.sub(pattern, repl, s)]: the leftmost match is replaced and the scan
    resumes behind it; [skip] counts the characters of the current match
    that are still to be passed over. *)
Fixpoint sub_from (m : string -> option nat) (repl : string)
    (skip : nat) (s : string) : string :=
  match s with
  | EmptyString => EmptyString
  | String c r =>
      match skip with
      | S k => sub_from m repl k r
      | O =>
          match m s with
          | Some n => repl +:+ sub_from m repl (Nat.pred n) r
          | None => String c (sub_from m repl O r)
          end
      end
  end.

Definition re_sub (m : string -> option nat) (repl s : string) : string :=
  sub_from m repl O s.

(** [pattern.finditer(s)]: the matches from left to right, none overlapping. *)
Fixpoint finditer_from {G : Type} (m : string -> option (G * nat))
    (skip : nat) (s : string) : list G :=
  match s with
  | EmptyString => []
  | String c r =>
      match skip with
      | S k => finditer_from m k r
      | O =>
          match m s with
          | Some (g, n) => g :: finditer_from m (Nat.pred n) r
          | None => finditer_from m O r
          end
      end
  end.

Definition finditer {G : Type} (m : string -> option (G * nat)) (s : string)
  : list G := finditer_from m O s.

(** Longest prefix of characters satisfying [p], and what follows it. *)
Fixpoint take_while (p : ascii -> bool) (s : string) : string * string :=
  match s with
  | EmptyString => (EmptyString, EmptyString)
  | String c r =>
      if p c then let '(t, rest) := take_while p r in (String c t, rest)
      else (EmptyString, s)
  end.

(** Length of the text up to and including the first [stop]. *)
Fixpoint find_char (stop : ascii) (s : string) : option nat :=
  match s with
  | EmptyString => None
  | String c r =>
      if Ascii.eqb c stop then Some 1%nat else option_map S (find_char stop r)
  end.

(** Length of the text up to and including the first "]", provided no
    newline comes before it ([.] does not match a newline). *)
Fixpoint find_close (s : string) : option nat :=
  match s with
  | EmptyString => None
  | String c r =>
      if Ascii.eqb c "]" then Some 1%nat
      else if Ascii.eqb c newline then None
      else option_map S (find_close r)
  end.

Definition is_bar (c : ascii) : bool := Ascii.eqb c "|".
Definition not_newline (c : ascii) : bool := negb (Ascii.eqb c newline).

(** The pattern for annotation text: a double quote, any run of characters
    other than a double quote, and a double quote. *)
Definition match_quoted (s : string) : option nat :=
  match s with
  | String c r =>
      if Ascii.eqb c dquote then option_map S (find_char dquote r) else None
  | EmptyString => None
  end.

(** The pattern [\|+] for bar lines: one or more vertical bars. *)
Definition match_bars (s : string) : option nat :=
  match String.length (fst (take_while is_bar s)) with
  | O => None
  | n => Some n
  end.

(** The pattern [%%.*] for directives: two percent signs and the rest of
    the line. *)
Definition match_directive (s : string) : option nat :=
  match s with
  | String "%" (String "%" r) =>
      Some (2 + String.length (fst (take_while not_newline r)))%nat
  | _ => None
  end.

(** The pattern [\[.*?\]] for chord brackets: an opening bracket, as few
    characters as possible, none a newline, and a closing bracket. *)
Definition match_bracket (s : string) : option nat :=
  match s with
  | String "[" r => option_map S (find_close r)
  | _ => None
  end.

(** The six groups of the note pattern: an optional accidental out of
    _ ^ =, one letter out of A-G, a-g and z, any run of commas and
    apostrophes, any run of digits, an optional slash, any run of digits. *)
Record note_match : Type := {
  group1 : string;   (* accidental *)
  group2 : string;   (* note letter or rest *)
  group3 : string;   (* octave marks *)
  group4 : string;   (* numerator *)
  group5 : string;   (* slash *)
  group6 : string    (* denominator *)
}.

Definition is_accidental (c : ascii) : bool :=
  Ascii.eqb c "_" || Ascii.eqb c "^" || Ascii.eqb c "=".

Definition is_note_letter (c : ascii) : bool :=
  ((65 <=? code c) && (code c <=? 71))
  || ((97 <=? code c) && (code c <=? 103))
  || (code c =? 122).

Definition is_octave_mark (c : ascii) : bool :=
  Ascii.eqb c "," || Ascii.eqb c "'".

(** The pattern from the note letter on, the accidental group being [acc]. *)
Definition match_note_letter (acc s : string) : option (note_match * nat) :=
  match s with
  | String c r =>
      if is_note_letter c then
        let '(oct, r1) := take_while is_octave_mark r in
        let '(n, r2) := take_while is_digit r1 in
        let '(sl, r3) :=
          match r2 with
          | String "/" r3 => ("/"%string, r3)
          | _ => (EmptyString, r2)
          end in
        let '(d, _) := take_while is_digit r3 in
        Some ({| group1 := acc; group2 := String c EmptyString; group3 := oct;
                 group4 := n; group5 := sl; group6 := d |},
              (String.length acc + 1 + String.length oct + String.length n
               + String.length sl + String.length d)%nat)
      else None
  | EmptyString => None
  end.

(** The whole pattern: the optional accidental is tried first, then given up. *)
Definition match_note (s : string) : option (note_match * nat) :=
  match s with
  | String a r =>
      if is_accidental a then
        match match_note_letter (String a EmptyString) r with
        | Some found => Some found
        | None => match_note_letter EmptyString s
        end
      else match_note_letter EmptyString s
  | EmptyString => None
  end.

(** The unit-length pattern [1/(\d+)], matched at the start of [s] only:
    the characters 1 and /, then one or more digits, which are group 1. *)
Definition match_unit_length (s : string) : option string :=
  match s with
  | String "1" (String "/" r) =>
      let '(d, _) := take_while is_digit r in
      if is_empty d then None else Some d
  | _ => None
  end.

(** ** The data classes *)

Record ABCHeader : Type := {
  title : string;
  meter : string;
  unit_length : string;
  tempo : option Z;
  key : string;
  midi_program : Z;
  midi_channel : Z
}.

(** [Section] of the script ([Section] is reserved here). *)
Record Section_ : Type := {
  name : string;
  bars : Z;
  abc : string
}.

Record Keyswitch : Type := {
  note : Z;
  beat : float
}.

Record CCAutomation : Type := {
  cc : Z;
  values : list (float * Z)
}.

(** ** Bar arithmetic *)

(** [num, denom = map(int, parts)]: the items are converted one at a time,
    and a third one is asked for to see that there is none. *)
Definition unpack_two_ints (parts : list string) : result (Z * Z) :=
  match parts with
  | [] => Err UnpackError
  | p0 :: rest0 =>
      let* num := py_int p0 in
      match rest0 with
      | [] => Err UnpackError
      | p1 :: rest1 =>
          let* denom := py_int p1 in
          match rest1 with
          | [] => Ok (num, denom)
          | p2 :: _ => let* _ := py_int p2 in Err UnpackError
          end
      end
  end.

(** [a // b] *)
Definition floordiv (a b : Z) : result Z :=
  if b =? 0 then Err ZeroDivisionError else Ok (a / b).

Definition units_per_bar (meter unit_length : string) : result Z :=
  let* (num, denom) := unpack_two_ints (split_on "/" meter) in
  match match_unit_length unit_length with
  | None => Ok 8
  | Some digits =>
      let* unit_denom := py_int digits in
      floordiv (num * unit_denom) denom
  end.

(** ** Duration grammar *)

(** The four substitutions that run before the note scan. *)
Definition clean_abc (abc : string) : string :=
  let clean := re_sub match_quoted "" abc in
  let clean := re_sub match_bars " " clean in
  let clean := re_sub match_directive "" clean in
  re_sub match_bracket "" clean.

(** Truth value of a string: non-empty. *)
Definition truthy (s : string) : bool := negb (is_empty s).

(** The duration of one match (the body of the loop up to [total +=]). *)
Definition duration (m : note_match) : result number :=
  let num := group4 m in
  let slash := group5 m in
  let denom := group6 m in
  if truthy num && truthy slash && truthy denom then
    let* n := py_int num in
    let* d := py_int denom in
    let* q := int_truediv n d in
    Ok (PyFloat q)
  else if truthy slash && truthy denom then
    let* d := py_int denom in
    let* q := float_div_int f_one d in
    Ok (PyFloat q)
  else if truthy num then
    let* n := py_int num in
    Ok (PyInt n)
  else Ok (PyFloat f_one).

(** The loop, [total] being the running sum. *)
Fixpoint sum_durations (total : float) (ms : list note_match) : result float :=
  match ms with
  | [] => Ok total
  | m :: rest =>
      let* d := duration m in
      let* total' := float_add_number total d in
      sum_durations total' rest
  end.

Definition count_abc_units (abc : string) : result float :=
  sum_durations f_zero (finditer match_note (clean_abc abc)).

(** ** Header and event generators *)

(** The list [lines] that [generate_abc_header] joins. *)
Definition header_lines (header : ABCHeader) (index : Z) : list string :=
  [ "X:" +:+ py_str index;
    "T:" +:+ title header;
    "M:" +:+ meter header;
    "L:" +:+ unit_length header ]
  ++ match tempo header with
     | Some t => [ "Q:1/4=" +:+ py_str t ]
     | None => []
     end
  ++ [ "K:" +:+ key header;
       "%%MIDI program " +:+ py_str (midi_program header);
       "%%MIDI channel " +:+ py_str (midi_channel header) ].

Definition generate_abc_header (header : ABCHeader) (index : Z) : string :=
  join nl (header_lines header index).

Definition pitch_names : list string :=
  ["C"; "^C"; "D"; "^D"; "E"; "F"; "^F"; "G"; "^G"; "A"; "^A"; "B"]%string.

Definition inject_keyswitch (note : Z) (beat : float) (unit_length : string)
  : string :=
  let octave := note / 12 - 5 in
  let pitch_class := note mod 12 in
  let pitch := nth (Z.to_nat pitch_class) pitch_names EmptyString in
  let pitch :=
    if octave <? 0 then pitch +:+ repeat_string "," (Z.to_nat (Z.abs octave))
    else if octave >? 0 then
      let pitch := lower pitch in
      if octave >? 1 then pitch +:+ repeat_string "'" (Z.to_nat (octave - 1))
      else pitch
    else pitch in
  "[" +:+ pitch +:+ "/8]z7/8".

Definition inject_cc (cc value : Z) : string :=
  "%%MIDI control " +:+ py_str cc +:+ " " +:+ py_str value.

(** ** Validation and assembly *)

Section Formatting.

(** [str(x)] of a float, the shortest text that reads back as [x]; it is
    part of the interpreter and only ever spliced into a message. *)
Variable float_repr : float -> string.

(** [expected_bars] is an int, as annotated; [meter] and [unit_length]
    default to 4/4 and 1/8 for a caller that leaves them out. *)
Definition validate_bars (abc : string) (expected_bars : Z)
    (meter unit_length : string) : result (bool * string) :=
  let* upb := units_per_bar meter unit_length in
  let* actual_units := count_abc_units abc in
  let* actual_bars := float_div_int actual_units upb in
  let* difference := float_sub_int actual_bars expected_bars in
  if fltb (fabs difference) f_tolerance then Ok (true, EmptyString)
  else
    Ok (false,
        "Expected " +:+ py_str expected_bars +:+ " bars ("
        +:+ py_str (expected_bars * upb) +:+ " units), got "
        +:+ format_2f actual_bars +:+ " bars ("
        +:+ float_repr actual_units +:+ " units)").

(** [{s.name: s for s in sections}]: a later section of the same name
    replaces an earlier one. *)
Definition section_map (sections : list Section_) : gmap string Section_ :=
  foldl (fun m s => <[name s := s]> m) ∅ sections.

(** The first loop: every section is validated, in list order. *)
Fixpoint validate_sections (sections : list Section_) (header : ABCHeader)
  : result unit :=
  match sections with
  | [] => Ok tt
  | section :: rest =>
      let* (valid, error) :=
        validate_bars (abc section) (bars section)
                      (meter header) (unit_length header) in
      if valid : bool then validate_sections rest header
      else Err (ValueError ("Section '" +:+ name section +:+ "': " +:+ error))
  end.

(** The second loop, [abc_content] being the list built so far. *)
Fixpoint assemble_body (lookup_map : gmap string Section_)
    (structure : list string) (abc_content : list string)
  : result (list string) :=
  match structure with
  | [] => Ok abc_content
  | section_name :: rest =>
      match lookup_map !! section_name with
      | None => Err (ValueError ("Unknown section: " +:+ section_name))
      | Some section =>
          assemble_body lookup_map rest
            (abc_content ++ ["% Section: " +:+ section_name; abc section])
      end
  end.

Definition with_title (header : ABCHeader) (t : string) : ABCHeader :=
  {| title := t; meter := meter header; unit_length := unit_length header;
     tempo := tempo header; key := key header;
     midi_program := midi_program header;
     midi_channel := midi_channel header |}.

(** The header object is mutable and shared with the caller: the call
    returns its state at the moment the call ends, next to the outcome. *)
Definition assemble_instrument (instrument_name : string)
    (sections : list Section_) (structure : list string)
    (header : ABCHeader)
    (keyswitches : option (list Keyswitch))
    (automation : option (list CCAutomation))
  : result string * ABCHeader :=
  let lookup_map := section_map sections in
  match validate_sections sections header with
  | Err e => (Err e, header)
  | Ok _ =>
      let header := with_title header (title header +:+ " - " +:+ instrument_name) in
      let abc_content := [generate_abc_header header 1; EmptyString] in
      match assemble_body lookup_map structure abc_content with
      | Err e => (Err e, header)
      | Ok abc_content => (Ok (join nl abc_content), header)
      end
  end.

End Formatting.

(** ** Predicates used in the statements *)

Fixpoint string_forall (p : ascii -> bool) (s : string) : bool :=
  match s with
  | EmptyString => true
  | String c r => p c && string_forall p r
  end.

Definition starts_with (p : ascii -> bool) (s : string) : bool :=
  match s with
  | EmptyString => false
  | String c _ => p c
  end.

(** A non-empty run of decimal digits. *)
Definition numeral (s : string) : bool := truthy s && string_forall is_digit s.

(** ** Notions used in the statements about assembly *)

Definition named (n : string) (s : Section_) : bool := String.eqb (name s) n.

(** The text the document shows for the name [n]: that of the last
    section of that name in the list. *)
Definition section_text (sections : list Section_) (n : string) : string :=
  match find (named n) (rev sections) with
  | Some s => abc s
  | None => EmptyString
  end.

(** A section passes the bar validation under the meter and unit length of
    the header. *)
Definition validates (float_repr : float -> string) (header : ABCHeader)
    (s : Section_) : Prop :=
  validate_bars float_repr (abc s) (bars s) (meter header) (unit_length header)
  = Ok (true, EmptyString).

(** The example of the specification: two sections of two bars each. *)
Definition demo_header : ABCHeader :=
  {| title := "Song"; meter := "4/4"; unit_length := "1/8"; tempo := None;
     key := "C"; midi_program := 0; midi_channel := 1 |}.

Definition section_A : Section_ :=
  {| name := "A"; bars := 2; abc := "C2C2C2C2 | C2C2C2C2 |" |}.

Definition section_B : Section_ :=
  {| name := "B"; bars := 2; abc := "z8 | z8 |" |}.

(** A section that declares three bars and holds two. *)
Definition section_short : Section_ :=
  {| name := "bridge"; bars := 3; abc := "z8 | z8 |" |}.

(** ** The note grammar, as the specification words it

    A token is an optional accidental, a pitch letter or the rest marker,
    octave marks, an optional numerator, an optional slash and an optional
    denominator.  A text is laid out as tokens and skipped characters. *)

Record token : Type := {
  accidental : option ascii;
  letter : ascii;
  octave_marks : string;
  numerator : string;
  has_slash : bool;
  denominator : string
}.

Definition accidental_text (t : token) : string :=
  match accidental t with
  | Some a => String a EmptyString
  | None => EmptyString
  end.

Definition slash_text (t : token) : string :=
  if has_slash t then "/" else "".

Definition render_token (t : token) : string :=
  accidental_text t
  +:+ String (letter t)
        (octave_marks t +:+ numerator t +:+ slash_text t +:+ denominator t).

(** A token as the grammar allows it; digits after the numerator and
    without a slash would belong to the numerator. *)
Definition token_ok (t : token) : bool :=
  match accidental t with
  | Some a => is_accidental a
  | None => true
  end
  && is_note_letter (letter t)
  && string_forall is_octave_mark (octave_marks t)
  && string_forall is_digit (numerator t)
  && string_forall is_digit (denominator t)
  && (has_slash t || is_empty (denominator t)).

(** The groups the note pattern reports for a token. *)
Definition groups_of (t : token) : note_match :=
  {| group1 := accidental_text t;
     group2 := String (letter t) EmptyString;
     group3 := octave_marks t;
     group4 := numerator t;
     group5 := slash_text t;
     group6 := denominator t |}.

(** Duration of a token, first match wins: numerator, slash and
    denominator give numerator / denominator; slash and denominator give
    1 / denominator; a numerator gives the numerator; anything else 1. *)
Definition spec_duration (t : token) : result number :=
  match truthy (numerator t), has_slash t, truthy (denominator t) with
  | true, true, true =>
      let* q := int_truediv (digits_value 0 (numerator t))
                            (digits_value 0 (denominator t)) in
      Ok (PyFloat q)
  | false, true, true =>
      let* q := float_div_int f_one (digits_value 0 (denominator t)) in
      Ok (PyFloat q)
  | true, _, _ => Ok (PyInt (digits_value 0 (numerator t)))
  | false, _, _ => Ok (PyFloat f_one)
  end.

(** The sum of the token durations in order, from [total] on. *)
Fixpoint spec_total (total : float) (ts : list token) : result float :=
  match ts with
  | [] => Ok total
  | t :: rest =>
      let* d := spec_duration t in
      let* total' := float_add_number total d in
      spec_total total' rest
  end.

Inductive item : Type :=
| Tok (t : token)
| Skip (c : ascii).

Fixpoint render (items : list item) : string :=
  match items with
  | [] => EmptyString
  | Tok t :: rest => render_token t +:+ render rest
  | Skip c :: rest => String c (render rest)
  end.

Fixpoint tokens_of (items : list item) : list token :=
  match items with
  | [] => []
  | Tok t :: rest => t :: tokens_of rest
  | Skip _ :: rest => tokens_of rest
  end.

(** Characters that would lengthen the token before them. *)
Definition is_extender (c : ascii) : bool :=
  is_octave_mark c || is_digit c || Ascii.eqb c "/".

Definition skip_extends (items : list item) : bool :=
  match items with
  | Skip c :: _ => is_extender c
  | _ => false
  end.

(** A layout: the tokens are grammatical, a skipped character neither is a
    pitch letter nor an accidental, and none lengthens a token before it. *)
Fixpoint layout_ok (items : list item) : bool :=
  match items with
  | [] => true
  | Tok t :: rest => token_ok t && negb (skip_extends rest) && layout_ok rest
  | Skip c :: rest =>
      negb (is_note_letter c) && negb (is_accidental c) && layout_ok rest
  end.

(** Characters the four substitutions look for. *)
Definition is_markup (c : ascii) : bool :=
  Ascii.eqb c dquote || Ascii.eqb c "|" || Ascii.eqb c "%" || Ascii.eqb c "[".

(** No skipped character is a double quote, a percent sign or an opening
    bracket (bar lines are allowed). *)
Fixpoint layout_plain (items : list item) : bool :=
  match items with
  | [] => true
  | Tok _ :: rest => layout_plain rest
  | Skip c :: rest =>
      negb (Ascii.eqb c dquote || Ascii.eqb c "%" || Ascii.eqb c "[")
      && layout_plain rest
  end.

(** The layout the bar-line substitution leaves: a run of bars becomes one
    space; [in_run] tells that the run has already been replaced. *)
Fixpoint squeeze_bars (in_run : bool) (items : list item) : list item :=
  match items with
  | [] => []
  | Tok t :: rest => Tok t :: squeeze_bars false rest
  | Skip c :: rest =>
      if is_bar c then
        if in_run then squeeze_bars true rest
        else Skip " " :: squeeze_bars true rest
      else Skip c :: squeeze_bars false rest
  end.

Definition no_markup (c : ascii) : bool := negb (is_markup c).

(** Characters a bracketed group may hold for the substitutions to take it
    out whole: anything but a double quote, a bar, a percent sign, a
    closing bracket and a newline. *)
Definition chord_char (c : ascii) : bool :=
  negb (Ascii.eqb c dquote || Ascii.eqb c "|" || Ascii.eqb c "%"
        || Ascii.eqb c "]" || Ascii.eqb c newline).


(** The float [m * 2 ^ e]. *)
Definition dyadic (m e : Z) : float := binary_normalize prec emax m e false.




(** ** Integers that are floats *)

(** [n] has at most 53 significant bits: within the float range,
    [float(n) == n]. *)
Definition is_float_int (n : Z) : bool :=
  (Z.abs n * 2 ^ 53) mod 2 ^ Zdigits2 n =? 0.

(** The 53-bit mantissa of such an integer. *)
Definition mantissa_of (n : Z) : Z := (Z.abs n * 2 ^ 53) / 2 ^ Zdigits2 n.

(** The float an integer converts to when it is a float itself. *)
Definition float_of_exact (n : Z) : float :=
  if Zdigits2 n - 53 <=? 971
  then S754_finite (n <? 0) (Z.to_pos (mantissa_of n)) (Zdigits2 n - 53)
  else S754_infinity (n <? 0).


(** A decimal literal [num / den] with [den] a power of ten: the float
    nearest to the quotient. *)
Definition f_literal (num den : Z) : float :=
  fdiv (exact_operand num) (exact_operand den).

(** For [e] expected bars, a bar count computed as [e + 0.0099] is within
    the tolerance of [validate_bars] and one computed as [e + 0.011] is
    not. *)
Definition boundary_holds (e : Z) : bool :=
  match float_of_int e with
  | Ok fe =>
      fltb (fabs (fsub (fadd fe (f_literal 99 10000)) fe)) f_tolerance
      && negb (fltb (fabs (fsub (fadd fe (f_literal 11 1000)) fe)) f_tolerance)
  | Err _ => false
  end.

(** [boundary_holds] for the [n] bar counts from [e] on. *)
Fixpoint boundary_holds_from (e : Z) (n : nat) : bool :=
  match n with
  | O => true
  | S k => boundary_holds e && boundary_holds_from (e + 1) k
  end.

(** ** Scores: notes among chord symbols, chords and directives

    The texts the scripts write hold more than a plain layout: chord
    symbols between double quotes, bracketed chords and directive lines. *)

Inductive element : Type :=
| Plain (i : item)
| Chord (s : string)        (* [s] *)
| Symbol (s : string)       (* s between double quotes *)
| Directive (s : string).   (* two percent signs and s, up to the line end *)

Definition render_element (e : element) : string :=
  match e with
  | Plain (Tok t) => render_token t
  | Plain (Skip c) => String c EmptyString
  | Chord s => "[" +:+ s +:+ "]"
  | Symbol s => String dquote (s +:+ String dquote EmptyString)
  | Directive s => "%%" +:+ s
  end.

Fixpoint render_score (es : list element) : string :=
  match es with
  | [] => EmptyString
  | e :: rest => render_element e +:+ render_score rest
  end.

(** The tokens and skipped characters outside chord symbols, chords and
    directives. *)
Fixpoint plain_items (es : list element) : list item :=
  match es with
  | [] => []
  | Plain i :: rest => i :: plain_items rest
  | _ :: rest => plain_items rest
  end.

(** The score ends here or goes on with a newline. *)
Definition ends_line (es : list element) : bool :=
  match es with
  | [] => true
  | Plain (Skip c) :: _ => Ascii.eqb c newline
  | _ => false
  end.

Definition not_quote (c : ascii) : bool := negb (Ascii.eqb c dquote).

Definition directive_char (c : ascii) : bool :=
  negb (Ascii.eqb c dquote || Ascii.eqb c "|" || Ascii.eqb c newline).

(** What may follow a lone percent sign: the end, a token or a skipped
    character other than a percent sign. *)
Definition no_percent_next (es : list element) : bool :=
  match es with
  | [] => true
  | Plain (Tok _) :: _ => true
  | Plain (Skip c) :: _ => negb (Ascii.eqb c "%")
  | _ => false
  end.

(** Every element is well formed: a token is grammatical; a skipped
    character is no double quote or opening bracket, and a percent sign
    only if it stands alone; a chord holds [chord_char]s; a chord symbol
    holds no double quote; a directive holds no double quote, bar or newline
    and runs to the end of its line. *)
Fixpoint score_ok (es : list element) : bool :=
  match es with
  | [] => true
  | Plain (Tok t) :: rest => token_ok t && score_ok rest
  | Plain (Skip c) :: rest =>
      negb (Ascii.eqb c dquote || Ascii.eqb c "[")
      && (negb (Ascii.eqb c "%") || no_percent_next rest)
      && score_ok rest
  | Chord s :: rest => string_forall chord_char s && score_ok rest
  | Symbol s :: rest => string_forall not_quote s && score_ok rest
  | Directive s :: rest =>
      string_forall directive_char s && ends_line rest && score_ok rest
  end.

(** What the four substitutions leave of a score, one after the other. *)
Fixpoint without_symbols (es : list element) : list element :=
  match es with
  | [] => []
  | Symbol _ :: rest => without_symbols rest
  | e :: rest => e :: without_symbols rest
  end.

Fixpoint without_bars (in_run : bool) (es : list element) : list element :=
  match es with
  | [] => []
  | Symbol _ :: rest => without_bars in_run rest
  | Plain (Skip c) :: rest =>
      if is_bar c then
        if in_run then without_bars true rest
        else Plain (Skip " ") :: without_bars true rest
      else Plain (Skip c) :: without_bars false rest
  | e :: rest => e :: without_bars false rest
  end.

Fixpoint without_directives (in_run : bool) (es : list element) : list element :=
  match es with
  | [] => []
  | Symbol _ :: rest => without_directives in_run rest
  | Directive _ :: rest => without_directives false rest
  | Plain (Skip c) :: rest =>
      if is_bar c then
        if in_run then without_directives true rest
        else Plain (Skip " ") :: without_directives true rest
      else Plain (Skip c) :: without_directives false rest
  | e :: rest => e :: without_directives false rest
  end.

Fixpoint cleaned (in_run : bool) (es : list element) : list item :=
  match es with
  | [] => []
  | Symbol _ :: rest => cleaned in_run rest
  | Directive _ :: rest => cleaned false rest
  | Chord _ :: rest => cleaned false rest
  | Plain (Skip c) :: rest =>
      if is_bar c then
        if in_run then cleaned true rest
        else Skip " " :: cleaned true rest
      else Skip c :: cleaned false rest
  | Plain (Tok t) :: rest => Tok t :: cleaned false rest
  end.

Definition not_bar (c : ascii) : bool := negb (Ascii.eqb c "|").
Definition not_percent (c : ascii) : bool := negb (Ascii.eqb c "%").
Definition not_bracket (c : ascii) : bool := negb (Ascii.eqb c "[").

(** A pitch with octave marks and a length, and a skipped character, as
    elements. *)
Definition tone (l : ascii) (marks length : string) : element :=
  Plain (Tok {| accidental := None; letter := l; octave_marks := marks;
                numerator := length; has_slash := false; denominator := "" |}).

Definition gap (c : ascii) : element := Plain (Skip c).

(** The first bar of the verse of the demo song, the chord bars of the
    second guitar part and a bar with a comment behind it. *)
Definition verse_bar : list element :=
  [Symbol "Cm"; tone "C" "," "2"; gap " "; tone "C" "," "2"; gap " ";
   tone "G" ",," "2"; gap " "; tone "G" ",," "2"; gap " "; gap "|"].

Definition chord_bars : list element :=
  [Chord "CEG"; gap "4"; gap " "; Chord "CEG"; gap "4"; gap " "; gap "|"; gap " ";
   Chord "A,CE"; gap "4"; gap " "; Chord "A,CE"; gap "4"; gap " "; gap "|"].

Definition commented_bar : list element :=
  [tone "C" "" "4"; gap " "; tone "D" "" "4"; gap " "; gap "|"; gap " ";
   gap "%"; gap " "; tone "e" "" ""; gap "n"; tone "d" "" ""; Plain (Skip newline);
   Directive "MIDI control 1 30"].

(** ** Reading a keyswitch token back *)

Definition is_lower (c : ascii) : bool := (97 <=? code c) && (code c <=? 122).

(** Semitones of a pitch letter above C. *)
Definition semitones (l : ascii) : Z :=
  let c := code (lower_char l) in
  if c =? 99 then 0 else if c =? 100 then 2 else if c =? 101 then 4
  else if c =? 102 then 5 else if c =? 103 then 7 else if c =? 97 then 9
  else 11.

(** The MIDI note of the pitch that opens a token of [inject_keyswitch]:
    an optional sharp, the letter, the octave marks.  A capital letter
    stands in octave 0 and goes down with each comma, a small letter stands
    in octave 1 and goes up with each apostrophe. *)
Definition keyswitch_pitch (s : string) : Z :=
  match s with
  | String _ r =>
      let '(sharp, r1) :=
        match r with
        | String "^" r1 => (1, r1)
        | _ => (0, r)
        end in
      match r1 with
      | String l r2 =>
          let marks := Z.of_nat (String.length (fst (take_while is_octave_mark r2))) in
          let octave := if is_lower l then 1 + marks else - marks in
          (octave + 5) * 12 + semitones l + sharp
      | EmptyString => 0
      end
  | EmptyString => 0
  end.

(** ** The scripts that write and validate a part

    [adhoc-xy-scripts/generate_mtron_bass.py] and
    [adhoc-xy-scripts/generate_part2.py] build a header with
    [generate_abc_header], add directive and music lines, and validate the
    music lines as eight bars of 4/4 in eighths before anything is written. *)

(** The prefixes of the lines that are no music. *)
Definition header_prefixes : list string :=
  ["%"; "X:"; "T:"; "M:"; "L:"; "K:"; "Q:"]%string.

(** [l and not l.startswith(prefixes)] *)
Definition is_music_line (l : string) : bool :=
  truthy l && negb (existsb (fun p => String.prefix p l) header_prefixes).

(** The list [music_lines] and the text [music] joined from it. *)
Definition music_lines (abc_content : string) : list string :=
  List.filter is_music_line (split_on newline abc_content).

Definition music (abc_content : string) : string :=
  join " " (music_lines abc_content).

(** [generate_bass_line] of generate_mtron_bass.py *)
Definition generate_bass_line : string :=
  let header :=
    {| title := "M-Tron Bass - Folk Americana"; meter := "4/4";
       unit_length := "1/8"; tempo := None; key := "Am";
       midi_program := 32; midi_channel := 2 |} in
  join nl
    [generate_abc_header header 1;
     "%%MIDI gchordoff";
     "%%MIDI control 1 40";
     "%%MIDI control 7 100";
     "A,,2E,,2 A,,2E,,2 | G,,2D,,2 G,,2D,,2 |";
     "%%MIDI control 1 50";
     "F,,2C,,2 F,,2C,,2 | E,,2B,,,2 E,,2B,,,2 |";
     "%%MIDI control 1 60";
     "A,,2A,,2 C,,2C,,2 | G,,2G,,2 D,,2D,,2 |";
     "%%MIDI control 1 70";
     "A,,8 | A,,8 |"]%string.

(** [generate_guitar_part2] and [generate_bass_part2] of generate_part2.py *)
Definition generate_guitar_part2 : string :=
  let header :=
    {| title := "Picked Acoustic Part 2"; meter := "4/4";
       unit_length := "1/8"; tempo := None; key := "Am";
       midi_program := 25; midi_channel := 1 |} in
  join nl
    [generate_abc_header header 1;
     "%%MIDI gchordoff";
     "%%MIDI bassprog 0";
     "%%MIDI chordprog 0";
     "%%MIDI control 1 30";
     "D,FAd fAFD | G,BDg dBDG |";
     "%%MIDI control 1 45";
     "[CEG]4 [CEG]4 | [A,CE]4 [A,CE]4 |";
     "%%MIDI control 1 60";
     "F,2A,2 C2F2 | G,2B,2 D2G2 |";
     "%%MIDI control 1 50";
     "a4 g4 | e8 |"]%string.

Definition generate_bass_part2 : string :=
  let header :=
    {| title := "M-Tron Bass Part 2"; meter := "4/4";
       unit_length := "1/8"; tempo := None; key := "Am";
       midi_program := 32; midi_channel := 2 |} in
  join nl
    [generate_abc_header header 1;
     "%%MIDI gchordoff";
     "%%MIDI control 1 45";
     "%%MIDI control 7 100";
     "D,,2F,,2 A,,2D,,2 | G,,2B,,,2 D,,2G,,2 |";
     "%%MIDI control 1 55";
     "C,,2C,,2 E,,2G,,2 | A,,2A,,2 E,,2A,,2 |";
     "%%MIDI control 1 65";
     "F,,F,,F,,F,, A,,A,,C,C, | G,,G,,G,,G,, B,,,B,,,D,,D,, |";
     "%%MIDI control 1 50";
     "A,,8 | A,,,8 |"]%string.

Section Scripts.

Variable float_repr : float -> string.

(** The validation both scripts run on the content they have built. *)
Definition validate_music (abc_content : string) : result (bool * string) :=
  validate_bars float_repr (music abc_content) 8 "4/4" "1/8".

End Scripts.

(** A header with another meter and unit length. *)
Definition with_meter_and_unit (header : ABCHeader) (m u : string) : ABCHeader :=
  {| title := title header; meter := m; unit_length := u;
     tempo := tempo header; key := key header;
     midi_program := midi_program header;
     midi_channel := midi_channel header |}.

(** ** What a count can be *)

(** Zero, a positive number or plus infinity: no NaN, nothing negative. *)
Definition is_nonnegative (f : float) : bool :=
  match f with
  | S754_zero false | S754_infinity false | S754_finite false _ _ => true
  | _ => false
  end.

Definition not_slash (c : ascii) : bool := negb (Ascii.eqb c "/").

(** The number of digits in a text. *)
Fixpoint digit_count (s : string) : nat :=
  match s with
  | EmptyString => O
  | String c r => if is_digit c then S (digit_count r) else digit_count r
  end.

(** A duration that is not negative. *)
Definition number_nonnegative (d : number) : Prop :=
  match d with
  | PyInt z => 0 <= z
  | PyFloat q => is_nonnegative q = true
  end.


(** ** Floats that are small integers over a power of two *)

(** The float [n * 2 ^ e] for an integer [n] of at most 53 bits, in its
    normal form: a mantissa of exactly 53 bits. *)
Definition normal (n e : Z) : float :=
  match n with
  | Z0 => S754_zero false
  | _ => S754_finite (n <? 0) (Z.to_pos (Z.abs n * 2 ^ (53 - Zdigits2 n)))
                     (e + Zdigits2 n - 53)
  end.

(** The length of a token without a slash, in units: its numerator, or 1. *)
Definition whole_units (t : token) : Z :=
  if truthy (numerator t) then digits_value 0 (numerator t) else 1.

Fixpoint total_units (ts : list token) : Z :=
  match ts with
  | [] => 0
  | t :: rest => whole_units t + total_units rest
  end.

(** * Properties *)

(** ** Sanity checks of the primitives *)

Example float_checks :
  float_of_int 1 = Ok f_one /\ int_truediv 1 100 = Ok f_tolerance
  /\ int_truediv 3 0 = Err ZeroDivisionError
  /\ float_div_int f_zero (10 ^ 400) = Err OverflowError
  /\ int_truediv (10 ^ 400) (10 ^ 399)
     = Ok (S754_finite false 5629499534213120 (-49))
  /\ py_int " 4_4 " = Ok 44 /\ py_int "-0" = Ok 0 /\ py_int "4__4" = Err InvalidLiteral
  /\ py_int "+ 4" = Err InvalidLiteral /\ py_int "" = Err InvalidLiteral
  /\ split_on "/" "a/b/c" = ["a"; "b"; "c"]%string /\ split_on "/" "/" = [""; ""]%string
  /\ format_2f (S754_finite false 1 (-3)) = "0.12"%string
  /\ format_2f (S754_finite false 3 (-3)) = "0.38"%string
  /\ py_str (-5) = "-5"%string /\ py_str 0 = "0"%string.
Proof. vm_compute. repeat split. Qed.

(** ** Integer literals and splitting *)

Ltac each_char c := destruct c as [[] [] [] [] [] [] [] []].

Lemma digit_facts c :
  is_digit c = true ->
  is_int_space c = false /\ Ascii.eqb c "/" = false /\ Ascii.eqb c "_" = false
  /\ Ascii.eqb c "-" = false /\ Ascii.eqb c "+" = false.
Proof. each_char c; vm_compute; intros H; try discriminate H; repeat split. Qed.

Lemma rstrip_keeps s :
  string_forall (fun c => negb (is_int_space c)) s = true -> rstrip s = s.
Proof.
  induction s as [|c r IH]; simpl; intros H; [reflexivity|].
  apply andb_true_iff in H as [Hc Hr]. rewrite (IH Hr).
  apply negb_true_iff in Hc. rewrite Hc, andb_false_r. reflexivity.
Qed.

Lemma string_forall_impl (p q : ascii -> bool) s :
  (forall c, p c = true -> q c = true) ->
  string_forall p s = true -> string_forall q s = true.
Proof.
  intros Hpq. induction s as [|c r IH]; simpl; [reflexivity|].
  intros H. apply andb_true_iff in H as [Hc Hr].
  rewrite (Hpq c Hc), (IH Hr). reflexivity.
Qed.

Lemma literal_body_digits s : forall st acc,
  string_forall is_digit s = true ->
  st = AfterDigit \/ s <> EmptyString ->
  literal_body st acc s = Some (digits_value acc s).
Proof.
  induction s as [|c r IH]; simpl; intros st acc H Hst.
  - destruct Hst as [-> | Hne]; [reflexivity | congruence].
  - apply andb_true_iff in H as [Hc Hr]. rewrite Hc.
    apply IH; [exact Hr | left; reflexivity].
Qed.

Lemma py_int_numeral s : numeral s = true -> py_int s = Ok (digits_value 0 s).
Proof.
  unfold numeral. intros H. apply andb_true_iff in H as [Hne Hd].
  destruct s as [|c r]; [discriminate Hne|].
  assert (Hc : is_digit c = true) by (simpl in Hd; apply andb_true_iff in Hd; tauto).
  destruct (digit_facts c Hc) as (Hsp & _ & _ & Hm & Hp).
  unfold py_int.
  assert (Hl : lstrip (String c r) = String c r) by (simpl; rewrite Hsp; reflexivity).
  rewrite Hl, rstrip_keeps.
  2:{ apply (string_forall_impl is_digit); [|exact Hd].
      intros a Ha. destruct (digit_facts a Ha) as [-> _]. reflexivity. }
  rewrite literal_body_digits; [| exact Hd | right; discriminate].
  cbv zeta.
  match goal with |- match ?t with Some z => _ | None => _ end = _ =>
     replace t with (Some (digits_value 0 (String c r))) end.
  - reflexivity.
  - clear -Hm Hp. each_char c; try reflexivity; discriminate.
Qed.

Lemma take_while_app p s rest :
  string_forall p s = true -> starts_with p rest = false ->
  take_while p (s +:+ rest) = (s, rest).
Proof.
  intros Hs Hr. induction s as [|c r IH]; simpl.
  - destruct rest as [|c r]; [reflexivity|]. simpl in Hr. simpl. rewrite Hr. reflexivity.
  - simpl in Hs. apply andb_true_iff in Hs as [Hc Hs]. rewrite Hc, (IH Hs). reflexivity.
Qed.

Lemma take_while_spec p s :
  s = fst (take_while p s) +:+ snd (take_while p s)
  /\ string_forall p (fst (take_while p s)) = true
  /\ starts_with p (snd (take_while p s)) = false.
Proof.
  induction s as [|c r IH]; [repeat split|].
  cbn [take_while]. destruct (p c) eqn:Hc.
  - destruct (take_while p r) as [t rest]. cbn [fst snd] in *.
    destruct IH as (E & Ht & Hr). cbn [string_forall].
    rewrite Hc, Ht. repeat split; [simpl; f_equal; exact E | exact Hr].
  - cbn [fst snd starts_with]; simpl. rewrite Hc. repeat split.
Qed.

Lemma split_on_plain sep s :
  string_forall (fun c => negb (Ascii.eqb c sep)) s = true -> split_on sep s = [s].
Proof.
  induction s as [|c r IH]; simpl; [reflexivity|].
  intros H. apply andb_true_iff in H as [Hc Hr]. apply negb_true_iff in Hc.
  rewrite Hc, (IH Hr). reflexivity.
Qed.

Lemma split_on_pair sep a b :
  string_forall (fun c => negb (Ascii.eqb c sep)) a = true ->
  string_forall (fun c => negb (Ascii.eqb c sep)) b = true ->
  split_on sep (a +:+ String sep b) = [a; b].
Proof.
  intros Ha Hb. induction a as [|c r IH]; simpl.
  - rewrite Ascii.eqb_refl, (split_on_plain sep b Hb). reflexivity.
  - simpl in Ha. apply andb_true_iff in Ha as [Hc Hr]. apply negb_true_iff in Hc.
    rewrite Hc, (IH Hr). reflexivity.
Qed.

Lemma numeral_digits s : numeral s = true -> string_forall is_digit s = true.
Proof. unfold numeral. intros H. apply andb_true_iff in H. tauto. Qed.

Lemma digits_no_slash s :
  string_forall is_digit s = true ->
  string_forall (fun c => negb (Ascii.eqb c "/")) s = true.
Proof.
  apply string_forall_impl. intros c Hc.
  destruct (digit_facts c Hc) as (_ & -> & _). reflexivity.
Qed.

Lemma unpack_meter ns ds :
  numeral ns = true -> numeral ds = true ->
  unpack_two_ints (split_on "/" (ns +:+ "/" +:+ ds))
  = Ok (digits_value 0 ns, digits_value 0 ds).
Proof.
  intros Hn Hd. change ("/" +:+ ds) with (String "/" ds).
  rewrite split_on_pair by (apply digits_no_slash, numeral_digits; assumption).
  unfold unpack_two_ints. rewrite (py_int_numeral ns Hn), (py_int_numeral ds Hd).
  reflexivity.
Qed.

Lemma match_unit_length_some us rest :
  numeral us = true -> starts_with is_digit rest = false ->
  match_unit_length ("1/" +:+ us +:+ rest) = Some us.
Proof.
  intros Hu Hr. change ("1/" +:+ us +:+ rest) with (String "1" (String "/" (us +:+ rest))).
  unfold match_unit_length.
  rewrite (take_while_app is_digit us rest (numeral_digits us Hu) Hr).
  unfold numeral, truthy in Hu. apply andb_true_iff in Hu as [Hne _].
  apply negb_true_iff in Hne. rewrite Hne. reflexivity.
Qed.

Lemma match_unit_length_inv ul g :
  match_unit_length ul = Some g ->
  numeral g = true /\ exists rest, ul = "1/" +:+ g +:+ rest /\ starts_with is_digit rest = false.
Proof.
  unfold match_unit_length.
  destruct ul as [|c1 r1]; [discriminate|].
  destruct r1 as [|c2 r2].
  { each_char c1; discriminate. }
  intros H.
  assert (E : c1 = "1"%char /\ c2 = "/"%char).
  { clear -H. each_char c1; try discriminate H; each_char c2; try discriminate H; split; reflexivity. }
  destruct E as [-> ->].
  destruct (take_while_spec is_digit r2) as (E & Hd & Hr).
  destruct (take_while is_digit r2) as [d rest]. simpl in *.
  destruct (is_empty d) eqn:Hne; [discriminate|]. injection H as <-.
  split.
  - unfold numeral, truthy. rewrite Hne, Hd. reflexivity.
  - exists rest. split; [rewrite E; reflexivity | exact Hr].
Qed.

Lemma py_int_error s e : py_int s = Err e -> e = InvalidLiteral.
Proof.
  unfold py_int. cbv zeta.
  match goal with |- match ?t with Some z => _ | None => _ end = _ -> _ =>
    destruct t end; [discriminate | congruence].
Qed.

(** ** Bar arithmetic *)

(** C2. For a meter written N/D with D positive, [units_per_bar] is
    (N * U) // D when the unit length starts with 1/U (U a run of digits,
    taken as long as possible), and 8 when the unit length has no such
    start; 4/4 with 1/8 gives 8 and 3/4 with 1/8 gives 6. *)
Theorem units_per_bar_formula (ns ds : string) :
  numeral ns = true -> numeral ds = true -> 0 < digits_value 0 ds ->
  (forall us rest, numeral us = true -> starts_with is_digit rest = false ->
     units_per_bar (ns +:+ "/" +:+ ds) ("1/" +:+ us +:+ rest)
     = Ok ((digits_value 0 ns * digits_value 0 us) / digits_value 0 ds))
  /\ (forall ul,
        (forall us rest, numeral us = true -> ul <> "1/" +:+ us +:+ rest) ->
        units_per_bar (ns +:+ "/" +:+ ds) ul = Ok 8)
  /\ units_per_bar "4/4" "1/8" = Ok 8
  /\ units_per_bar "3/4" "1/8" = Ok 6.
Proof.
  intros Hn Hd Hpos. repeat split.
  - intros us rest Hu Hr. unfold units_per_bar.
    rewrite (unpack_meter ns ds Hn Hd). cbn [bind].
    rewrite (match_unit_length_some us rest Hu Hr), (py_int_numeral us Hu). cbn [bind].
    unfold floordiv. destruct (Z.eqb_spec (digits_value 0 ds) 0); [lia | reflexivity].
  - intros ul Hno. unfold units_per_bar.
    rewrite (unpack_meter ns ds Hn Hd). cbn [bind].
    destruct (match_unit_length ul) as [g|] eqn:Hm; [|reflexivity].
    destruct (match_unit_length_inv ul g Hm) as (Hg & rest & E & _).
    exfalso. exact (Hno g rest Hg E).
Qed.

Lemma units_per_bar_formula_witness :
  numeral "6" = true /\ numeral "8" = true /\ 0 < digits_value 0 "8"
  /\ units_per_bar "6/8" "1/16th" = Ok ((6 * 16) / 8).
Proof.
  split; [reflexivity|]. split; [reflexivity|]. split; [reflexivity|].
  exact (proj1 (units_per_bar_formula "6" "8" eq_refl eq_refl eq_refl)
               "16" "th" eq_refl eq_refl).
Defined.

(** C5 fails as stated: a meter that is not two integer literals around one
    slash makes [units_per_bar] raise, it does not fall back to 8. *)
Lemma units_per_bar_malformed_meter_raises :
  units_per_bar "4-4" "eighth" = Err InvalidLiteral
  /\ units_per_bar "4-4" "eighth" <> Ok 8.
Proof. split; [reflexivity | discriminate]. Qed.

(** C5, amended. A unit length that does not start with 1/ and a digit
    makes [units_per_bar] return 8 without raising whenever the meter
    splits at the slash into exactly two integer literals (the division is
    then never reached); a meter that does not so split raises a ValueError,
    whatever the unit length is. *)
Theorem units_per_bar_fallback :
  (forall meter ul a b n d,
      split_on "/" meter = [a; b] -> py_int a = Ok n -> py_int b = Ok d ->
      (forall us rest, numeral us = true -> ul <> "1/" +:+ us +:+ rest) ->
      units_per_bar meter ul = Ok 8)
  /\ (forall meter ul,
        (forall a b n d, split_on "/" meter = [a; b] -> py_int a = Ok n ->
                         py_int b = Ok d -> False) ->
        units_per_bar meter ul = Err InvalidLiteral
        \/ units_per_bar meter ul = Err UnpackError).
Proof.
  split.
  - intros meter ul a b n d Hs Ha Hb Hul. unfold units_per_bar, unpack_two_ints.
    rewrite Hs, Ha, Hb. cbn [bind].
    destruct (match_unit_length ul) as [g|] eqn:Hm; [|reflexivity].
    destruct (match_unit_length_inv ul g Hm) as (Hg & rest & E & _).
    exfalso. exact (Hul g rest Hg E).
  - intros meter ul Hbad. unfold units_per_bar, unpack_two_ints.
    destruct (split_on "/" meter) as [|a [|b [|c rest]]] eqn:Hs.
    + right. reflexivity.
    + destruct (py_int a) as [n|e] eqn:Ha; cbn [bind]; [right; reflexivity|].
      left. rewrite (py_int_error a e Ha). reflexivity.
    + destruct (py_int a) as [n|e] eqn:Ha; cbn [bind].
      * destruct (py_int b) as [d|e] eqn:Hb; cbn [bind].
        -- exfalso. exact (Hbad a b n d eq_refl Ha Hb).
        -- left. rewrite (py_int_error b e Hb). reflexivity.
      * left. rewrite (py_int_error a e Ha). reflexivity.
    + destruct (py_int a) as [n|e] eqn:Ha; cbn [bind].
      * destruct (py_int b) as [d|e] eqn:Hb; cbn [bind].
        -- destruct (py_int c) as [x|e] eqn:Hc; cbn [bind]; [right; reflexivity|].
           left. rewrite (py_int_error c e Hc). reflexivity.
        -- left. rewrite (py_int_error b e Hb). reflexivity.
      * left. rewrite (py_int_error a e Ha). reflexivity.
Qed.

Lemma units_per_bar_fallback_witness :
  units_per_bar " 4/+4" "eighth" = Ok 8
  /\ (units_per_bar "4/4/4" "1/8" = Err InvalidLiteral
      \/ units_per_bar "4/4/4" "1/8" = Err UnpackError).
Proof.
  split.
  - apply (proj1 units_per_bar_fallback " 4/+4" "eighth" " 4" "+4" 4 4);
      try reflexivity.
    intros us rest _ H. discriminate H.
  - apply (proj2 units_per_bar_fallback "4/4/4" "1/8").
    intros a b n d H. discriminate H.
Defined.

(** C9. The well-formed pair 1/8 and 1/4 gives 0 units per bar, and for
    every pair that gives 0 [validate_bars] raises ZeroDivisionError as soon
    as the parser has returned its total: the division has no guard. *)
Theorem validate_bars_division_by_zero :
  units_per_bar "1/8" "1/4" = Ok 0
  /\ (forall float_repr abc expected_bars meter ul actual_units,
        units_per_bar meter ul = Ok 0 ->
        count_abc_units abc = Ok actual_units ->
        validate_bars float_repr abc expected_bars meter ul
        = Err ZeroDivisionError).
Proof.
  split; [reflexivity|].
  intros float_repr abc expected_bars meter ul actual_units Hu Hc.
  unfold validate_bars. rewrite Hu, Hc. reflexivity.
Qed.

Lemma validate_bars_division_by_zero_witness :
  units_per_bar "1/8" "1/4" = Ok 0
  /\ count_abc_units "C2 D2" = Ok (S754_finite false 4503599627370496 (-50))
  /\ validate_bars (fun _ => EmptyString) "C2 D2" 4 "1/8" "1/4"
     = Err ZeroDivisionError.
Proof.
  split; [reflexivity|]. split; [reflexivity|].
  exact (proj2 validate_bars_division_by_zero (fun _ => EmptyString)
               "C2 D2" 4 "1/8" "1/4" _ eq_refl eq_refl).
Defined.

(** ** Validation and assembly of sections *)

Section Assembly.

Variable float_repr : float -> string.


Lemma validate_bars_true abc e m u msg :
  validate_bars float_repr abc e m u = Ok (true, msg) -> msg = EmptyString.
Proof.
  unfold validate_bars.
  destruct (units_per_bar m u) as [upb|]; cbn [bind]; [|discriminate].
  destruct (count_abc_units abc) as [au|]; cbn [bind]; [|discriminate].
  destruct (float_div_int au upb) as [ab|]; cbn [bind]; [|discriminate].
  destruct (float_sub_int ab e) as [d|]; cbn [bind]; [|discriminate].
  destruct (fltb (fabs d) f_tolerance); congruence.
Qed.

Lemma find_append {A : Type} (f : A -> bool) (l1 l2 : list A) :
  find f (l1 ++ l2)
  = match find f l1 with Some x => Some x | None => find f l2 end.
Proof.
  induction l1 as [|a l1 IH]; [reflexivity|]. cbn [app find].
  destruct (f a); [reflexivity | exact IH].
Qed.

Lemma section_map_lookup (sections : list Section_) (n : string) :
  section_map sections !! n = find (named n) (rev sections).
Proof.
  unfold section_map.
  assert (G : forall l (m : gmap string Section_),
    foldl (fun m s => <[name s := s]> m) m l !! n
    = match find (named n) (rev l) with Some s => Some s | None => m !! n end).
  { induction l as [|a l IH]; intros m; [reflexivity|].
    cbn [foldl rev]. rewrite IH, find_append.
    destruct (find (named n) (rev l)); [reflexivity|].
    cbn [find]. unfold named at 1. destruct (String.eqb_spec (name a) n) as [->|Hne].
    - apply lookup_insert_eq.
    - apply lookup_insert_ne. exact Hne. }
  rewrite G. destruct (find (named n) (rev sections)); [reflexivity | apply lookup_empty].
Qed.

Lemma validate_sections_ok sections header :
  validate_sections float_repr sections header = Ok tt
  <-> Forall (validates float_repr header) sections.
Proof.
  induction sections as [|s rest IH]; cbn [validate_sections].
  - split; [constructor | reflexivity].
  - unfold validates at 1.
    destruct (validate_bars float_repr (abc s) (bars s) (meter header) (unit_length header))
      as [[[|] msg]|e] eqn:Hv; cbn [bind].
    + rewrite IH. pose proof (validate_bars_true _ _ _ _ _ Hv) as ->.
      split; [intros H; constructor; [exact Hv | exact H] | intros H; inversion H; assumption].
    + split; [discriminate|]. intros H. inversion H as [|? ? H1 H2]. unfold validates in H1. congruence.
    + split; [discriminate|]. intros H. inversion H as [|? ? H1 H2]. unfold validates in H1. congruence.
Qed.


Lemma assemble_body_ok (m : gmap string Section_) structure : forall acc,
  Forall (fun n => is_Some (m !! n)) structure ->
  assemble_body m structure acc
  = Ok (acc ++ flat_map (fun n => ["% Section: " +:+ n; match m !! n with Some s => abc s | None => EmptyString end]) structure).
Proof.
  induction structure as [|n rest IH]; intros acc H; cbn [assemble_body flat_map].
  - rewrite app_nil_r. reflexivity.
  - inversion H as [|? ? [s Hs] Hrest]; subst. rewrite Hs.
    rewrite (IH _ Hrest). rewrite <- app_assoc. reflexivity.
Qed.

Lemma assemble_body_unknown (m : gmap string Section_) known n rest : forall acc,
  Forall (fun k => is_Some (m !! k)) known -> m !! n = None ->
  assemble_body m (known ++ n :: rest) acc
  = Err (ValueError ("Unknown section: " +:+ n)).
Proof.
  induction known as [|k known IH]; intros acc Hk Hn; cbn [app assemble_body].
  - rewrite Hn. reflexivity.
  - inversion Hk as [|? ? [s Hs] Hrest]; subst. rewrite Hs. apply IH; assumption.
Qed.

Lemma assemble_body_cases (m : gmap string Section_) (structure : list string) :
  (Forall (fun n => is_Some (m !! n)) structure)
  \/ (exists known n rest, structure = known ++ n :: rest
        /\ Forall (fun k => is_Some (m !! k)) known /\ m !! n = None).
Proof.
  induction structure as [|n rest IH]; [left; constructor|].
  destruct (m !! n) as [s|] eqn:Hn.
  - destruct IH as [H | (known & u & rest' & -> & Hk & Hu)].
    + left. constructor; [eexists; exact Hn | exact H].
    + right. exists (n :: known), u, rest'. repeat split; [|exact Hu].
      constructor; [eexists; exact Hn | exact Hk].
  - right. exists [], n, rest. repeat split; [constructor | exact Hn].
Qed.

Lemma section_map_known (sections : list Section_) (n : string) :
  is_Some (section_map sections !! n) <-> In n (map name sections).
Proof.
  rewrite section_map_lookup. split.
  - intros [s Hs]. apply find_some in Hs as [Hin Hn].
    apply in_rev in Hin. unfold named in Hn. apply String.eqb_eq in Hn as <-.
    apply in_map. exact Hin.
  - intros Hin. apply in_map_iff in Hin as (s & <- & Hin).
    destruct (find (named (name s)) (rev sections)) as [x|] eqn:Hf; [eexists; reflexivity|].
    exfalso. apply in_rev in Hin. pose proof (find_none _ _ Hf s Hin) as Hn.
    unfold named in Hn. rewrite String.eqb_refl in Hn. discriminate.
Qed.


Lemma section_text_last sections n :
  In n (map name sections) ->
  exists pre s post, sections = pre ++ s :: post /\ name s = n
    /\ Forall (fun x => name x <> n) post /\ section_text sections n = abc s.
Proof.
  unfold section_text. induction sections as [|a l IH] using rev_ind; [intros []|].
  intros Hin. rewrite rev_app_distr. cbn [rev app find]. unfold named at 1.
  destruct (String.eqb_spec (name a) n) as [E|Hne].
  - exists l, a, []. repeat split; [exact E | constructor].
  - rewrite map_app, in_app_iff in Hin. destruct Hin as [Hin | [E | []]]; [|contradiction].
    destruct (IH Hin) as (pre & s & post & -> & Hs & Hpost & Ht).
    exists pre, s, (post ++ [a]). repeat split.
    + rewrite <- app_assoc. reflexivity.
    + exact Hs.
    + apply Forall_app. split; [exact Hpost | constructor; [exact Hne | constructor]].
    + exact Ht.
Qed.

Lemma validates_with_title header t s :
  validates float_repr (with_title header t) s <-> validates float_repr header s.
Proof. unfold validates. reflexivity. Qed.

Lemma assemble_reaches_body instrument_name sections structure header ks au :
  Forall (validates float_repr header) sections ->
  assemble_instrument float_repr instrument_name sections structure header ks au
  = let header' := with_title header (title header +:+ " - " +:+ instrument_name) in
    match assemble_body (section_map sections) structure
            [generate_abc_header header' 1; EmptyString] with
    | Err e => (Err e, header')
    | Ok content => (Ok (join nl content), header')
    end.
Proof.
  intros H. apply validate_sections_ok in H. unfold assemble_instrument.
  rewrite H. reflexivity.
Qed.

Lemma assemble_success_inv instrument_name sections structure header ks au doc :
  fst (assemble_instrument float_repr instrument_name sections structure header ks au)
  = Ok doc ->
  Forall (validates float_repr header) sections
  /\ Forall (fun k => In k (map name sections)) structure.
Proof.
  intros H.
  destruct (validate_sections float_repr sections header) as [[]|e] eqn:Hv.
  2:{ unfold assemble_instrument in H. rewrite Hv in H. discriminate. }
  apply validate_sections_ok in Hv. split; [exact Hv|].
  rewrite (assemble_reaches_body _ _ _ _ _ _ Hv) in H. cbv zeta in H.
  destruct (assemble_body_cases (section_map sections) structure)
    as [Hok | (known & n & rest & -> & Hk & Hn)].
  - eapply Forall_impl; [exact Hok|]. intros k. apply section_map_known.
  - rewrite assemble_body_unknown in H by assumption. discriminate.
Qed.


(** C6. A successful call returns the newline-join of the header block
    (rendered from the header with the instrument name appended to the
    title, index 1), one empty line, and for each entry of the structure
    list, in order and with repeats, the marker line "% Section: " with the
    name and the raw text of the section of that name (the last one of that
    name in the supplied list).  The call succeeds whenever every section
    validates and every name is supplied; the structure A, B, A of the
    example gives A's text, B's text and A's text again. *)
Theorem assemble_instrument_document :
  (forall instrument_name sections structure header ks au doc,
      fst (assemble_instrument float_repr instrument_name sections structure header ks au)
      = Ok doc ->
      doc = join nl
              (generate_abc_header
                 (with_title header (title header +:+ " - " +:+ instrument_name)) 1
               :: EmptyString
               :: flat_map (fun n => ["% Section: " +:+ n; section_text sections n])
                           structure)
      /\ forall n, In n structure ->
           exists pre s post, sections = pre ++ s :: post /\ name s = n
             /\ Forall (fun x => name x <> n) post
             /\ section_text sections n = abc s)
  /\ (forall instrument_name sections structure header ks au,
      Forall (validates float_repr header) sections ->
      Forall (fun k => In k (map name sections)) structure ->
      exists doc,
        fst (assemble_instrument float_repr instrument_name sections structure header ks au)
        = Ok doc)
  /\ fst (assemble_instrument float_repr "lead" [section_A; section_B]
             ["A"; "B"; "A"]%string demo_header None None)
     = Ok (join nl ["X:1"; "T:Song - lead"; "M:4/4"; "L:1/8"; "K:C";
                    "%%MIDI program 0"; "%%MIDI channel 1"; "";
                    "% Section: A"; abc section_A;
                    "% Section: B"; abc section_B;
                    "% Section: A"; abc section_A]%string).
Proof.
  assert (Hbody : forall instrument_name sections structure header,
    Forall (fun k => In k (map name sections)) structure ->
    assemble_body (section_map sections) structure
      [generate_abc_header (with_title header (title header +:+ " - " +:+ instrument_name)) 1;
       EmptyString]
    = Ok ([generate_abc_header (with_title header (title header +:+ " - " +:+ instrument_name)) 1;
           EmptyString]
          ++ flat_map (fun n => ["% Section: " +:+ n; section_text sections n]) structure)).
  { intros instrument_name sections structure header Hk. rewrite assemble_body_ok.
    2:{ eapply Forall_impl; [exact Hk|]. intros k. apply section_map_known. }
    do 2 f_equal. apply flat_map_ext. intros n. unfold section_text.
    rewrite section_map_lookup. reflexivity. }
  split; [|split].
  - intros instrument_name sections structure header ks au doc H.
    destruct (assemble_success_inv _ _ _ _ _ _ _ H) as [Hall Hk].
    rewrite (assemble_reaches_body _ _ _ _ _ _ Hall) in H. cbv zeta in H.
    rewrite (Hbody _ _ _ _ Hk) in H. cbn [fst] in H. injection H as <-.
    split; [reflexivity|].
    intros n Hn. apply section_text_last.
    exact (proj1 (List.Forall_forall _ _) Hk n Hn).
  - intros instrument_name sections structure header ks au Hall Hk.
    rewrite (assemble_reaches_body _ _ _ _ _ _ Hall). cbv zeta.
    rewrite (Hbody _ _ _ _ Hk). eexists. reflexivity.
  - vm_compute. reflexivity.
Qed.

(** C7. When every section validates, so that the call reaches the
    assembly stage, the header it leaves behind has the old title followed
    by " - " and the instrument name, and the same meter, unit length,
    tempo, key, program and channel; a second call on that header appends
    once more. *)
Theorem assemble_instrument_mutates_title instrument_name sections structure header ks au :
  Forall (validates float_repr header) sections ->
  let header' :=
    snd (assemble_instrument float_repr instrument_name sections structure header ks au) in
  title header' = title header +:+ " - " +:+ instrument_name
  /\ meter header' = meter header
  /\ unit_length header' = unit_length header
  /\ tempo header' = tempo header
  /\ key header' = key header
  /\ midi_program header' = midi_program header
  /\ midi_channel header' = midi_channel header
  /\ forall instrument_name2 structure2 ks2 au2,
       title (snd (assemble_instrument float_repr instrument_name2 sections structure2
                     header' ks2 au2))
       = (title header +:+ " - " +:+ instrument_name) +:+ " - " +:+ instrument_name2.
Proof.
  intros Hall header'.
  assert (E : header' = with_title header (title header +:+ " - " +:+ instrument_name)).
  { unfold header'. rewrite (assemble_reaches_body _ _ _ _ _ _ Hall). cbv zeta.
    destruct (assemble_body _ _ _); reflexivity. }
  rewrite E. repeat split; try reflexivity.
  intros n2 st2 ks2 au2.
  rewrite assemble_reaches_body.
  - cbv zeta. destruct (assemble_body _ _ _); reflexivity.
  - eapply Forall_impl; [exact Hall|]. intros s. apply validates_with_title.
Qed.
End Assembly.


Lemma assemble_instrument_document_witness :
  let r := fun _ : float => EmptyString in
  fst (assemble_instrument r "bass" [section_B; section_A] ["A"; "A"]%string
         demo_header None None)
  = Ok (join nl ["X:1"; "T:Song - bass"; "M:4/4"; "L:1/8"; "K:C";
                 "%%MIDI program 0"; "%%MIDI channel 1"; "";
                 "% Section: A"; "C2C2C2C2 | C2C2C2C2 |";
                 "% Section: A"; "C2C2C2C2 | C2C2C2C2 |"]%string)
  /\ (exists doc,
        fst (assemble_instrument r "bass" [section_B; section_A] ["A"; "A"]%string
               demo_header None None) = Ok doc).
Proof.
  intros r.
  assert (Hall : Forall (validates r demo_header) [section_B; section_A])
    by (repeat constructor).
  assert (Hk : Forall (fun k => In k (map name [section_B; section_A])) ["A"; "A"]%string)
    by (repeat constructor; cbn; tauto).
  pose proof (proj1 (proj2 (assemble_instrument_document r)) "bass"%string
                [section_B; section_A] ["A"; "A"]%string demo_header None None Hall Hk)
    as Hex.
  split; [|exact Hex].
  destruct Hex as [doc Hdoc]. rewrite Hdoc. f_equal.
  exact (proj1 (proj1 (assemble_instrument_document r) "bass"%string
                [section_B; section_A] ["A"; "A"]%string demo_header None None doc Hdoc)).
Defined.

Lemma assemble_instrument_mutates_title_witness :
  let r := fun _ : float => EmptyString in
  Forall (validates r demo_header) [section_A; section_B]
  /\ title (snd (assemble_instrument r "bass" [section_A; section_B] ["A"; "nowhere"]%string
                   demo_header None None)) = "Song - bass"%string
  /\ title (snd (assemble_instrument r "lead" [section_A; section_B] ["B"]%string
              (snd (assemble_instrument r "bass" [section_A; section_B] ["A"; "nowhere"]%string
                      demo_header None None)) None None))
     = "Song - bass - lead"%string.
Proof.
  intros r.
  assert (Hall : Forall (validates r demo_header) [section_A; section_B])
    by (repeat constructor).
  split; [exact Hall|].
  pose proof (assemble_instrument_mutates_title r "bass" [section_A; section_B]
                ["A"; "nowhere"]%string demo_header None None Hall) as H.
  cbv zeta in H. destruct H as (Ht & _ & _ & _ & _ & _ & _ & Hcum).
  split; [exact Ht | exact (Hcum "lead"%string ["B"%string] None None)].
Defined.

(** ** Header rendering *)

Lemma uint_no_newline d :
  string_forall not_newline (NilEmpty.string_of_uint d) = true.
Proof. induction d; cbn [NilEmpty.string_of_uint string_forall]; try rewrite IHd; reflexivity. Qed.

Lemma py_str_no_newline n : string_forall not_newline (py_str n) = true.
Proof.
  unfold py_str, NilZero.string_of_int, NilZero.string_of_uint.
  destruct (Z.to_int n) as [d|d]; destruct d;
    first [reflexivity | apply uint_no_newline
          | cbn [string_forall]; rewrite uint_no_newline; reflexivity
          | cbn [string_forall NilEmpty.string_of_uint]; rewrite uint_no_newline; reflexivity].
Qed.

Lemma string_forall_app p a b :
  string_forall p (a +:+ b) = string_forall p a && string_forall p b.
Proof.
  induction a as [|c r IH]; [reflexivity|]. simpl. rewrite IH, andb_assoc. reflexivity.
Qed.

Lemma split_on_app sep a b :
  string_forall (fun c => negb (Ascii.eqb c sep)) a = true ->
  split_on sep (a +:+ String sep b) = a :: split_on sep b.
Proof.
  intros Ha. induction a as [|c r IH]; simpl.
  - rewrite Ascii.eqb_refl. reflexivity.
  - simpl in Ha. apply andb_true_iff in Ha as [Hc Hr]. apply negb_true_iff in Hc.
    rewrite Hc, (IH Hr). reflexivity.
Qed.

Lemma split_on_join sep lines :
  lines <> [] ->
  Forall (fun l => string_forall (fun c => negb (Ascii.eqb c sep)) l = true) lines ->
  split_on sep (join (String sep EmptyString) lines) = lines.
Proof.
  induction lines as [|l rest IH]; [congruence|].
  intros _ H. inversion H as [|? ? Hl Hrest]; subst.
  destruct rest as [|l2 rest].
  - cbn [join]. apply split_on_plain. exact Hl.
  - change (join (String sep EmptyString) (l :: l2 :: rest))
      with (l +:+ String sep (join (String sep EmptyString) (l2 :: rest))).
    rewrite (split_on_app sep l _ Hl), IH; [reflexivity | discriminate | exact Hrest].
Qed.

(** C8 fails as stated: the title is spliced into the text as it is, so a
    title that holds a newline and a tempo field puts a tempo line into the
    output of a header whose tempo is unset. *)
Lemma generate_abc_header_title_newline :
  let header := with_title demo_header ("Song" +:+ nl +:+ "Q:1/4=90") in
  tempo header = None
  /\ generate_abc_header header 1
     = join nl ["X:1"; "T:Song"; "Q:1/4=90"; "M:4/4"; "L:1/8"; "K:C";
                "%%MIDI program 0"; "%%MIDI channel 1"]%string
  /\ In "Q:1/4=90"%string (split_on newline (generate_abc_header header 1)).
Proof.
  split; [reflexivity|]. split; [reflexivity|]. vm_compute. tauto.
Qed.

(** C8, amended.  The header is the newline-join of the lines index, title,
    meter, unit length, tempo, key, program directive and channel directive,
    in that order, the tempo line being in the list exactly when the tempo
    field is set: unset, no line of the list starts with Q:, and set to 120
    the line is Q:1/4=120.  When no text field (title, meter, unit length,
    key) holds a newline, cutting the output at its newlines gives back
    exactly these lines, so that the output has a line starting with Q:
    exactly when the tempo is set, and none anywhere when it is unset. *)
Theorem generate_abc_header_lines (header : ABCHeader) (index : Z) :
  let first_lines :=
    ["X:" +:+ py_str index; "T:" +:+ title header; "M:" +:+ meter header;
     "L:" +:+ unit_length header] in
  let last_lines :=
    ["K:" +:+ key header; "%%MIDI program " +:+ py_str (midi_program header);
     "%%MIDI channel " +:+ py_str (midi_channel header)] in
  let output_lines := split_on newline (generate_abc_header header index) in
  (tempo header = None ->
   generate_abc_header header index = join nl (first_lines ++ last_lines))
  /\ (forall t, tempo header = Some t ->
      generate_abc_header header index
      = join nl (first_lines ++ ["Q:1/4=" +:+ py_str t] ++ last_lines))
  /\ (tempo header = Some 120 -> In "Q:1/4=120"%string (header_lines header index))
  /\ (tempo header = None ->
      Forall (fun l => String.prefix "Q:" l = false) (header_lines header index))
  /\ (string_forall not_newline (title header) = true ->
      string_forall not_newline (meter header) = true ->
      string_forall not_newline (unit_length header) = true ->
      string_forall not_newline (key header) = true ->
      output_lines = header_lines header index
      /\ (tempo header = None ->
          Forall (fun l => String.prefix "Q:" l = false) output_lines)
      /\ (forall t, tempo header = Some t ->
          In ("Q:1/4=" +:+ py_str t) output_lines
          /\ nth 4 output_lines EmptyString = "Q:1/4=" +:+ py_str t)
      /\ (List.Exists (fun l => String.prefix "Q:" l = true) output_lines
          <-> tempo header <> None)).
Proof.
  intros first_lines last_lines output_lines.
  assert (NoQ : tempo header = None ->
                Forall (fun l => String.prefix "Q:" l = false) (header_lines header index)).
  { unfold header_lines. intros ->. repeat constructor. }
  split; [|split; [|split; [|split]]].
  - unfold generate_abc_header, header_lines. intros ->. reflexivity.
  - unfold generate_abc_header, header_lines. intros t ->. reflexivity.
  - unfold header_lines. intros ->. cbn [app In]. tauto.
  - exact NoQ.
  - intros Ht Hm Hu Hk.
    assert (E : output_lines = header_lines header index).
    { unfold output_lines, generate_abc_header. apply split_on_join.
      - unfold header_lines. discriminate.
      - assert (Hs : forall a b, string_forall not_newline a = true ->
                  string_forall not_newline b = true ->
                  string_forall (fun c => negb (Ascii.eqb c newline)) (a +:+ b) = true).
        { intros a b Ha Hb. change (fun c => negb (Ascii.eqb c newline)) with not_newline.
          rewrite string_forall_app, Ha, Hb. reflexivity. }
        unfold header_lines. destruct (tempo header); repeat constructor;
          apply Hs; first [reflexivity | assumption | apply py_str_no_newline]. }
    assert (Q : forall t, tempo header = Some t ->
                In ("Q:1/4=" +:+ py_str t) output_lines
                /\ nth 4 output_lines EmptyString = "Q:1/4=" +:+ py_str t).
    { intros t Hq. rewrite E. unfold header_lines. rewrite Hq.
      cbn [app In nth]. tauto. }
    split; [exact E|]. split; [|split; [exact Q|]].
    + intros Hq. rewrite E. exact (NoQ Hq).
    + split.
      * intros Hex Hq. apply List.Exists_exists in Hex as (l & Hin & Hl).
        rewrite E in Hin.
        pose proof (proj1 (List.Forall_forall _ _) (NoQ Hq) l Hin) as Hf.
        cbn beta in Hf. congruence.
      * intros Hq. destruct (tempo header) as [t|] eqn:Et; [|congruence].
        apply List.Exists_exists. exists ("Q:1/4=" +:+ py_str t).
        split; [exact (proj1 (Q t eq_refl)) | reflexivity].
Qed.

Lemma generate_abc_header_lines_witness :
  let lines := ["X:1"; "T:Song"; "M:4/4"; "L:1/8"; "K:C";
                "%%MIDI program 0"; "%%MIDI channel 1"]%string in
  tempo demo_header = None
  /\ generate_abc_header demo_header 1 = join nl lines
  /\ split_on newline (generate_abc_header demo_header 1) = lines
  /\ Forall (fun l => String.prefix "Q:" l = false)
            (split_on newline (generate_abc_header demo_header 1)).
Proof.
  intros lines.
  pose proof (generate_abc_header_lines demo_header 1) as H. cbv zeta in H.
  destruct H as (Hnone & _ & _ & _ & Hsplit).
  destruct (Hsplit eq_refl eq_refl eq_refl eq_refl) as (Hlines & Hquiet & _).
  split; [reflexivity|]. split; [exact (Hnone eq_refl)|].
  split; [exact Hlines | exact (Hquiet eq_refl)].
Defined.

(** ** The substitutions and the scan on laid-out text *)

Lemma starts_with_app p a b :
  starts_with p (a +:+ b) = if is_empty a then starts_with p b else starts_with p a.
Proof. destruct a; reflexivity. Qed.

Lemma append_assoc (a b c : string) : (a +:+ b) +:+ c = a +:+ b +:+ c.
Proof. induction a as [|x a IH]; [reflexivity|]. simpl. rewrite IH. reflexivity. Qed.

Lemma append_empty_r (a : string) : a +:+ "" = a.
Proof. induction a as [|x a IH]; [reflexivity|]. simpl. rewrite IH. reflexivity. Qed.

Lemma length_append (a b : string) :
  String.length (a +:+ b) = (String.length a + String.length b)%nat.
Proof. induction a as [|x a IH]; [reflexivity|]. simpl. rewrite IH. reflexivity. Qed.

Lemma string_forall_starts p q s :
  (forall c, p c = true -> q c = false) ->
  string_forall p s = true -> starts_with q s = false.
Proof.
  intros Hpq. destruct s as [|c r]; [reflexivity|]. simpl.
  intros H. apply andb_true_iff in H as [Hc _]. exact (Hpq c Hc).
Qed.

(** No pattern of the script matches the empty string. *)
Lemma matches_not_empty s :
  match_quoted s <> Some O /\ match_bars s <> Some O
  /\ match_directive s <> Some O /\ match_bracket s <> Some O
  /\ (forall g, match_note s <> Some (g, O)).
Proof.
  assert (Hn : forall acc r g, match_note_letter acc r <> Some (g, O)).
  { intros acc r g. unfold match_note_letter. destruct r as [|c r]; [discriminate|].
    destruct (is_note_letter c); [|discriminate].
    destruct (take_while is_octave_mark r) as [oct r1].
    destruct (take_while is_digit r1) as [n r2].
    destruct (match r2 with String "/" r3 => ("/"%string, r3) | _ => (EmptyString, r2) end)
      as [sl r3].
    destruct (take_while is_digit r3) as [d r4]. intros [= _ H]. lia. }
  repeat split.
  - unfold match_quoted. destruct s as [|c r]; [discriminate|].
    destruct (Ascii.eqb c dquote); [|discriminate].
    destruct (find_char dquote r); discriminate.
  - unfold match_bars. destruct (String.length _); discriminate.
  - unfold match_directive. destruct s as [|c [|c2 r]]; try discriminate;
      each_char c; try discriminate; each_char c2; discriminate.
  - unfold match_bracket. destruct s as [|c r]; [discriminate|].
    each_char c; try discriminate. destruct (find_close r); discriminate.
  - intros g. unfold match_note. destruct s as [|a r]; [discriminate|].
    destruct (is_accidental a); [|apply Hn].
    destruct (match_note_letter (String a EmptyString) r) as [[g' n']|] eqn:E;
      [|apply Hn].
    intros [= -> ->]. exact (Hn _ _ _ E).
Qed.

(** Passing over the rest of a match. *)
Lemma sub_from_skip m repl a b :
  sub_from m repl (String.length a) (a +:+ b) = sub_from m repl 0 b.
Proof.
  induction a as [|c a IH]; simpl.
  - destruct b; reflexivity.
  - exact IH.
Qed.

Lemma finditer_from_skip {G : Type} (m : string -> option (G * nat)) a b :
  finditer_from m (String.length a) (a +:+ b) = finditer_from m 0 b.
Proof.
  induction a as [|c a IH]; simpl.
  - destruct b; reflexivity.
  - exact IH.
Qed.

(** A text none of whose characters can start a match is copied. *)
Lemma sub_from_copy m repl (p : ascii -> bool) a b :
  (forall c r, p c = true -> m (String c r) = None) ->
  string_forall p a = true ->
  sub_from m repl 0 (a +:+ b) = a +:+ sub_from m repl 0 b.
Proof.
  intros Hm. induction a as [|c a IH]; intros Ha; [reflexivity|].
  simpl in Ha. apply andb_true_iff in Ha as [Hc Ha].
  simpl. rewrite (Hm c _ Hc), (IH Ha). reflexivity.
Qed.

Lemma re_sub_copy m repl (p : ascii -> bool) a :
  (forall c r, p c = true -> m (String c r) = None) ->
  string_forall p a = true -> re_sub m repl a = a.
Proof.
  intros Hm Ha. unfold re_sub. rewrite <- (append_empty_r a) at 1.
  rewrite (sub_from_copy m repl p a "" Hm Ha). simpl. apply append_empty_r.
Qed.

Lemma match_quoted_none c r : Ascii.eqb c dquote = false -> match_quoted (String c r) = None.
Proof. intros H. unfold match_quoted. rewrite H. reflexivity. Qed.

Lemma match_bars_none c r : Ascii.eqb c "|" = false -> match_bars (String c r) = None.
Proof. intros H. unfold match_bars. cbn [take_while]. unfold is_bar. rewrite H. reflexivity. Qed.

Lemma match_directive_none c r : Ascii.eqb c "%" = false -> match_directive (String c r) = None.
Proof. intros H. unfold match_directive. each_char c; try reflexivity; discriminate H. Qed.

Lemma match_bracket_none c r : Ascii.eqb c "[" = false -> match_bracket (String c r) = None.
Proof. intros H. unfold match_bracket. each_char c; try reflexivity; discriminate H. Qed.

(** How the character classes of the grammar exclude one another. *)
Lemma class_facts c :
  (is_digit c = true ->
     is_octave_mark c = false /\ Ascii.eqb c "/" = false /\ is_markup c = false
     /\ is_note_letter c = false /\ is_accidental c = false)
  /\ (is_octave_mark c = true ->
     is_digit c = false /\ Ascii.eqb c "/" = false /\ is_markup c = false)
  /\ (is_note_letter c = true ->
     is_accidental c = false /\ is_extender c = false /\ is_markup c = false)
  /\ (is_accidental c = true ->
     is_note_letter c = false /\ is_extender c = false /\ is_markup c = false)
  /\ (Ascii.eqb c "/" = true ->
     is_digit c = false /\ is_octave_mark c = false /\ is_markup c = false)
  /\ (Ascii.eqb c " " = true ->
     is_extender c = false /\ is_markup c = false /\ is_note_letter c = false
     /\ is_accidental c = false).
Proof.
  each_char c; vm_compute; repeat split; easy.
Qed.

Lemma is_extender_false c :
  is_extender c = false ->
  is_octave_mark c = false /\ is_digit c = false /\ Ascii.eqb c "/" = false.
Proof.
  unfold is_extender. intros H. apply orb_false_iff in H as [H H3].
  apply orb_false_iff in H as [H1 H2]. tauto.
Qed.

Lemma starts_with_weaken p q s :
  (forall c, p c = false -> q c = false) ->
  starts_with p s = false -> starts_with q s = false.
Proof. intros Hpq. destruct s as [|c r]; [reflexivity|]. exact (Hpq c). Qed.

Lemma token_ok_parts t :
  token_ok t = true ->
  match accidental t with Some a => is_accidental a | None => true end = true
  /\ is_note_letter (letter t) = true
  /\ string_forall is_octave_mark (octave_marks t) = true
  /\ string_forall is_digit (numerator t) = true
  /\ string_forall is_digit (denominator t) = true
  /\ has_slash t || is_empty (denominator t) = true.
Proof.
  unfold token_ok. intros H. repeat (apply andb_true_iff in H as [H ?]). tauto.
Qed.

(** The note pattern on a token followed by text that does not lengthen it. *)
Lemma match_note_letter_token acc t rest :
  token_ok t = true -> starts_with is_extender rest = false ->
  match_note_letter acc
    (String (letter t)
       ((octave_marks t +:+ numerator t +:+ slash_text t +:+ denominator t) +:+ rest))
  = Some ({| group1 := acc; group2 := String (letter t) EmptyString;
             group3 := octave_marks t; group4 := numerator t;
             group5 := slash_text t; group6 := denominator t |},
          (String.length acc + 1 + String.length (octave_marks t)
           + String.length (numerator t) + String.length (slash_text t)
           + String.length (denominator t))%nat).
Proof.
  intros Hok Hrest.
  destruct (token_ok_parts t Hok) as (_ & Hlet & Hoct & Hnum & Hden & Hslash).
  assert (Ro : starts_with is_octave_mark rest = false)
    by (apply (starts_with_weaken is_extender); [intros c Hc; apply is_extender_false in Hc; tauto | exact Hrest]).
  assert (Rd : starts_with is_digit rest = false)
    by (apply (starts_with_weaken is_extender); [intros c Hc; apply is_extender_false in Hc; tauto | exact Hrest]).
  assert (Rs : starts_with (fun c => Ascii.eqb c "/") rest = false)
    by (apply (starts_with_weaken is_extender); [intros c Hc; apply is_extender_false in Hc; tauto | exact Hrest]).
  assert (Dn : forall s, string_forall is_digit s = true -> starts_with is_octave_mark s = false).
  { intros s. apply string_forall_starts. intros c Hc.
    destruct (class_facts c) as (F & _). destruct (F Hc) as (E & _). exact E. }
  unfold match_note_letter. rewrite Hlet.
  rewrite !append_assoc.
  (* octave marks *)
  rewrite (take_while_app is_octave_mark (octave_marks t)); [|exact Hoct|].
  2:{ rewrite starts_with_app. destruct (is_empty (numerator t)); [|apply Dn; exact Hnum].
      unfold slash_text. destruct (has_slash t); [reflexivity|].
      simpl in Hslash. simpl. rewrite starts_with_app.
      destruct (is_empty (denominator t)); [exact Ro | discriminate Hslash]. }
  (* numerator *)
  rewrite (take_while_app is_digit (numerator t)); [|exact Hnum|].
  2:{ unfold slash_text. destruct (has_slash t); [reflexivity|].
      simpl in Hslash. simpl. rewrite starts_with_app.
      destruct (is_empty (denominator t)); [exact Rd | discriminate Hslash]. }
  (* slash and denominator *)
  unfold slash_text. destruct (has_slash t).
  - simpl. rewrite (take_while_app is_digit (denominator t) rest Hden Rd). reflexivity.
  - simpl in Hslash. destruct (denominator t) as [|d ds]; [|discriminate Hslash].
    simpl. destruct rest as [|c r]; [reflexivity|].
    simpl in Rs, Rd. 
    assert (E : forall (A : Type) (x : string -> A) (y : A),
              match String c r with String "/" r3 => x r3 | _ => y end = y).
    { intros A x y. clear -Rs. each_char c; try reflexivity; discriminate Rs. }
    rewrite E. cbn [take_while]. rewrite Rd. reflexivity.
Qed.
Lemma match_note_token t rest :
  token_ok t = true -> starts_with is_extender rest = false ->
  match_note (render_token t +:+ rest)
  = Some (groups_of t, String.length (render_token t)).
Proof.
  intros Hok Hrest.
  destruct (token_ok_parts t Hok) as (Hok' & Hlet & _).
  unfold render_token, groups_of, accidental_text.
  destruct (accidental t) as [a|] eqn:Ha.
  - cbn [String.append match_note]. rewrite Hok'.
    rewrite (match_note_letter_token (String a EmptyString) t rest Hok Hrest).
    do 2 f_equal. cbn [String.length]. rewrite !length_append. lia.
  - cbn [String.append match_note].
    destruct (class_facts (letter t)) as (_ & _ & F & _). destruct (F Hlet) as (-> & _).
    rewrite (match_note_letter_token EmptyString t rest Hok Hrest).
    do 2 f_equal. cbn [String.length]. rewrite !length_append. lia.
Qed.

Lemma token_head t :
  token_ok t = true ->
  exists c tail, render_token t = String c tail /\ is_extender c = false
                 /\ is_markup c = false.
Proof.
  intros Hok. destruct (token_ok_parts t Hok) as (Hacc & Hlet & _).
  unfold render_token, accidental_text.
  destruct (accidental t) as [a|].
  - eexists _, _. split; [reflexivity|].
    destruct (class_facts a) as (_ & _ & _ & F & _). destruct (F Hacc) as (_ & -> & ->). tauto.
  - eexists _, _. split; [reflexivity|].
    destruct (class_facts (letter t)) as (_ & _ & F & _). destruct (F Hlet) as (_ & -> & ->). tauto.
Qed.

Lemma layout_head items :
  layout_ok items = true -> skip_extends items = false ->
  starts_with is_extender (render items) = false.
Proof.
  destruct items as [|[t|c] rest]; cbn [layout_ok skip_extends render]; intros Hok Hs.
  - reflexivity.
  - apply andb_true_iff in Hok as [Hok _]. apply andb_true_iff in Hok as [Hok _].
    destruct (token_head t Hok) as (c & tail & -> & Hc & _). exact Hc.
  - exact Hs.
Qed.

(** The matches of the note pattern in a laid-out text are its tokens. *)
Lemma finditer_layout items :
  layout_ok items = true ->
  finditer match_note (render items) = map groups_of (tokens_of items).
Proof.
  unfold finditer. induction items as [|[t|c] rest IH]; intros Hok; [reflexivity| |].
  - cbn [layout_ok] in Hok. apply andb_true_iff in Hok as [Hok Hrest].
    apply andb_true_iff in Hok as [Ht Hext]. apply negb_true_iff in Hext.
    cbn [render tokens_of map].
    pose proof (match_note_token t (render rest) Ht (layout_head rest Hrest Hext)) as Hm.
    destruct (token_head t Ht) as (c & tail & E & _). rewrite E in *.
    cbn [String.append finditer_from]. cbn [String.append] in Hm. rewrite Hm.
    cbn [String.length Nat.pred]. rewrite finditer_from_skip, (IH Hrest). reflexivity.
  - cbn [layout_ok] in Hok. apply andb_true_iff in Hok as [Hok Hrest].
    apply andb_true_iff in Hok as [Hl Ha]. apply negb_true_iff in Hl, Ha.
    cbn [render tokens_of finditer_from]. unfold match_note, match_note_letter.
    rewrite Ha, Hl. exact (IH Hrest).
Qed.

(** The loop body computes the duration the grammar gives the token. *)
Lemma duration_token t :
  token_ok t = true -> duration (groups_of t) = spec_duration t.
Proof.
  intros Hok. destruct (token_ok_parts t Hok) as (_ & _ & _ & Hnum & Hden & Hslash).
  unfold duration, spec_duration, groups_of. cbn [group4 group5 group6].
  assert (Hn : truthy (numerator t) = true -> py_int (numerator t) = Ok (digits_value 0 (numerator t))).
  { intros Hne. apply py_int_numeral. unfold numeral. rewrite Hne, Hnum. reflexivity. }
  assert (Hd : truthy (denominator t) = true -> py_int (denominator t) = Ok (digits_value 0 (denominator t))).
  { intros Hne. apply py_int_numeral. unfold numeral. rewrite Hne, Hden. reflexivity. }
  assert (Hs : truthy (slash_text t) = has_slash t)
    by (unfold slash_text; destruct (has_slash t); reflexivity).
  rewrite Hs.
  destruct (truthy (numerator t)) eqn:En; destruct (has_slash t) eqn:Es;
    destruct (truthy (denominator t)) eqn:Ed; cbn [andb];
    rewrite ?(Hn eq_refl), ?(Hd eq_refl); reflexivity.
Qed.

Lemma sum_durations_tokens ts : forall total,
  Forall (fun t => token_ok t = true) ts ->
  sum_durations total (map groups_of ts) = spec_total total ts.
Proof.
  induction ts as [|t ts IH]; intros total H; [reflexivity|].
  inversion H as [|? ? Ht Hts]; subst. cbn [map sum_durations spec_total].
  rewrite (duration_token t Ht).
  destruct (spec_duration t) as [d|e]; [|reflexivity]. cbn [bind].
  destruct (float_add_number total d) as [x|e]; [|reflexivity]. cbn [bind].
  exact (IH x Hts).
Qed.

Lemma layout_tokens_ok items :
  layout_ok items = true -> Forall (fun t => token_ok t = true) (tokens_of items).
Proof.
  induction items as [|[t|c] rest IH]; cbn [layout_ok tokens_of]; intros Hok.
  - constructor.
  - apply andb_true_iff in Hok as [Hok Hrest]. apply andb_true_iff in Hok as [Ht _].
    constructor; [exact Ht | exact (IH Hrest)].
  - apply andb_true_iff in Hok as [_ Hrest]. exact (IH Hrest).
Qed.
Lemma is_markup_false c :
  is_markup c = false ->
  Ascii.eqb c dquote = false /\ Ascii.eqb c "|" = false
  /\ Ascii.eqb c "%" = false /\ Ascii.eqb c "[" = false.
Proof.
  unfold is_markup. intros H. repeat (apply orb_false_iff in H as [H ?]). tauto.
Qed.

Lemma token_no_markup t :
  token_ok t = true -> string_forall no_markup (render_token t) = true.
Proof.
  intros Hok. destruct (token_ok_parts t Hok) as (Hacc & Hlet & Hoct & Hnum & Hden & _).
  assert (Ho : forall s, string_forall is_octave_mark s = true -> string_forall no_markup s = true).
  { intros s. apply string_forall_impl. intros c Hc. unfold no_markup.
    destruct (class_facts c) as (_ & F & _). destruct (F Hc) as (_ & _ & ->). reflexivity. }
  assert (Hd : forall s, string_forall is_digit s = true -> string_forall no_markup s = true).
  { intros s. apply string_forall_impl. intros c Hc. unfold no_markup.
    destruct (class_facts c) as (F & _). destruct (F Hc) as (_ & _ & -> & _). reflexivity. }
  unfold render_token. rewrite string_forall_app. apply andb_true_iff. split.
  - unfold accidental_text. destruct (accidental t) as [a|]; [|reflexivity].
    cbn [string_forall]. unfold no_markup.
    destruct (class_facts a) as (_ & _ & _ & F & _). destruct (F Hacc) as (_ & _ & ->). reflexivity.
  - cbn [string_forall]. rewrite !string_forall_app, (Ho _ Hoct), (Hd _ Hnum), (Hd _ Hden).
    unfold no_markup at 1.
    destruct (class_facts (letter t)) as (_ & _ & F & _). destruct (F Hlet) as (_ & _ & ->).
    unfold slash_text. destruct (has_slash t); reflexivity.
Qed.

(** The bar-line substitution on a layout. *)
Lemma sub_bars_layout items :
  layout_ok items = true ->
  sub_from match_bars " " 0 (render items) = render (squeeze_bars false items)
  /\ sub_from match_bars " "
       (String.length (fst (take_while is_bar (render items)))) (render items)
     = render (squeeze_bars true items).
Proof.
  induction items as [|[t|c] rest IH]; intros Hok; [split; reflexivity| |].
  - cbn [layout_ok] in Hok. apply andb_true_iff in Hok as [Hok Hrest].
    apply andb_true_iff in Hok as [Ht _].
    assert (E : sub_from match_bars " " 0 (render (Tok t :: rest))
                = render (squeeze_bars false (Tok t :: rest))).
    { cbn [render squeeze_bars].
      rewrite (sub_from_copy match_bars " " no_markup).
      - rewrite (proj1 (IH Hrest)). reflexivity.
      - intros c r Hc. apply match_bars_none. unfold no_markup in Hc.
        apply negb_true_iff in Hc. apply is_markup_false in Hc. tauto.
      - exact (token_no_markup t Ht). }
    split; [exact E|].
    destruct (token_head t Ht) as (c & tail & Hc & _ & Hm).
    apply is_markup_false in Hm as (_ & Hb & _).
    cbn [render] in *. rewrite Hc in *. cbn [String.append take_while fst String.length].
    unfold is_bar at 1. rewrite Hb. cbn [fst String.length]. exact E.
  - cbn [layout_ok] in Hok. apply andb_true_iff in Hok as [_ Hrest].
    destruct (IH Hrest) as [IH0 IH1].
    cbn [render squeeze_bars take_while]. destruct (is_bar c) eqn:Hb.
    + destruct (take_while is_bar (render rest)) as [run after] eqn:Hrun.
      cbn [fst String.length] in *. split.
      * assert (Hm : match_bars (String c (render rest)) = Some (S (String.length run))).
        { unfold match_bars. cbn [take_while]. rewrite Hb, Hrun. reflexivity. }
        cbn [sub_from]. rewrite Hm. cbn [Nat.pred]. rewrite IH1. reflexivity.
      * cbn [sub_from]. exact IH1.
    + cbn [fst String.length]. assert (Hn : match_bars (String c (render rest)) = None).
      { apply match_bars_none. exact Hb. }
      split; cbn [sub_from]; rewrite Hn, IH0; reflexivity.
Qed.

Lemma squeeze_bars_tokens items : forall b,
  tokens_of (squeeze_bars b items) = tokens_of items.
Proof.
  induction items as [|[t|c] rest IH]; intros b; cbn [squeeze_bars tokens_of].
  - reflexivity.
  - rewrite IH. reflexivity.
  - destruct (is_bar c); [destruct b|]; cbn [tokens_of]; apply IH.
Qed.

Lemma squeeze_bars_head rest :
  skip_extends rest = false -> skip_extends (squeeze_bars false rest) = false.
Proof.
  destruct rest as [|[t|c] rest]; cbn [skip_extends squeeze_bars]; intros H; try reflexivity.
  destruct (is_bar c); [reflexivity | exact H].
Qed.

Lemma squeeze_bars_ok items : forall b,
  layout_ok items = true -> layout_ok (squeeze_bars b items) = true.
Proof.
  induction items as [|[t|c] rest IH]; intros b Hok; cbn [squeeze_bars]; [reflexivity| |].
  - cbn [layout_ok] in *. apply andb_true_iff in Hok as [Hok Hrest].
    apply andb_true_iff in Hok as [Ht Hext]. apply negb_true_iff in Hext.
    rewrite Ht, (squeeze_bars_head rest Hext), (IH false Hrest). reflexivity.
  - cbn [layout_ok] in Hok. apply andb_true_iff in Hok as [Hc Hrest].
    destruct (is_bar c); [destruct b|]; cbn [layout_ok];
      rewrite ?Hc, (IH _ Hrest); reflexivity.
Qed.

Lemma squeeze_bars_no_markup items : forall b,
  layout_ok items = true -> layout_plain items = true ->
  string_forall no_markup (render (squeeze_bars b items)) = true.
Proof.
  induction items as [|[t|c] rest IH]; intros b Hok Hp; cbn [squeeze_bars]; [reflexivity| |].
  - cbn [layout_ok layout_plain] in *. apply andb_true_iff in Hok as [Hok Hrest].
    apply andb_true_iff in Hok as [Ht _].
    cbn [render]. rewrite string_forall_app, (token_no_markup t Ht), (IH false Hrest Hp).
    reflexivity.
  - cbn [layout_ok layout_plain] in *. apply andb_true_iff in Hok as [_ Hrest].
    apply andb_true_iff in Hp as [Hc Hp]. destruct (is_bar c) eqn:Hb.
    + destruct b; cbn [render string_forall]; rewrite (IH true Hrest Hp); reflexivity.
    + cbn [render string_forall]. rewrite (IH false Hrest Hp), andb_true_r.
      unfold no_markup, is_markup. unfold is_bar in Hb. rewrite Hb.
      apply negb_true_iff in Hc. apply orb_false_iff in Hc as [Hc H3].
      apply orb_false_iff in Hc as [H1 H2]. rewrite H1, H2, H3. reflexivity.
Qed.

Lemma layout_no_quote items :
  layout_ok items = true -> layout_plain items = true ->
  string_forall (fun c => negb (Ascii.eqb c dquote)) (render items) = true.
Proof.
  induction items as [|[t|c] rest IH]; intros Hok Hp; [reflexivity| |].
  - cbn [layout_ok layout_plain] in *. apply andb_true_iff in Hok as [Hok Hrest].
    apply andb_true_iff in Hok as [Ht _].
    cbn [render]. rewrite string_forall_app, (IH Hrest Hp), andb_true_r.
    apply (string_forall_impl no_markup); [|exact (token_no_markup t Ht)].
    intros c Hc. unfold no_markup in Hc. apply negb_true_iff in Hc.
    apply is_markup_false in Hc as (-> & _). reflexivity.
  - cbn [layout_ok layout_plain] in *. apply andb_true_iff in Hok as [_ Hrest].
    apply andb_true_iff in Hp as [Hc Hp]. cbn [render string_forall].
    rewrite (IH Hrest Hp), andb_true_r.
    apply negb_true_iff in Hc. apply orb_false_iff in Hc as [Hc _].
    apply orb_false_iff in Hc as [-> _]. reflexivity.
Qed.

(** The four substitutions on a plain layout only squeeze the bar lines. *)
Lemma clean_abc_layout items :
  layout_ok items = true -> layout_plain items = true ->
  clean_abc (render items) = render (squeeze_bars false items).
Proof.
  intros Hok Hp. unfold clean_abc.
  rewrite (re_sub_copy match_quoted "" (fun c => negb (Ascii.eqb c dquote)));
    [| intros c r Hc; apply match_quoted_none, negb_true_iff, Hc
     | exact (layout_no_quote items Hok Hp)].
  unfold re_sub at 3. rewrite (proj1 (sub_bars_layout items Hok)).
  pose proof (squeeze_bars_no_markup items false Hok Hp) as Hm.
  rewrite (re_sub_copy match_directive "" no_markup);
    [| intros c r Hc; apply match_directive_none; unfold no_markup in Hc;
       apply negb_true_iff in Hc; apply is_markup_false in Hc; tauto
     | exact Hm].
  apply (re_sub_copy match_bracket "" no_markup); [|exact Hm].
  intros c r Hc. apply match_bracket_none. unfold no_markup in Hc.
  apply negb_true_iff in Hc. apply is_markup_false in Hc. tauto.
Qed.

Lemma count_abc_units_layout items :
  layout_ok items = true -> layout_plain items = true ->
  count_abc_units (render items) = spec_total f_zero (tokens_of items).
Proof.
  intros Hok Hp. unfold count_abc_units.
  rewrite (clean_abc_layout items Hok Hp).
  rewrite (finditer_layout _ (squeeze_bars_ok items false Hok)).
  rewrite squeeze_bars_tokens.
  apply sum_durations_tokens, layout_tokens_ok, Hok.
Qed.
(** ** Bracketed groups and the keyswitch token *)



Lemma find_close_group s rest :
  string_forall chord_char s = true ->
  find_close (s +:+ String "]" rest) = Some (S (String.length s)).
Proof.
  induction s as [|c s IH]; intros H; [reflexivity|].
  simpl in H. apply andb_true_iff in H as [Hc Hs].
  cbn [String.append find_close String.length]. rewrite (IH Hs).
  unfold chord_char in Hc. apply negb_true_iff in Hc.
  repeat (apply orb_false_iff in Hc as [Hc ?]). rewrite H, H0. reflexivity.
Qed.


(** A bracketed group is taken out whole, whatever follows. *)
Lemma clean_abc_group s rest :
  string_forall chord_char s = true ->
  clean_abc ("[" +:+ s +:+ "]" +:+ rest) = clean_abc rest.
Proof.
  intros Hs.
  assert (Hq : forall (p : ascii -> bool),
     p "["%char = true -> p "]"%char = true -> (forall c, chord_char c = true -> p c = true) ->
     string_forall p ("[" +:+ s +:+ "]") = true).
  { intros p H1 H2 Hp. cbn [String.append string_forall]. rewrite H1.
    rewrite string_forall_app, (string_forall_impl chord_char p s Hp Hs).
    cbn [string_forall]. rewrite H2. reflexivity. }
  assert (C : forall c, chord_char c = true ->
     Ascii.eqb c dquote = false /\ Ascii.eqb c "|" = false /\ Ascii.eqb c "%" = false).
  { intros c Hc. unfold chord_char in Hc. apply negb_true_iff in Hc.
    repeat (apply orb_false_iff in Hc as [Hc ?]). tauto. }
  assert (E : forall r, "[" +:+ s +:+ "]" +:+ r = ("[" +:+ s +:+ "]") +:+ r).
  { intros r. cbn [String.append]. rewrite append_assoc. reflexivity. }
  unfold clean_abc, re_sub. rewrite E.
  rewrite (sub_from_copy match_quoted "" (fun c => negb (Ascii.eqb c dquote)));
    [| intros c r Hc; apply match_quoted_none, negb_true_iff, Hc
     | apply Hq; [reflexivity | reflexivity | intros c Hc; destruct (C c Hc) as (-> & _); reflexivity]].
  rewrite (sub_from_copy match_bars " " (fun c => negb (Ascii.eqb c "|")));
    [| intros c r Hc; apply match_bars_none, negb_true_iff, Hc
     | apply Hq; [reflexivity | reflexivity | intros c Hc; destruct (C c Hc) as (_ & -> & _); reflexivity]].
  rewrite (sub_from_copy match_directive "" (fun c => negb (Ascii.eqb c "%")));
    [| intros c r Hc; apply match_directive_none, negb_true_iff, Hc
     | apply Hq; [reflexivity | reflexivity | intros c Hc; destruct (C c Hc) as (_ & _ & ->); reflexivity]].
  set (r3 := sub_from match_directive "" 0 _).
  cbn [String.append sub_from]. unfold match_bracket at 1.
  rewrite append_assoc. cbn [String.append].
  rewrite (find_close_group s r3 Hs). cbn [option_map Nat.pred String.append].
  change (String "]" r3) with ("]" +:+ r3). rewrite <- append_assoc.
  replace (S (String.length s)) with (String.length (s +:+ "]"))
    by (rewrite length_append; cbn [String.length]; lia).
  apply sub_from_skip.
Qed.

(** ** The duration parser *)

Lemma spec_duration_errors t e :
  spec_duration t = Err e -> e = ZeroDivisionError \/ e = OverflowError.
Proof.
  unfold spec_duration, int_truediv, float_div_int, float_of_int.
  destruct (truthy (numerator t)), (has_slash t), (truthy (denominator t));
    try discriminate.
  - destruct (digits_value 0 (denominator t) =? 0); [intros [= <-]; tauto|].
    destruct (is_infinite _); [intros [= <-]; tauto | discriminate].
  - destruct (is_infinite _); cbn [bind]; [intros [= <-]; tauto|].
    destruct (digits_value 0 (denominator t) =? 0); [intros [= <-]; tauto | discriminate].
Qed.

Lemma spec_duration_zero_denominator t :
  spec_duration t = Err ZeroDivisionError
  <-> has_slash t = true /\ truthy (denominator t) = true
      /\ digits_value 0 (denominator t) = 0.
Proof.
  unfold spec_duration, int_truediv, float_div_int, float_of_int.
  destruct (truthy (numerator t)), (has_slash t), (truthy (denominator t));
    try (split; [discriminate | intros (? & ? & ?); discriminate]).
  - destruct (Z.eqb_spec (digits_value 0 (denominator t)) 0) as [E|E].
    + split; [intros _; repeat split; exact E | reflexivity].
    + split; [|intros (_ & _ & ?); contradiction].
      destruct (is_infinite _); discriminate.
  - destruct (is_infinite _) eqn:Hinf; cbn [bind].
    + split; [discriminate|]. intros (_ & _ & E). rewrite E in Hinf. discriminate Hinf.
    + destruct (Z.eqb_spec (digits_value 0 (denominator t)) 0) as [E|E].
      * split; [intros _; repeat split; exact E | reflexivity].
      * split; [discriminate | intros (_ & _ & ?); contradiction].
Qed.

Lemma float_add_number_errors total d e :
  float_add_number total d = Err e -> e = OverflowError.
Proof.
  destruct d as [z|y]; cbn [float_add_number]; [|discriminate].
  unfold float_of_int. destruct (is_infinite _); cbn [bind]; [congruence | discriminate].
Qed.

Lemma spec_total_errors ts : forall total e,
  spec_total total ts = Err e -> e = ZeroDivisionError \/ e = OverflowError.
Proof.
  induction ts as [|t ts IH]; intros total e; cbn [spec_total]; [discriminate|].
  destruct (spec_duration t) as [d|e1] eqn:Hd; cbn [bind].
  - destruct (float_add_number total d) as [x|e2] eqn:Ha; cbn [bind].
    + apply IH.
    + intros [= <-]. right. exact (float_add_number_errors _ _ _ Ha).
  - intros [= <-]. exact (spec_duration_errors t e1 Hd).
Qed.

(** A token whose duration is computed and, when it is an int, converts. *)
Lemma spec_total_returns ts : forall total,
  Forall (fun t => (exists q, spec_duration t = Ok (PyFloat q))
                   \/ (exists z f, spec_duration t = Ok (PyInt z)
                                   /\ float_of_int z = Ok f)) ts ->
  exists sum, spec_total total ts = Ok sum.
Proof.
  induction ts as [|t ts IH]; intros total H; cbn [spec_total]; [eexists; reflexivity|].
  inversion H as [|? ? Ht Hts]; subst.
  destruct Ht as [(q & ->) | (z & f & -> & Hz)]; cbn [bind float_add_number].
  - apply IH. exact Hts.
  - rewrite Hz. cbn [bind]. apply IH. exact Hts.
Qed.

(** C3 fails as stated: a token with a zero denominator makes the parser
    raise instead of returning a sum. *)
Lemma count_abc_units_zero_denominator :
  count_abc_units "C2 D/0 E" = Err ZeroDivisionError.
Proof. reflexivity. Qed.

(** C3, amended.  The parser returns the sum, in scan order and starting
    from 0.0, of the durations of the matches of the note pattern in the
    cleaned text.  On a text laid out as grammatical tokens and skipped
    characters this is the sum of the token durations, first match first:
    numerator, slash and denominator give numerator / denominator; slash
    and denominator give 1 / denominator; a numerator gives itself; anything
    else gives 1; skipped characters count for nothing.  The sum is
    returned whenever every duration is computed and converts to a float;
    otherwise the first failure in scan order is raised, a
    ZeroDivisionError exactly for a zero denominator behind a slash, an
    OverflowError else.  A bracketed group contributes nothing; C gives 1, C2 gives 2,
    C/2 gives 0.5, C3/2 gives 1.5 and z4 gives 4. *)
Theorem count_abc_units_grammar :
  (forall abc,
     count_abc_units abc
     = sum_durations f_zero (finditer match_note (clean_abc abc)))
  /\ (forall items, layout_ok items = true ->
        sum_durations f_zero (finditer match_note (render items))
        = spec_total f_zero (tokens_of items))
  /\ (forall items, layout_ok items = true -> layout_plain items = true ->
        count_abc_units (render items) = spec_total f_zero (tokens_of items))
  /\ (forall total ts e, spec_total total ts = Err e ->
        e = ZeroDivisionError \/ e = OverflowError)
  /\ (forall t, spec_duration t = Err ZeroDivisionError
        <-> has_slash t = true /\ truthy (denominator t) = true
            /\ digits_value 0 (denominator t) = 0)
  /\ (forall total ts,
        Forall (fun t => (exists q, spec_duration t = Ok (PyFloat q))
                         \/ (exists z f, spec_duration t = Ok (PyInt z)
                                         /\ float_of_int z = Ok f)) ts ->
        exists sum, spec_total total ts = Ok sum)
  /\ (forall s rest, string_forall chord_char s = true ->
        count_abc_units ("[" +:+ s +:+ "]" +:+ rest) = count_abc_units rest)
  /\ count_abc_units "C" = Ok (dyadic 1 0)
  /\ count_abc_units "C2" = Ok (dyadic 2 0)
  /\ count_abc_units "C/2" = Ok (dyadic 1 (-1))
  /\ count_abc_units "C3/2" = Ok (dyadic 3 (-1))
  /\ count_abc_units "z4" = Ok (dyadic 4 0)
  /\ count_abc_units "[CEG]" = Ok f_zero.
Proof.
  split; [reflexivity|].
  split.
  { intros items Hok. rewrite (finditer_layout items Hok).
    apply sum_durations_tokens, layout_tokens_ok, Hok. }
  split; [exact count_abc_units_layout|].
  split; [intros total ts; exact (spec_total_errors ts total)|].
  split; [exact spec_duration_zero_denominator|].
  split; [intros total ts; exact (spec_total_returns ts total)|].
  split.
  { intros s rest Hs. unfold count_abc_units. rewrite (clean_abc_group s rest Hs). reflexivity. }
  repeat split; vm_compute; reflexivity.
Qed.

Lemma count_abc_units_grammar_witness :
  let items :=
    [Tok {| accidental := Some "^"%char; letter := "C"; octave_marks := ",,";
            numerator := "3"; has_slash := true; denominator := "2" |};
     Tok {| accidental := None; letter := "z"; octave_marks := "";
            numerator := ""; has_slash := true; denominator := "4" |};
     Skip " "; Skip "|"; Skip "|"; Skip "x";
     Tok {| accidental := None; letter := "g"; octave_marks := "'";
            numerator := "2"; has_slash := false; denominator := "" |};
     Skip "|"] in
  render items = "^C,,3/2z/4 ||xg'2|"%string
  /\ count_abc_units "^C,,3/2z/4 ||xg'2|" = Ok (dyadic 15 (-2)).
Proof.
  intros items. split; [reflexivity|].
  exact (proj1 (proj2 (proj2 count_abc_units_grammar)) items eq_refl eq_refl).
Defined.

(** ** The keyswitch token *)

Lemma repeat_string_marks (m : ascii) n :
  is_octave_mark m = true ->
  string_forall is_octave_mark (repeat_string (String m EmptyString) n) = true.
Proof.
  intros Hm. induction n as [|n IH]; [reflexivity|].
  cbn [repeat_string String.append string_forall]. rewrite Hm, IH. reflexivity.
Qed.






(** ** Binary64 arithmetic on integers that are floats *)

Lemma digits_bounds p :
  2 ^ (Zpos (digits2_pos p) - 1) <= Zpos p < 2 ^ Zpos (digits2_pos p).
Proof.
  induction p as [p IH|p IH|]; cbn [digits2_pos].
  - rewrite Pos2Z.inj_succ.
    replace (Z.succ (Zpos (digits2_pos p)) - 1) with (Z.succ (Zpos (digits2_pos p) - 1)) by lia.
    rewrite !Z.pow_succ_r by lia. lia.
  - rewrite Pos2Z.inj_succ.
    replace (Z.succ (Zpos (digits2_pos p)) - 1) with (Z.succ (Zpos (digits2_pos p) - 1)) by lia.
    rewrite !Z.pow_succ_r by lia. lia.
  - cbn. lia.
Qed.

Lemma digits_unique p k :
  2 ^ (k - 1) <= Zpos p < 2 ^ k -> Zpos (digits2_pos p) = k.
Proof.
  intros [Hlo Hhi]. pose proof (digits_bounds p) as [Dlo Dhi].
  set (d := Zpos (digits2_pos p)) in *.
  assert (Hd : 0 < d) by (unfold d; lia).
  assert (Hk : 0 < k).
  { destruct (Z.ltb_spec 0 k); [assumption|]. exfalso.
    assert (2 ^ k <= 1).
    { destruct (Z.eq_dec k 0) as [->|]; [cbn; lia|]. rewrite Z.pow_neg_r by lia. lia. }
    lia. }
  destruct (Z.lt_trichotomy d k) as [Hlt | [Heq | Hgt]]; [exfalso | exact Heq | exfalso].
  - assert (2 ^ d <= 2 ^ (k - 1)) by (apply Z.pow_le_mono_r; lia). lia.
  - assert (2 ^ k <= 2 ^ (d - 1)) by (apply Z.pow_le_mono_r; lia). lia.
Qed.

(** Shifting a mantissa right, bit by bit. *)
Lemma iter_pos_nat {A : Type} (f : A -> A) (n : positive) (x : A) :
  SpecFloat.iter_pos f n x = Nat.iter (Pos.to_nat n) f x.
Proof.
  revert x. induction n as [n IH|n IH|]; intros x; cbn [SpecFloat.iter_pos].
  - rewrite !IH, Pos2Nat.inj_xI. cbn [Nat.iter].
    rewrite <- Nat.iter_add. replace (Pos.to_nat n + Pos.to_nat n)%nat with (2 * Pos.to_nat n)%nat by lia.
    rewrite Nat.iter_succ_r. reflexivity.
  - rewrite !IH, Pos2Nat.inj_xO. rewrite <- Nat.iter_add.
    replace (Pos.to_nat n + Pos.to_nat n)%nat with (2 * Pos.to_nat n)%nat by lia. reflexivity.
  - reflexivity.
Qed.

Lemma shr_1_mantissa r :
  0 <= shr_m r -> shr_m (shr_1 r) = shr_m r / 2.
Proof.
  destruct r as [m b s]. cbn [shr_m shr_1]. intros Hm.
  destruct m as [|[p|p|]|p]; cbn [shr_m]; try reflexivity; try lia.
  - rewrite Pos2Z.inj_xI. apply Z.div_unique with 1; lia.
  - rewrite Pos2Z.inj_xO. apply Z.div_unique with 0; lia.
Qed.

Lemma shr_iter_mantissa n r :
  0 <= shr_m r ->
  shr_m (Nat.iter n shr_1 r) = shr_m r / 2 ^ Z.of_nat n.
Proof.
  intros Hm. induction n as [|n IH].
  - cbn. rewrite Z.div_1_r. reflexivity.
  - change (Nat.iter (S n) shr_1 r) with (shr_1 (Nat.iter n shr_1 r)).
    rewrite shr_1_mantissa.
    + rewrite IH, Nat2Z.inj_succ, Z.pow_succ_r by lia.
      rewrite Z.div_div by (try lia; apply Z.pow_pos_nonneg; lia).
      f_equal. lia.
    + rewrite IH. apply Z.div_pos; [exact Hm | apply Z.pow_pos_nonneg; lia].
Qed.

Lemma shr_1_exact m :
  shr_1 {| shr_m := 2 * m; shr_r := false; shr_s := false |}
  = {| shr_m := m; shr_r := false; shr_s := false |}.
Proof. destruct m as [|p|p]; reflexivity. Qed.

Lemma shr_iter_exact n m :
  Nat.iter n shr_1 {| shr_m := m * 2 ^ Z.of_nat n; shr_r := false; shr_s := false |}
  = {| shr_m := m; shr_r := false; shr_s := false |}.
Proof.
  revert m. induction n as [|n IH]; intros m.
  - cbn. rewrite Z.mul_1_r. reflexivity.
  - rewrite Nat.iter_succ_r. rewrite Nat2Z.inj_succ, Z.pow_succ_r by lia.
    replace (m * (2 * 2 ^ Z.of_nat n)) with (2 * (m * 2 ^ Z.of_nat n)) by ring.
    rewrite shr_1_exact. apply IH.
Qed.
Lemma fexp_normal x : -1021 <= x -> fexp prec emax x = x - 53.
Proof. intros H. unfold fexp, emin, prec, emax. lia. Qed.

Lemma shr_zero r e : shr r e 0 = (r, e).
Proof. reflexivity. Qed.

Lemma shr_exact m k e :
  shr {| shr_m := m * 2 ^ Z.of_nat k; shr_r := false; shr_s := false |} e (Z.of_nat k)
  = ({| shr_m := m; shr_r := false; shr_s := false |}, e + Z.of_nat k).
Proof.
  destruct k as [|k].
  - cbn [Z.of_nat shr]. rewrite Z.pow_0_r, Z.mul_1_r, Z.add_0_r. reflexivity.
  - unfold shr. change (Z.of_nat (S k)) with (Zpos (Pos.of_succ_nat k)).
    cbv iota. rewrite iter_pos_nat, SuccNat2Pos.id_succ.
    change (Zpos (Pos.of_succ_nat k)) with (Z.of_nat (S k)).
    rewrite shr_iter_exact. reflexivity.
Qed.

(** Rounding a mantissa that only carries zero bits below the 53 it keeps. *)
Lemma binary_round_aux_exact s (m m0 : positive) e0 k :
  Zpos m = Zpos m0 * 2 ^ Z.of_nat k ->
  canonical_mantissa prec emax m0 e0 = true ->
  binary_round_aux prec emax s (Zpos m) (e0 - Z.of_nat k) loc_Exact
  = if e0 <=? emax - prec then S754_finite s m0 e0 else S754_infinity s.
Proof.
  intros Hm Hc. unfold canonical_mantissa in Hc. apply Z.eqb_eq in Hc.
  assert (Hd : Zpos (digits2_pos m) = Zpos (digits2_pos m0) + Z.of_nat k).
  { apply digits_unique. pose proof (digits_bounds m0) as [Hlo Hhi]. rewrite Hm.
    replace (Zpos (digits2_pos m0) + Z.of_nat k - 1)
      with ((Zpos (digits2_pos m0) - 1) + Z.of_nat k) by lia.
    rewrite !Z.pow_add_r by lia.
    assert (0 < 2 ^ Z.of_nat k) by (apply Z.pow_pos_nonneg; lia). nia. }
  assert (S1 : shr_fexp prec emax (Zpos m) (e0 - Z.of_nat k) loc_Exact
               = ({| shr_m := Zpos m0; shr_r := false; shr_s := false |}, e0)).
  { unfold shr_fexp. cbn [Zdigits2 shr_record_of_loc]. rewrite Hd.
    replace (Zpos (digits2_pos m0) + Z.of_nat k + (e0 - Z.of_nat k))
      with (Zpos (digits2_pos m0) + e0) by lia.
    rewrite Hc. replace (e0 - (e0 - Z.of_nat k)) with (Z.of_nat k) by lia.
    rewrite Hm, shr_exact. f_equal. lia. }
  assert (S2 : shr_fexp prec emax (Zpos m0) e0 loc_Exact
               = ({| shr_m := Zpos m0; shr_r := false; shr_s := false |}, e0)).
  { unfold shr_fexp. cbn [Zdigits2 shr_record_of_loc]. rewrite Hc, Z.sub_diag.
    reflexivity. }
  unfold binary_round_aux. rewrite S1.
  cbn [shr_m loc_of_shr_record round_nearest_even]. rewrite S2. cbn [shr_m].
  reflexivity.
Qed.
Lemma pos_iter_xO p q : Zpos (Pos.iter xO p q) = Zpos p * 2 ^ Zpos q.
Proof.
  induction q as [|q IH] using Pos.peano_ind.
  - cbn. lia.
  - rewrite Pos.iter_succ, Pos2Z.inj_xO, IH, Pos2Z.inj_succ, Z.pow_succ_r by lia. ring.
Qed.

Lemma Zdigits2_bounds n :
  n <> 0 -> 0 < Zdigits2 n /\ 2 ^ (Zdigits2 n - 1) <= Z.abs n < 2 ^ Zdigits2 n.
Proof.
  destruct n as [|p|p]; [congruence| |]; intros _; cbn [Zdigits2 Z.abs];
    (split; [lia | apply digits_bounds]).
Qed.

(** The mantissa of an integer that is a float has exactly 53 bits. *)
Lemma mantissa_spec n :
  n <> 0 -> is_float_int n = true ->
  mantissa_of n * 2 ^ Zdigits2 n = Z.abs n * 2 ^ 53
  /\ 2 ^ 52 <= mantissa_of n < 2 ^ 53.
Proof.
  intros Hn Hf. destruct (Zdigits2_bounds n Hn) as (Hd & Hlo & Hhi).
  unfold is_float_int in Hf. apply Z.eqb_eq in Hf.
  assert (Hp : 0 < 2 ^ Zdigits2 n) by (apply Z.pow_pos_nonneg; lia).
  assert (E : mantissa_of n * 2 ^ Zdigits2 n = Z.abs n * 2 ^ 53).
  { unfold mantissa_of. rewrite Z.mul_comm. symmetry. apply Z_div_exact_full_2; [lia | exact Hf]. }
  split; [exact E|].
  replace (Zdigits2 n) with (Z.succ (Zdigits2 n - 1)) in E, Hhi, Hp by lia.
  rewrite Z.pow_succ_r in E, Hhi, Hp by lia.
  change (2 ^ 53) with (2 * 2 ^ 52) in *. nia.
Qed.

Lemma mantissa_digits (m : positive) :
  2 ^ 52 <= Zpos m < 2 ^ 53 -> Zpos (digits2_pos m) = 53.
Proof. intros H. apply digits_unique. exact H. Qed.

Lemma mantissa_canonical (m : positive) e :
  2 ^ 52 <= Zpos m < 2 ^ 53 -> -1074 <= e ->
  canonical_mantissa prec emax m e = true.
Proof.
  intros Hm He. unfold canonical_mantissa. rewrite (mantissa_digits m Hm).
  apply Z.eqb_eq. unfold fexp, emin, prec, emax. lia.
Qed.

Lemma binary_normalize_exact n :
  n <> 0 -> is_float_int n = true ->
  binary_normalize prec emax n 0 false = float_of_exact n.
Proof.
  intros Hn Hf. destruct (mantissa_spec n Hn Hf) as (E & Hm).
  destruct (Zdigits2_bounds n Hn) as (Hd & Hlo & Hhi).
  assert (Hpos : Zpos (Z.to_pos (mantissa_of n)) = mantissa_of n)
    by (apply Z2Pos.id; lia).
  assert (Hcan : canonical_mantissa prec emax (Z.to_pos (mantissa_of n)) (Zdigits2 n - 53) = true)
    by (apply mantissa_canonical; [rewrite Hpos; exact Hm | lia]).
  assert (G : forall s p, Z.abs n = Zpos p ->
    binary_round prec emax s p 0
    = if Zdigits2 n - 53 <=? 971
      then S754_finite s (Z.to_pos (mantissa_of n)) (Zdigits2 n - 53)
      else S754_infinity s).
  { intros s p Hp.
    assert (Hdp : Zpos (digits2_pos p) = Zdigits2 n)
      by (apply digits_unique; rewrite <- Hp; split; assumption).
    unfold binary_round, shl_align. rewrite Z.add_0_r, Hdp, fexp_normal by lia.
    rewrite Z.sub_0_r. destruct (Zdigits2 n - 53) as [|q|q] eqn:Eq.
    - (* exactly 53 bits *)
      assert (Zpos p = Zpos (Z.to_pos (mantissa_of n)) * 2 ^ Z.of_nat 0).
      { rewrite Hpos. cbn [Z.of_nat]. rewrite Z.pow_0_r, Z.mul_1_r.
        replace (Zdigits2 n) with 53 in E by lia. rewrite Hp in E. lia. }
      exact (binary_round_aux_exact s p _ 0 0%nat H Hcan).
    - (* more than 53 bits: the low ones are zero *)
      assert (H : Zpos p = Zpos (Z.to_pos (mantissa_of n)) * 2 ^ Z.of_nat (Pos.to_nat q)).
      { rewrite Hpos, positive_nat_Z.
        replace (Zdigits2 n) with (Zpos q + 53) in E by lia.
        rewrite Z.pow_add_r in E by lia. rewrite Hp in E.
        assert (0 < 2 ^ 53) by (apply Z.pow_pos_nonneg; lia). nia. }
      pose proof (binary_round_aux_exact s p _ (Zpos q) (Pos.to_nat q) H Hcan) as R.
      rewrite positive_nat_Z, Z.sub_diag in R. exact R.
    - (* fewer than 53 bits: the mantissa is shifted left *)
      assert (H : Zpos (Pos.iter xO p q) = Zpos (Z.to_pos (mantissa_of n)) * 2 ^ Z.of_nat 0).
      { rewrite Hpos, pos_iter_xO. cbn [Z.of_nat]. rewrite Z.pow_0_r, Z.mul_1_r.
        assert (Hq : 53 = Zdigits2 n + Zpos q) by lia.
        rewrite Hq, Z.pow_add_r in E by lia. rewrite Hp in E.
        assert (0 < 2 ^ Zdigits2 n) by (apply Z.pow_pos_nonneg; lia). nia. }
      pose proof (binary_round_aux_exact s _ _ (Zneg q) 0%nat H Hcan) as R.
      cbn [Z.of_nat] in R. rewrite Z.sub_0_r in R. exact R. }
  unfold float_of_exact.
  destruct n as [|p|p]; [congruence| |]; cbn [binary_normalize Z.ltb Z.compare];
    apply G; reflexivity.
Qed.
Lemma digits_below n x : n <> 0 -> Z.abs n < 2 ^ x -> Zdigits2 n <= x.
Proof.
  intros Hn Hx. destruct (Zdigits2_bounds n Hn) as (Hd & Hlo & _).
  destruct (Z.le_gt_cases (Zdigits2 n) x) as [H|H]; [exact H | exfalso].
  assert (2 ^ x <= 2 ^ (Zdigits2 n - 1)) by (apply Z.pow_le_mono_r; lia). lia.
Qed.

Lemma digits_monotone a b :
  a <> 0 -> b <> 0 -> Z.abs a <= Z.abs b -> Zdigits2 a <= Zdigits2 b.
Proof.
  intros Ha Hb Hab. apply digits_below; [exact Ha|].
  destruct (Zdigits2_bounds b Hb) as (_ & _ & Hhi). lia.
Qed.

Lemma digits_product a b :
  a <> 0 -> b <> 0 -> Zdigits2 (a * b) <= Zdigits2 a + Zdigits2 b.
Proof.
  intros Ha Hb. destruct (Zdigits2_bounds a Ha) as (Hda & _ & Hahi).
  destruct (Zdigits2_bounds b Hb) as (Hdb & _ & Hbhi).
  apply digits_below; [nia|]. rewrite Z.abs_mul, Z.pow_add_r by lia. nia.
Qed.

Lemma div_eucl_exact a b : 0 < b -> Z.div_eucl (a * b) b = (a, 0).
Proof.
  intros Hb. pose proof (Z.div_mul a b ltac:(lia)) as Hq.
  pose proof (Z.mod_mul a b ltac:(lia)) as Hr.
  unfold Z.div, Z.modulo in Hq, Hr.
  destruct (Z.div_eucl (a * b) b) as [q r]. cbn in Hq, Hr. congruence.
Qed.

Lemma new_location_zero m : new_location m 0 = loc_Exact.
Proof. unfold new_location. destruct (Z.even m); reflexivity. Qed.

Lemma float_of_exact_finite n :
  Zdigits2 n <= 1024 ->
  float_of_exact n
  = S754_finite (n <? 0) (Z.to_pos (mantissa_of n)) (Zdigits2 n - 53).
Proof.
  intros H. unfold float_of_exact.
  destruct (Z.leb_spec (Zdigits2 n - 53) 971); [reflexivity | lia].
Qed.

(** Dividing two integers that are floats, the quotient being one too. *)
Lemma fdiv_exact E U :
  E <> 0 -> U <> 0 ->
  is_float_int E = true -> is_float_int U = true -> is_float_int (E * U) = true ->
  Zdigits2 (E * U) <= 1024 ->
  fdiv (float_of_exact (E * U)) (float_of_exact U) = float_of_exact E.
Proof.
  intros HE HU FE FU FP HP.
  assert (HPn : E * U <> 0) by nia.
  destruct (mantissa_spec E HE FE) as (ME & BE).
  destruct (mantissa_spec U HU FU) as (MU & BU).
  destruct (mantissa_spec (E * U) HPn FP) as (MP & BP).
  destruct (Zdigits2_bounds E HE) as (DE & _).
  destruct (Zdigits2_bounds U HU) as (DU & _).
  destruct (Zdigits2_bounds (E * U) HPn) as (DP & _).
  assert (LU : Zdigits2 U <= Zdigits2 (E * U))
    by (apply digits_monotone; [exact HU | exact HPn | rewrite Z.abs_mul; nia]).
  assert (LE : Zdigits2 E <= Zdigits2 (E * U))
    by (apply digits_monotone; [exact HE | exact HPn | rewrite Z.abs_mul; nia]).
  pose proof (digits_product E U HE HU) as LP.
  set (dE := Zdigits2 E) in *. set (dU := Zdigits2 U) in *.
  set (dP := Zdigits2 (E * U)) in *.
  set (mE := mantissa_of E) in *. set (mU := mantissa_of U) in *.
  set (mP := mantissa_of (E * U)) in *.
  rewrite !float_of_exact_finite by (fold dE dU dP; lia).
  fold dE dU dP mE mU mP.
  assert (PE : Zpos (Z.to_pos mE) = mE) by (apply Z2Pos.id; lia).
  assert (PU : Zpos (Z.to_pos mU) = mU) by (apply Z2Pos.id; lia).
  assert (PP : Zpos (Z.to_pos mP) = mP) by (apply Z2Pos.id; lia).
  set (k := dE + dU - dP).
  (* the mantissa of the quotient, up to k zero bits *)
  assert (Hq : mP * 2 ^ 53 = (mE * 2 ^ k) * mU).
  { assert (HA : 2 ^ dP * 2 ^ k = 2 ^ dE * 2 ^ dU).
    { rewrite <- !Z.pow_add_r by (unfold k; lia). f_equal. unfold k. lia. }
    assert (HB : 0 < 2 ^ dE * 2 ^ dU)
      by (apply Z.mul_pos_pos; apply Z.pow_pos_nonneg; lia).
    apply (Z.mul_reg_r _ _ (2 ^ dE * 2 ^ dU)); [lia|].
    transitivity (Z.abs (E * U) * 2 ^ 53 * 2 ^ 53 * 2 ^ k).
    - rewrite <- HA, <- MP. ring.
    - rewrite Z.abs_mul.
      replace (mE * 2 ^ k * mU * (2 ^ dE * 2 ^ dU))
        with ((mE * 2 ^ dE) * (mU * 2 ^ dU) * 2 ^ k) by ring.
      rewrite ME, MU. ring. }
  assert (Hcore : SFdiv_core_binary prec emax (Zpos (Z.to_pos mP)) (dP - 53)
                    (Zpos (Z.to_pos mU)) (dU - 53)
                  = (mE * 2 ^ k, dE - 53 - k, loc_Exact)).
  { unfold SFdiv_core_binary. cbn [Zdigits2].
    rewrite (mantissa_digits (Z.to_pos mP)), (mantissa_digits (Z.to_pos mU))
      by (rewrite ?PP, ?PU; assumption).
    replace (53 + (dP - 53) - (53 + (dU - 53))) with (dP - dU) by lia.
    rewrite fexp_normal by lia.
    replace (dP - 53 - (dU - 53)) with (dP - dU) by lia.
    rewrite Z.min_l by lia.
    replace (dP - dU - (dP - dU - 53)) with 53 by lia.
    cbv iota. rewrite Z.shiftl_mul_pow2 by lia. rewrite PP, PU, Hq.
    rewrite div_eucl_exact by lia. rewrite new_location_zero.
    f_equal. f_equal. unfold k. lia. }
  unfold fdiv, SFdiv. rewrite Hcore.
  assert (Hk : 0 <= k) by (unfold k; lia).
  assert (Hm : Zpos (Z.to_pos (mE * 2 ^ k)) = Zpos (Z.to_pos mE) * 2 ^ Z.of_nat (Z.to_nat k)).
  { rewrite Z2Nat.id, PE by exact Hk. apply Z2Pos.id.
    apply Z.mul_pos_pos; [lia | apply Z.pow_pos_nonneg; lia]. }
  assert (Hc : canonical_mantissa prec emax (Z.to_pos mE) (dE - 53) = true)
    by (apply mantissa_canonical; [rewrite PE; exact BE | lia]).
  pose proof (binary_round_aux_exact (xorb (E * U <? 0) (U <? 0)) _ _ _ _ Hm Hc) as R.
  rewrite Z2Nat.id in R by exact Hk.
  rewrite Z2Pos.id in R
    by (apply Z.mul_pos_pos; [lia | apply Z.pow_pos_nonneg; lia]).
  rewrite R.
  destruct (Z.leb_spec (dE - 53) (emax - prec)) as [_|Hbad];
    [| unfold emax, prec in Hbad; lia].
  f_equal.
  destruct (Z.ltb_spec (E * U) 0), (Z.ltb_spec U 0), (Z.ltb_spec E 0);
    try reflexivity; nia.
Qed.
(** Factors of an integer that is a float are floats. *)

Lemma odd_decomposition (p : positive) :
  exists a v, Zpos p = a * 2 ^ v /\ 0 <= v /\ 0 < a /\ Z.odd a = true.
Proof.
  induction p as [p _|p IH|].
  - exists (Zpos p~1), 0. repeat split; try lia. 
  - destruct IH as (a & v & E & Hv & Ha & Ho).
    exists a, (v + 1). rewrite Z.pow_add_r by lia. repeat split; try lia. exact Ho.
  - exists 1, 0. repeat split; lia.
Qed.

Lemma pow2_divides_odd a x y c :
  Z.odd a = true -> 0 <= x -> 0 <= y -> a * 2 ^ x = c * 2 ^ y -> y <= x.
Proof.
  intros Ho Hx Hy E. destruct (Z.le_gt_cases y x) as [H|H]; [exact H | exfalso].
  replace y with ((y - x - 1) + 1 + x) in E by lia.
  rewrite !Z.pow_add_r in E by lia.
  assert (Hp : 0 < 2 ^ x) by (apply Z.pow_pos_nonneg; lia).
  assert (Ea : a = 2 * (c * 2 ^ (y - x - 1))) by nia.
  rewrite Ea, Z.odd_mul in Ho. discriminate Ho.
Qed.

Lemma is_float_int_spec n a v :
  n <> 0 -> Z.abs n = a * 2 ^ v -> 0 <= v -> Z.odd a = true ->
  (is_float_int n = true <-> Zdigits2 n <= v + 53).
Proof.
  intros Hn E Hv Ho. destruct (Zdigits2_bounds n Hn) as (Hd & _).
  unfold is_float_int. rewrite Z.eqb_eq, E. split.
  - intros Hm. apply Z_div_exact_full_2 in Hm; [|apply Z.pow_nonzero; lia].
    apply (pow2_divides_odd a (v + 53) (Zdigits2 n)
             ((a * 2 ^ v * 2 ^ 53) / 2 ^ Zdigits2 n) Ho); try lia.
    rewrite Z.pow_add_r by lia. rewrite Z.mul_assoc. rewrite Hm at 1. ring.
  - intros Hle.
    replace (a * 2 ^ v * 2 ^ 53) with (a * 2 ^ (v + 53 - Zdigits2 n) * 2 ^ Zdigits2 n).
    + apply Z.mod_mul. apply Z.pow_nonzero; lia.
    + rewrite <- !Z.mul_assoc, <- !Z.pow_add_r by lia. do 2 f_equal. lia.
Qed.

Lemma is_float_int_factor E U :
  E <> 0 -> U <> 0 -> is_float_int (E * U) = true -> is_float_int U = true.
Proof.
  intros HE HU FP.
  assert (HP : E * U <> 0) by nia.
  assert (Da : forall n, n <> 0 ->
    exists a v, Z.abs n = a * 2 ^ v /\ 0 <= v /\ 0 < a /\ Z.odd a = true).
  { intros n Hn. destruct n as [|p|p]; [congruence| |]; apply odd_decomposition. }
  destruct (Da E HE) as (b & w & EE & Hw & Hb & Hob).
  destruct (Da U HU) as (a & v & EU & Hv & Ha & Hoa).
  assert (EP : Z.abs (E * U) = (b * a) * 2 ^ (w + v)).
  { rewrite Z.abs_mul, EE, EU, Z.pow_add_r by lia. ring. }
  assert (Hop : Z.odd (b * a) = true) by (rewrite Z.odd_mul, Hob, Hoa; reflexivity).
  apply (is_float_int_spec (E * U) (b * a) (w + v) HP EP) in FP; [|lia | exact Hop].
  apply (is_float_int_spec U a v HU EU Hv Hoa).
  destruct (Zdigits2_bounds E HE) as (DE & ElO & Ehi).
  destruct (Zdigits2_bounds U HU) as (DU & Ulo & Uhi).
  destruct (Zdigits2_bounds (E * U) HP) as (DP & Plo & Phi).
  (* the product has at least dE + dU - 1 bits, and E more than w *)
  assert (Hw' : w < Zdigits2 E).
  { destruct (Z.lt_ge_cases w (Zdigits2 E)) as [H|H]; [exact H | exfalso].
    assert (2 ^ Zdigits2 E <= 2 ^ w) by (apply Z.pow_le_mono_r; lia). nia. }
  assert (Hprod : Zdigits2 E + Zdigits2 U - 2 < Zdigits2 (E * U)).
  { destruct (Z.lt_ge_cases (Zdigits2 E + Zdigits2 U - 2) (Zdigits2 (E * U))) as [H|H];
      [exact H | exfalso].
    assert (2 ^ Zdigits2 (E * U) <= 2 ^ (Zdigits2 E + Zdigits2 U - 2))
      by (apply Z.pow_le_mono_r; lia).
    replace (Zdigits2 E + Zdigits2 U - 2)
      with ((Zdigits2 E - 1) + (Zdigits2 U - 1)) in H0 by lia.
    rewrite Z.pow_add_r in H0 by lia. rewrite Z.abs_mul in Phi.
    assert (0 < 2 ^ (Zdigits2 E - 1)) by (apply Z.pow_pos_nonneg; lia).
    assert (0 < 2 ^ (Zdigits2 U - 1)) by (apply Z.pow_pos_nonneg; lia).
    nia. }
  lia.
Qed.
(** A non-zero integer never converts to zero. *)

Lemma shr_mantissa r e n :
  0 <= shr_m r -> 0 <= n -> shr_m (fst (shr r e n)) = shr_m r / 2 ^ n.
Proof.
  intros Hm Hn. destruct n as [|q|q]; [| |lia].
  - cbn [shr fst]. rewrite Z.pow_0_r, Z.div_1_r. reflexivity.
  - cbn [shr fst]. rewrite iter_pos_nat, shr_iter_mantissa, positive_nat_Z by exact Hm.
    reflexivity.
Qed.

Lemma shr_record_mantissa m l : shr_m (shr_record_of_loc m l) = m.
Proof. destruct l as [|[]]; reflexivity. Qed.

Lemma round_nearest_even_bounds m l :
  m <= round_nearest_even m l <= m + 1.
Proof.
  unfold round_nearest_even. destruct l as [|[]]; try lia. destruct (Z.even m); lia.
Qed.

Lemma binary_round_aux_nonzero s (m : positive) e l :
  2 ^ 52 <= Zpos m < 2 ^ 53 -> -1021 <= e ->
  exists m' e', binary_round_aux prec emax s (Zpos m) e l = S754_finite s m' e'
                \/ binary_round_aux prec emax s (Zpos m) e l = S754_infinity s.
Proof.
  intros Hm He. unfold binary_round_aux.
  assert (S1 : shr_fexp prec emax (Zpos m) e l = (shr_record_of_loc (Zpos m) l, e)).
  { unfold shr_fexp. cbn [Zdigits2]. rewrite (mantissa_digits m Hm), fexp_normal by lia.
    replace (53 + e - 53 - e) with 0 by lia. reflexivity. }
  rewrite S1, shr_record_mantissa.
  pose proof (round_nearest_even_bounds (Zpos m)
                (loc_of_shr_record (shr_record_of_loc (Zpos m) l))) as Hr.
  set (m1 := round_nearest_even (Zpos m) _) in *. clearbody m1.
  destruct (shr_fexp prec emax m1 e loc_Exact) as [r2 e2] eqn:S2.
  assert (H2 : 0 < shr_m r2).
  { unfold shr_fexp in S2. cbn [shr_record_of_loc] in S2.
    assert (Hd : Zdigits2 m1 = 53 \/ Zdigits2 m1 = 54).
    { destruct m1 as [|p1|p1]; try lia. cbn [Zdigits2].
      destruct (Z.eq_dec (Zpos p1) (2 ^ 53)) as [E|NE].
      - right. apply digits_unique. rewrite E. cbn. lia.
      - left. apply digits_unique. lia. }
    pose proof (f_equal (fun x => shr_m (fst x)) S2) as Hs. cbn [fst] in Hs.
    destruct Hd as [Hd|Hd]; rewrite Hd, fexp_normal in Hs by lia.
    - replace (53 + e - 53 - e) with 0 in Hs by lia. cbn [shr fst shr_m] in Hs. lia.
    - replace (54 + e - 53 - e) with 1 in Hs by lia.
      rewrite shr_mantissa in Hs by (cbn [shr_m]; lia). cbn [shr_m] in Hs.
      assert (Hm1 : m1 = 2 ^ 53).
      { destruct m1 as [|p1|p1]; try lia. cbn [Zdigits2] in Hd.
        pose proof (digits_bounds p1) as [Hlo _]. rewrite Hd in Hlo.
        change (2 ^ (54 - 1)) with (2 ^ 53) in Hlo. lia. }
      rewrite Hm1 in Hs. change (2 ^ 53 / 2 ^ 1) with (2 ^ 52) in Hs.
      rewrite <- Hs. reflexivity. }
  destruct (shr_m r2) as [|p2|p2]; try lia.
  destruct (e2 <=? emax - prec);
    [eexists _, _; left; reflexivity | exists 1%positive, 0; right; reflexivity].
Qed.

Lemma float_of_int_nonzero z f :
  z <> 0 -> float_of_int z = Ok f -> exists s m e, f = S754_finite s m e.
Proof.
  intros Hz. unfold float_of_int.
  assert (G : forall s p, exists m' e',
     binary_round prec emax s p 0 = S754_finite s m' e'
     \/ binary_round prec emax s p 0 = S754_infinity s).
  { intros s p. unfold binary_round, shl_align. rewrite Z.add_0_r, Z.sub_0_r.
    pose proof (digits_bounds p) as [Hlo Hhi].
    set (d := Zpos (digits2_pos p)) in *. assert (Hd : 0 < d) by (unfold d; lia).
    rewrite fexp_normal by lia.
    destruct (d - 53) as [|q|q] eqn:Eq.
    - apply binary_round_aux_nonzero; [|lia].
      replace d with 53 in * by lia. exact (conj Hlo Hhi).
    - (* more than 53 bits: the first shift leaves 53 of them *)
      unfold binary_round_aux.
      assert (S1 : exists r1, shr_fexp prec emax (Zpos p) 0 loc_Exact = (r1, Zpos q)
                              /\ 2 ^ 52 <= shr_m r1 < 2 ^ 53).
      { unfold shr_fexp. cbn [Zdigits2 shr_record_of_loc]. fold d.
        rewrite Z.add_0_r, Z.sub_0_r, fexp_normal, Eq by lia.
        eexists. split; [reflexivity|]. cbn [shr_m].
        rewrite iter_pos_nat, shr_iter_mantissa, positive_nat_Z by (cbn; lia).
        cbn [shr_m]. replace d with (Zpos q + 53) in * by lia.
        replace (Zpos q + 53 - 1) with (Zpos q + 52) in Hlo by lia.
        rewrite Z.pow_add_r in Hlo, Hhi by lia.
        assert (0 < 2 ^ Zpos q) by (apply Z.pow_pos_nonneg; lia). split.
        - apply Z.div_le_lower_bound; lia.
        - apply Z.div_lt_upper_bound; lia. }
      destruct S1 as (r1 & -> & Hr1).
      destruct (shr_m r1) as [|m1|m1] eqn:Em; try lia.
      pose proof (binary_round_aux_nonzero s m1 (Zpos q) (loc_of_shr_record r1) Hr1
                    ltac:(lia)) as R.
      unfold binary_round_aux in R.
      assert (S1' : shr_fexp prec emax (Zpos m1) (Zpos q) (loc_of_shr_record r1)
                    = (shr_record_of_loc (Zpos m1) (loc_of_shr_record r1), Zpos q)).
      { unfold shr_fexp. cbn [Zdigits2]. rewrite (mantissa_digits m1 Hr1), fexp_normal by lia.
        replace (53 + Zpos q - 53 - Zpos q) with 0 by lia. reflexivity. }
      rewrite S1' in R. rewrite shr_record_mantissa in R.
      assert (L : loc_of_shr_record (shr_record_of_loc (Zpos m1) (loc_of_shr_record r1))
                  = loc_of_shr_record r1).
      { destruct r1 as [x [] []]; reflexivity. }
      rewrite L in R. exact R.
    - apply binary_round_aux_nonzero; [|lia].
      rewrite pos_iter_xO. replace 53 with (d + Zpos q) by lia.
      replace (52) with ((d - 1) + Zpos q) by lia.
      rewrite !Z.pow_add_r by lia.
      assert (0 < 2 ^ Zpos q) by (apply Z.pow_pos_nonneg; lia). nia. }
  destruct z as [|p|p]; [congruence| |]; cbn [binary_normalize];
    destruct (G false p) as (m1 & e1 & [R1|R1]);
    destruct (G true p) as (m2 & e2 & [R2|R2]);
    rewrite ?R1, ?R2; cbn [is_infinite]; intros [= <-] || discriminate;
    eexists _, _, _; reflexivity.
Qed.

(** ** Bar validation *)

Lemma fsub_self f :
  (exists s m e, f = S754_finite s m e) -> fsub f f = S754_zero false.
Proof.
  intros (s & m & e & ->). unfold fsub, SFsub. rewrite Z.sub_diag. reflexivity.
Qed.

Lemma float_of_int_exact n f :
  n <> 0 -> is_float_int n = true -> float_of_int n = Ok f ->
  f = float_of_exact n /\ Zdigits2 n <= 1024.
Proof.
  intros Hn Hf. unfold float_of_int. rewrite (binary_normalize_exact n Hn Hf).
  unfold float_of_exact. destruct (Z.leb_spec (Zdigits2 n - 53) 971) as [H|H].
  - cbn [is_infinite]. intros [= <-]. split; [reflexivity | lia].
  - cbn [is_infinite]. discriminate.
Qed.

Example literal_checks :
  f_literal 1 100 = f_tolerance
  /\ f_literal 99 10000 = S754_finite false 5706961447803893 (-59)
  /\ f_literal 11 1000 = S754_finite false 6341068275337658 (-59)
  /\ fltb (fabs (f_literal 99 10000)) f_tolerance = true
  /\ fltb (fabs (f_literal 11 1000)) f_tolerance = false.
Proof. vm_compute. repeat split. Qed.

Lemma boundary_holds_from_spec n : forall e x,
  boundary_holds_from e n = true -> e <= x < e + Z.of_nat n ->
  boundary_holds x = true.
Proof.
  induction n as [|n IH]; intros e x H Hx; [lia|].
  cbn [boundary_holds_from] in H. apply andb_true_iff in H as [H1 H2].
  destruct (Z.eq_dec x e) as [->|Hne]; [exact H1|].
  apply (IH (e + 1)); [exact H2 | lia].
Qed.

(** Up to a thousand bars, adding 0.0099 to the expected bar count stays
    within the tolerance and adding 0.011 leaves it. *)
Lemma boundary_sums e fe :
  0 <= e <= 1000 -> float_of_int e = Ok fe ->
  fltb (fabs (fsub (fadd fe (f_literal 99 10000)) fe)) f_tolerance = true
  /\ fltb (fabs (fsub (fadd fe (f_literal 11 1000)) fe)) f_tolerance = false.
Proof.
  intros He Hfe.
  assert (H : boundary_holds e = true).
  { apply (boundary_holds_from_spec 1001 0); [vm_compute; reflexivity | lia]. }
  unfold boundary_holds in H. rewrite Hfe in H.
  apply andb_true_iff in H as [H1 H2]. apply negb_true_iff in H2.
  split; assumption.
Qed.

(** C1 fails as stated: with 0 units per bar the empty text sums to
    exactly 0 * 0 units, yet the call raises instead of validating. *)
Lemma validate_bars_zero_units_per_bar :
  units_per_bar "1/8" "1/4" = Ok 0
  /\ count_abc_units "" = float_of_int (0 * 0)
  /\ validate_bars (fun _ => EmptyString) "" 0 "1/8" "1/4" = Err ZeroDivisionError.
Proof. repeat split. Qed.

Section Validation.

Variable float_repr : float -> string.

(** C1, amended.  Whenever [units_per_bar] returns a count other than 0,
    the parser returns a total and both integers convert to floats,
    [validate_bars] returns, and it succeeds exactly when the binary64 value
    of abs(actual_bars - expected_bars) is below 0.01, where actual_bars is
    the total divided by the units per bar.  A text whose total is exactly
    expected_bars * units_per_bar validates as true; a difference that comes
    out as 0.0099 validates, one that comes out as 0.011 does not, and so
    do the bar counts computed as expected_bars + 0.0099 and expected_bars +
    0.011 for up to a thousand expected bars; the failure message gives the expected bars and units, the actual bar count
    with two decimals and the actual units. *)
Theorem validate_bars_tolerance
    abc expected_bars meter unit_length upb actual_units fu fe :
  units_per_bar meter unit_length = Ok upb -> upb <> 0 ->
  count_abc_units abc = Ok actual_units ->
  float_of_int upb = Ok fu -> float_of_int expected_bars = Ok fe ->
  let actual_bars := fdiv actual_units fu in
  let difference := fsub actual_bars fe in
  validate_bars float_repr abc expected_bars meter unit_length
  = Ok (if fltb (fabs difference) f_tolerance then (true, EmptyString)
        else (false,
              "Expected " +:+ py_str expected_bars +:+ " bars ("
              +:+ py_str (expected_bars * upb) +:+ " units), got "
              +:+ format_2f actual_bars +:+ " bars ("
              +:+ float_repr actual_units +:+ " units)"))
  /\ (validate_bars float_repr abc expected_bars meter unit_length
      = Ok (true, EmptyString)
      <-> fltb (fabs difference) f_tolerance = true)
  /\ (is_float_int (expected_bars * upb) = true ->
      float_of_int (expected_bars * upb) = Ok actual_units ->
      validate_bars float_repr abc expected_bars meter unit_length
      = Ok (true, EmptyString))
  /\ (difference = f_literal 99 10000 ->
      validate_bars float_repr abc expected_bars meter unit_length
      = Ok (true, EmptyString))
  /\ (difference = f_literal 11 1000 ->
      exists message,
        validate_bars float_repr abc expected_bars meter unit_length
        = Ok (false, message))
  /\ (0 <= expected_bars <= 1000 ->
      actual_bars = fadd fe (f_literal 99 10000) ->
      validate_bars float_repr abc expected_bars meter unit_length
      = Ok (true, EmptyString))
  /\ (0 <= expected_bars <= 1000 ->
      actual_bars = fadd fe (f_literal 11 1000) ->
      exists message,
        validate_bars float_repr abc expected_bars meter unit_length
        = Ok (false, message)).
Proof.
  intros Hupb Hnz Hcount Hfu Hfe actual_bars difference.
  assert (Main : validate_bars float_repr abc expected_bars meter unit_length
    = Ok (if fltb (fabs difference) f_tolerance then (true, EmptyString)
          else (false,
                "Expected " +:+ py_str expected_bars +:+ " bars ("
                +:+ py_str (expected_bars * upb) +:+ " units), got "
                +:+ format_2f actual_bars +:+ " bars ("
                +:+ float_repr actual_units +:+ " units)"))).
  { unfold validate_bars, float_div_int, float_sub_int.
    rewrite Hupb, Hcount. cbn [bind]. rewrite Hfu. cbn [bind].
    destruct (Z.eqb_spec upb 0) as [E|_]; [contradiction|]. cbn [bind].
    rewrite Hfe. cbn [bind]. fold actual_bars difference.
    destruct (fltb (fabs difference) f_tolerance); reflexivity. }
  split; [exact Main|]. split; [|split; [|split; [|split; [|split]]]].
  - rewrite Main. destruct (fltb (fabs difference) f_tolerance);
      split; intros H; try reflexivity; discriminate H.
  - intros Hexact Hsum. rewrite Main.
    assert (Hclose : fltb (fabs difference) f_tolerance = true); [|rewrite Hclose; reflexivity].
    unfold difference, actual_bars.
    destruct (Z.eq_dec expected_bars 0) as [E0|E0].
    + (* no bars expected, no units counted *)
      subst expected_bars. cbn in Hsum, Hfe.
      injection Hsum as <-. injection Hfe as <-.
      destruct (float_of_int_nonzero upb fu Hnz Hfu) as (s & m & e & ->).
      destruct s; reflexivity.
    + (* the quotient is the expected bar count, exactly *)
      assert (HP : expected_bars * upb <> 0) by nia.
      pose proof (is_float_int_factor expected_bars upb E0 Hnz Hexact) as FU.
      assert (FE : is_float_int expected_bars = true).
      { apply (is_float_int_factor upb expected_bars Hnz E0).
        rewrite Z.mul_comm. exact Hexact. }
      destruct (float_of_int_exact _ _ HP Hexact Hsum) as (-> & HdP).
      destruct (float_of_int_exact _ _ Hnz FU Hfu) as (-> & _).
      destruct (float_of_int_exact _ _ E0 FE Hfe) as (-> & HdE).
      rewrite (fdiv_exact expected_bars upb E0 Hnz FE FU Hexact HdP).
      rewrite fsub_self; [reflexivity|].
      rewrite (float_of_exact_finite _ HdE). eexists _, _, _. reflexivity.
  - intros Hd. rewrite Main, Hd. reflexivity.
  - intros Hd. rewrite Main, Hd. eexists. reflexivity.
  - intros Hr Ha. rewrite Main. unfold difference. rewrite Ha.
    rewrite (proj1 (boundary_sums _ _ Hr Hfe)). reflexivity.
  - intros Hr Ha. rewrite Main. unfold difference. rewrite Ha.
    rewrite (proj2 (boundary_sums _ _ Hr Hfe)). eexists. reflexivity.
Qed.

End Validation.

Lemma validate_bars_tolerance_witness :
  let r := fun _ : float => "0.011"%string in
  validate_bars r "C2 _D2 | [CEG]z4 |" 1 "4/4" "1/8" = Ok (true, EmptyString)
  /\ validate_bars r "C99/10000" 0 "1/8" "1/8" = Ok (true, EmptyString)
  /\ validate_bars r "C11/1000" 0 "1/8" "1/8"
     = Ok (false, "Expected 0 bars (0 units), got 0.01 bars (0.011 units)"%string).
Proof.
  intros r. split; [|split].
  - apply (proj1 (proj2 (proj2 (validate_bars_tolerance r "C2 _D2 | [CEG]z4 |" 1 "4/4" "1/8"
             8 (dyadic 8 0) (dyadic 8 0) (dyadic 1 0)
             eq_refl ltac:(discriminate) eq_refl eq_refl eq_refl)))); reflexivity.
  - apply (proj1 (proj2 (proj2 (proj2 (validate_bars_tolerance r "C99/10000" 0 "1/8" "1/8"
             1 (f_literal 99 10000) (dyadic 1 0) (dyadic 0 0)
             eq_refl ltac:(discriminate) eq_refl eq_refl eq_refl))))); reflexivity.
  - exact (proj1 (validate_bars_tolerance r "C11/1000" 0 "1/8" "1/8"
             1 (f_literal 11 1000) (dyadic 1 0) (dyadic 0 0)
             eq_refl ltac:(discriminate) eq_refl eq_refl eq_refl)).
Defined.

(** ** Rounding in the bar arithmetic *)

Lemma digits_value_nonneg s : forall acc,
  string_forall is_digit s = true -> 0 <= acc -> 0 <= digits_value acc s.
Proof.
  induction s as [|c r IH]; intros acc Hs Hacc; cbn [digits_value]; [exact Hacc|].
  cbn [string_forall] in Hs. apply andb_true_iff in Hs as [Hc Hr].
  apply IH; [exact Hr|]. unfold is_digit in Hc. unfold digit_value. lia.
Qed.

(** X1. Units per bar of a meter N/D and a unit length 1/U: a zero D raises
    ZeroDivisionError; otherwise the result is the quotient N * U / D
    rounded down, it is exact only when D divides N * U, and it is 0 exactly
    when N * U < D. *)
Theorem units_per_bar_rounds_down (ns ds us rest : string) :
  numeral ns = true -> numeral ds = true -> numeral us = true ->
  starts_with is_digit rest = false ->
  let N := digits_value 0 ns in
  let D := digits_value 0 ds in
  let U := digits_value 0 us in
  let upb := units_per_bar (ns +:+ "/" +:+ ds) ("1/" +:+ us +:+ rest) in
  (D = 0 -> upb = Err ZeroDivisionError)
  /\ (D <> 0 ->
      exists k, upb = Ok k /\ 0 <= k /\ k * D <= N * U < (k + 1) * D
                /\ (k * D = N * U <-> (D | N * U))
                /\ (k = 0 <-> N * U < D)).
Proof.
  intros Hn Hd Hu Hr N D U upb.
  assert (E : upb = floordiv (N * U) D).
  { unfold upb, units_per_bar. rewrite (unpack_meter ns ds Hn Hd). cbn [bind].
    rewrite (match_unit_length_some us rest Hu Hr), (py_int_numeral us Hu).
    reflexivity. }
  assert (HN : 0 <= N) by (apply digits_value_nonneg; [apply numeral_digits; exact Hn | lia]).
  assert (HD : 0 <= D) by (apply digits_value_nonneg; [apply numeral_digits; exact Hd | lia]).
  assert (HU : 0 <= U) by (apply digits_value_nonneg; [apply numeral_digits; exact Hu | lia]).
  rewrite E. unfold floordiv. split.
  - intros ->. reflexivity.
  - intros Hnz. destruct (Z.eqb_spec D 0) as [|_]; [contradiction|].
    exists (N * U / D).
    assert (Hpos : 0 < D) by lia.
    pose proof (Z.div_mod (N * U) D Hnz) as Hdm.
    pose proof (Z.mod_pos_bound (N * U) D Hpos) as Hmod.
    assert (Hq : 0 <= N * U / D) by (apply Z.div_pos; nia).
    split; [reflexivity|]. split; [exact Hq|]. split; [nia|]. split.
    + split.
      * intros Hk. exists (N * U / D). lia.
      * intros [c Hc]. rewrite Hc, Z.div_mul by exact Hnz. reflexivity.
    + split.
      * intros Hk. rewrite Hk in Hdm. lia.
      * intros Hlt. apply Z.div_small. nia.
Qed.

Lemma units_per_bar_rounds_down_witness :
  let upb := units_per_bar "3/8" "1/4" in
  (8 = 0 -> upb = Err ZeroDivisionError)
  /\ (8 <> 0 ->
      exists k, upb = Ok k /\ 0 <= k /\ k * 8 <= 3 * 4 < (k + 1) * 8
                /\ (k * 8 = 3 * 4 <-> (8 | 3 * 4))
                /\ (k = 0 <-> 3 * 4 < 8)).
Proof.
  exact (units_per_bar_rounds_down "3" "8" "4" "" eq_refl eq_refl eq_refl eq_refl).
Defined.
(** ** Exceptions during assembly *)

Section Propagation.

Variable float_repr : float -> string.

Lemma validate_sections_raises pre s post header e :
  Forall (validates float_repr header) pre ->
  validate_bars float_repr (abc s) (bars s) (meter header) (unit_length header)
  = Err e ->
  validate_sections float_repr (pre ++ s :: post) header = Err e.
Proof.
  intros Hpre Hs. induction Hpre as [|x pre Hx _ IH]; cbn [app validate_sections].
  - rewrite Hs. reflexivity.
  - rewrite Hx. cbn [bind]. exact IH.
Qed.

(** X7. An exception raised while a section is validated (by int(), by a
    division or by a conversion to float) leaves [assemble_instrument]
    unchanged: the sections before it have passed, nothing is assembled and
    the header keeps its title. *)
Theorem assemble_instrument_propagates
    instrument_name pre s post structure header ks au e :
  Forall (validates float_repr header) pre ->
  validate_bars float_repr (abc s) (bars s) (meter header) (unit_length header)
  = Err e ->
  assemble_instrument float_repr instrument_name (pre ++ s :: post) structure
    header ks au
  = (Err e, header).
Proof.
  intros Hpre Hs. unfold assemble_instrument.
  rewrite (validate_sections_raises pre s post header e Hpre Hs). reflexivity.
Qed.

End Propagation.

Lemma assemble_instrument_propagates_witness :
  let r := fun _ : float => EmptyString in
  let broken := {| name := "C"; bars := 1; abc := "C4 D/0 E3" |} in
  assemble_instrument r "lead" [section_A; broken; section_short] ["A"]%string
    demo_header None None
  = (Err ZeroDivisionError, demo_header).
Proof.
  intros r broken.
  apply (assemble_instrument_propagates r "lead" [section_A] broken [section_short]).
  - repeat constructor.
  - reflexivity.
Defined.
(** ** Scores *)

Lemma sub_from_match m repl a b :
  a <> EmptyString -> m (a +:+ b) = Some (String.length a) ->
  sub_from m repl 0 (a +:+ b) = repl +:+ sub_from m repl 0 b.
Proof.
  destruct a as [|c a]; [congruence|]. intros _ Hm.
  cbn [String.append sub_from]. cbn [String.append] in Hm. rewrite Hm.
  cbn [String.length Nat.pred]. rewrite sub_from_skip. reflexivity.
Qed.

Lemma find_char_app stop s rest :
  string_forall (fun c => negb (Ascii.eqb c stop)) s = true ->
  find_char stop (s +:+ String stop rest) = Some (S (String.length s)).
Proof.
  induction s as [|c s IH]; intros H; cbn [String.append find_char String.length].
  - rewrite Ascii.eqb_refl. reflexivity.
  - cbn [string_forall] in H. apply andb_true_iff in H as [Hc Hs].
    apply negb_true_iff in Hc. rewrite Hc, (IH Hs). reflexivity.
Qed.

(** The characters of an element, by kind. *)
Lemma element_chars (p : ascii -> bool) e rest :
  score_ok (e :: rest) = true ->
  (forall c, no_markup c = true -> p c = true) ->
  match e with
  | Plain (Tok _) => True
  | Plain (Skip c) => p c = true
  | Chord s => p "["%char = true /\ p "]"%char = true
               /\ forall c, chord_char c = true -> p c = true
  | Symbol _ => False
  | Directive s => p "%"%char = true
                   /\ forall c, directive_char c = true -> p c = true
  end ->
  string_forall p (render_element e) = true.
Proof.
  intros Hok Hp He. destruct e as [[t|c]|s|s|s]; cbn [score_ok] in Hok.
  - apply andb_true_iff in Hok as [Ht _]. cbn [render_element].
    exact (string_forall_impl no_markup p _ Hp (token_no_markup t Ht)).
  - cbn [render_element string_forall]. rewrite He. reflexivity.
  - apply andb_true_iff in Hok as [Hs _]. destruct He as (H1 & H2 & H3).
    cbn [render_element String.append string_forall]. rewrite H1.
    rewrite string_forall_app, (string_forall_impl chord_char p s H3 Hs).
    cbn [string_forall]. rewrite H2. reflexivity.
  - contradiction.
  - apply andb_true_iff in Hok as [Hok _]. apply andb_true_iff in Hok as [Hs _].
    destruct He as (H1 & H2).
    cbn [render_element String.append string_forall]. rewrite H1.
    exact (string_forall_impl directive_char p s H2 Hs).
Qed.

Lemma score_ok_tail e rest : score_ok (e :: rest) = true -> score_ok rest = true.
Proof.
  destruct e as [[t|c]|s|s|s]; cbn [score_ok]; intros H;
    apply andb_true_iff in H as [_ H]; exact H.
Qed.

Lemma skip_char_facts c rest :
  score_ok (Plain (Skip c) :: rest) = true ->
  Ascii.eqb c dquote = false /\ Ascii.eqb c "[" = false
  /\ (Ascii.eqb c "%" = false \/ no_percent_next rest = true).
Proof.
  cbn [score_ok]. intros H. apply andb_true_iff in H as [H _].
  apply andb_true_iff in H as [H H3]. apply negb_true_iff in H.
  apply orb_false_iff in H as [H1 H2]. apply orb_true_iff in H3.
  rewrite negb_true_iff in H3. tauto.
Qed.

Lemma chord_char_facts c :
  chord_char c = true ->
  Ascii.eqb c dquote = false /\ Ascii.eqb c "|" = false /\ Ascii.eqb c "%" = false.
Proof.
  unfold chord_char. intros H. apply negb_true_iff in H.
  repeat (apply orb_false_iff in H as [H ?]). tauto.
Qed.

Lemma directive_char_facts c :
  directive_char c = true ->
  Ascii.eqb c dquote = false /\ Ascii.eqb c "|" = false /\ not_newline c = true.
Proof.
  unfold directive_char, not_newline. intros H. apply negb_true_iff in H.
  repeat (apply orb_false_iff in H as [H ?]). rewrite H0. tauto.
Qed.

Lemma no_markup_facts c :
  no_markup c = true ->
  Ascii.eqb c dquote = false /\ Ascii.eqb c "|" = false
  /\ Ascii.eqb c "%" = false /\ Ascii.eqb c "[" = false.
Proof.
  unfold no_markup. intros H. apply negb_true_iff in H. apply is_markup_false. exact H.
Qed.

(** The first substitution takes the chord symbols out. *)
Lemma sub_symbols es :
  score_ok es = true ->
  sub_from match_quoted "" 0 (render_score es) = render_score (without_symbols es).
Proof.
  induction es as [|e rest IH]; intros Hok; [reflexivity|].
  pose proof (IH (score_ok_tail e rest Hok)) as IHr.
  assert (Copy : string_forall not_quote (render_element e) = true ->
                 sub_from match_quoted "" 0 (render_score (e :: rest))
                 = render_element e +:+ render_score (without_symbols rest)).
  { intros Hc. cbn [render_score].
    rewrite (sub_from_copy match_quoted "" not_quote _ _
               (fun c r H => match_quoted_none c r (proj1 (negb_true_iff _) H)) Hc).
    rewrite IHr. reflexivity. }
  assert (Hp : forall c, no_markup c = true -> not_quote c = true).
  { intros c Hc. unfold not_quote. destruct (no_markup_facts c Hc) as (-> & _). reflexivity. }
  destruct e as [[t|c]|s|s|s].
  - apply Copy. exact (element_chars not_quote _ rest Hok Hp I).
  - apply Copy. apply (element_chars not_quote _ rest Hok Hp).
    unfold not_quote. destruct (skip_char_facts c rest Hok) as (-> & _). reflexivity.
  - apply Copy. apply (element_chars not_quote _ rest Hok Hp).
    split; [reflexivity|]. split; [reflexivity|].
    intros c Hc. unfold not_quote. destruct (chord_char_facts c Hc) as (-> & _). reflexivity.
  - cbn [score_ok] in Hok. apply andb_true_iff in Hok as [Hs _].
    cbn [render_score without_symbols]. rewrite <- IHr.
    apply (sub_from_match match_quoted "" (render_element (Symbol s))); [discriminate|].
    cbn [render_element String.append match_quoted String.length].
    rewrite Ascii.eqb_refl, append_assoc. cbn [String.append].
    rewrite (find_char_app dquote s _ Hs), length_append. cbn [option_map String.length].
    f_equal. lia.
  - apply Copy. apply (element_chars not_quote _ rest Hok Hp).
    split; [reflexivity|].
    intros c Hc. unfold not_quote. destruct (directive_char_facts c Hc) as (-> & _). reflexivity.
Qed.

Lemma element_not_empty e rest :
  score_ok (e :: rest) = true -> render_element e <> EmptyString.
Proof.
  destruct e as [[t|c]|s|s|s]; cbn [score_ok render_element]; intros H; try discriminate.
  apply andb_true_iff in H as [Ht _].
  destruct (token_head t Ht) as (c & tail & -> & _). discriminate.
Qed.

(** The second substitution squeezes each run of bars into a space. *)
Lemma sub_bar_lines es :
  score_ok es = true ->
  sub_from match_bars " " 0 (render_score (without_symbols es))
  = render_score (without_bars false es)
  /\ sub_from match_bars " "
       (String.length (fst (take_while is_bar (render_score (without_symbols es)))))
       (render_score (without_symbols es))
     = render_score (without_bars true es).
Proof.
  induction es as [|e rest IH]; intros Hok; [split; reflexivity|].
  destruct (IH (score_ok_tail e rest Hok)) as [IH0 IH1].
  assert (Copy : string_forall not_bar (render_element e) = true ->
     without_symbols (e :: rest) = e :: without_symbols rest ->
     (forall b, without_bars b (e :: rest) = e :: without_bars false rest) ->
     sub_from match_bars " " 0 (render_score (without_symbols (e :: rest)))
     = render_score (without_bars false (e :: rest))
     /\ sub_from match_bars " "
          (String.length
             (fst (take_while is_bar (render_score (without_symbols (e :: rest))))))
          (render_score (without_symbols (e :: rest)))
        = render_score (without_bars true (e :: rest))).
  { intros Hc E1 E2. rewrite E1, !E2. cbn [render_score].
    assert (E : sub_from match_bars " " 0
                  (render_element e +:+ render_score (without_symbols rest))
                = render_element e +:+ render_score (without_bars false rest)).
    { rewrite (sub_from_copy match_bars " " not_bar _ _
                 (fun c r H => match_bars_none c r (proj1 (negb_true_iff _) H)) Hc).
      rewrite IH0. reflexivity. }
    split; [exact E|].
    pose proof (element_not_empty e rest Hok) as Hne.
    destruct (render_element e) as [|c tail]; [congruence|].
    cbn [string_forall] in Hc. apply andb_true_iff in Hc as [Hc _].
    unfold not_bar in Hc. apply negb_true_iff in Hc.
    cbn [String.append take_while]. unfold is_bar at 1. rewrite Hc.
    cbn [fst String.length]. exact E. }
  assert (Hp : forall c, no_markup c = true -> not_bar c = true).
  { intros c Hc. unfold not_bar. destruct (no_markup_facts c Hc) as (_ & -> & _). reflexivity. }
  destruct e as [[t|c]|s|s|s].
  - apply Copy; [|reflexivity|reflexivity]. exact (element_chars not_bar _ rest Hok Hp I).
  - cbn [without_symbols without_bars render_score render_element String.append take_while].
    destruct (is_bar c) eqn:Hb.
    + destruct (take_while is_bar (render_score (without_symbols rest))) as [run after] eqn:Hrun.
      cbn [fst String.length] in *. split.
      * assert (Hm : match_bars (String c (render_score (without_symbols rest)))
                     = Some (S (String.length run))).
        { unfold match_bars. cbn [take_while]. rewrite Hb, Hrun. reflexivity. }
        cbn [sub_from]. rewrite Hm. cbn [Nat.pred]. rewrite IH1. reflexivity.
      * cbn [sub_from]. exact IH1.
    + cbn [fst String.length].
      assert (Hn : match_bars (String c (render_score (without_symbols rest))) = None)
        by (apply match_bars_none; exact Hb).
      split; cbn [sub_from render_score render_element String.append];
        rewrite Hn, IH0; reflexivity.
  - apply Copy; [|reflexivity|reflexivity]. apply (element_chars not_bar _ rest Hok Hp).
    split; [reflexivity|]. split; [reflexivity|].
    intros c Hc. unfold not_bar. destruct (chord_char_facts c Hc) as (_ & -> & _). reflexivity.
  - cbn [without_symbols without_bars]. split; [exact IH0 | exact IH1].
  - apply Copy; [|reflexivity|reflexivity]. apply (element_chars not_bar _ rest Hok Hp).
    split; [reflexivity|].
    intros c Hc. unfold not_bar. destruct (directive_char_facts c Hc) as (_ & -> & _). reflexivity.
Qed.

Lemma ends_line_text rest :
  ends_line rest = true ->
  starts_with not_newline (render_score (without_bars false rest)) = false.
Proof.
  destruct rest as [|[[t|c]|s|s|s] rest]; cbn [ends_line]; intros H; try discriminate.
  - reflexivity.
  - cbn [without_bars]. unfold is_bar.
    assert (E : Ascii.eqb c "|" = false).
    { apply Ascii.eqb_eq in H. subst c. reflexivity. }
    rewrite E. cbn [render_score render_element String.append starts_with].
    unfold not_newline. rewrite H. reflexivity.
Qed.

Lemma match_directive_lone r :
  starts_with (fun c => Ascii.eqb c "%") r = false ->
  match_directive (String "%" r) = None.
Proof.
  destruct r as [|c r]; [reflexivity|]. cbn [starts_with]. intros H.
  unfold match_directive. each_char c; try reflexivity; discriminate H.
Qed.

Lemma percent_next_text rest :
  score_ok rest = true -> no_percent_next rest = true ->
  starts_with (fun c => Ascii.eqb c "%") (render_score (without_bars false rest)) = false.
Proof.
  destruct rest as [|[[t|c]|s|s|s] rest]; cbn [no_percent_next]; intros Hok H;
    try discriminate; [reflexivity| |].
  - cbn [score_ok] in Hok. apply andb_true_iff in Hok as [Ht _].
    destruct (token_head t Ht) as (c & tail & E & _ & Hm).
    cbn [without_bars render_score render_element]. rewrite E.
    cbn [String.append starts_with]. apply is_markup_false in Hm. tauto.
  - apply negb_true_iff in H. cbn [without_bars].
    destruct (is_bar c); [reflexivity|].
    cbn [render_score render_element String.append starts_with]. exact H.
Qed.

(** The third substitution takes the directives out. *)
Lemma sub_directives es :
  score_ok es = true -> forall b,
  sub_from match_directive "" 0 (render_score (without_bars b es))
  = render_score (without_directives b es).
Proof.
  induction es as [|e rest IH]; intros Hok b; [reflexivity|].
  pose proof (IH (score_ok_tail e rest Hok)) as IHr.
  assert (Copy : forall x tail b',
     string_forall not_percent x = true ->
     sub_from match_directive "" 0 (x +:+ render_score (without_bars b' tail))
     = x +:+ sub_from match_directive "" 0 (render_score (without_bars b' tail))).
  { intros x tail b' Hc.
    exact (sub_from_copy match_directive "" not_percent _ _
             (fun c r H => match_directive_none c r (proj1 (negb_true_iff _) H)) Hc). }
  assert (Hp : forall c, no_markup c = true -> not_percent c = true).
  { intros c Hc. unfold not_percent. destruct (no_markup_facts c Hc) as (_ & _ & -> & _). reflexivity. }
  destruct e as [[t|c]|s|s|s].
  - cbn [without_bars without_directives render_score].
    rewrite (Copy _ rest false (element_chars not_percent _ rest Hok Hp I)), IHr. reflexivity.
  - destruct (skip_char_facts c rest Hok) as (_ & _ & Hpc).
    cbn [without_bars without_directives]. destruct (is_bar c); [destruct b|].
    + apply IHr.
    + cbn [render_score]. rewrite (Copy _ rest true); [|reflexivity]. rewrite IHr. reflexivity.
    + destruct (Ascii.eqb c "%") eqn:Hpct.
      * (* a lone percent sign starts no directive *)
        destruct Hpc as [Hpc|Hnext]; [discriminate|].
        apply Ascii.eqb_eq in Hpct. subst c.
        cbn [render_score render_element String.append sub_from].
        rewrite (match_directive_lone _
                   (percent_next_text rest (score_ok_tail _ rest Hok) Hnext)).
        rewrite IHr. reflexivity.
      * cbn [render_score]. rewrite (Copy _ rest false);
          [|cbn [render_element string_forall]; unfold not_percent; rewrite Hpct; reflexivity].
        rewrite IHr. reflexivity.
  - cbn [without_bars without_directives render_score].
    rewrite (Copy _ rest false), IHr; [reflexivity|].
    apply (element_chars not_percent _ rest Hok Hp).
    split; [reflexivity|]. split; [reflexivity|].
    intros c Hc. unfold not_percent. destruct (chord_char_facts c Hc) as (_ & _ & ->). reflexivity.
  - cbn [without_bars without_directives]. apply IHr.
  - cbn [score_ok] in Hok. apply andb_true_iff in Hok as [Hok _].
    apply andb_true_iff in Hok as [Hs Hend].
    cbn [without_bars without_directives render_score]. rewrite <- (IHr false).
    apply (sub_from_match match_directive "" (render_element (Directive s))); [discriminate|].
    cbn [render_element String.append match_directive String.length].
    rewrite (take_while_app not_newline s _
               (string_forall_impl directive_char not_newline s
                  (fun c H => proj2 (proj2 (directive_char_facts c H))) Hs)
               (ends_line_text rest Hend)).
    reflexivity.
Qed.

(** The fourth substitution takes the bracketed chords out. *)
Lemma sub_chords es :
  score_ok es = true -> forall b,
  sub_from match_bracket "" 0 (render_score (without_directives b es))
  = render (cleaned b es).
Proof.
  induction es as [|e rest IH]; intros Hok b; [reflexivity|].
  pose proof (IH (score_ok_tail e rest Hok)) as IHr.
  assert (Copy : forall x tail b',
     string_forall not_bracket x = true ->
     sub_from match_bracket "" 0 (x +:+ render_score (without_directives b' tail))
     = x +:+ sub_from match_bracket "" 0 (render_score (without_directives b' tail))).
  { intros x tail b' Hc.
    exact (sub_from_copy match_bracket "" not_bracket _ _
             (fun c r H => match_bracket_none c r (proj1 (negb_true_iff _) H)) Hc). }
  assert (Hp : forall c, no_markup c = true -> not_bracket c = true).
  { intros c Hc. unfold not_bracket. destruct (no_markup_facts c Hc) as (_ & _ & _ & ->). reflexivity. }
  destruct e as [[t|c]|s|s|s].
  - cbn [without_directives cleaned render_score render].
    rewrite (Copy _ rest false (element_chars not_bracket _ rest Hok Hp I)), IHr. reflexivity.
  - destruct (skip_char_facts c rest Hok) as (_ & Hbc & _).
    cbn [without_directives cleaned]. destruct (is_bar c); [destruct b|].
    + apply IHr.
    + cbn [render_score render]. rewrite (Copy _ rest true); [|reflexivity]. rewrite IHr. reflexivity.
    + cbn [render_score render]. rewrite (Copy _ rest false);
        [|cbn [render_element string_forall]; unfold not_bracket; rewrite Hbc; reflexivity].
      rewrite IHr. reflexivity.
  - cbn [score_ok] in Hok. apply andb_true_iff in Hok as [Hs _].
    cbn [without_directives cleaned render_score]. rewrite <- (IHr false).
    apply (sub_from_match match_bracket "" (render_element (Chord s))); [discriminate|].
    cbn [render_element String.append match_bracket String.length].
    rewrite !append_assoc. cbn [String.append].
    rewrite (find_close_group s _ Hs), length_append. cbn [option_map String.length].
    f_equal. lia.
  - cbn [without_directives cleaned]. apply IHr.
  - cbn [without_directives cleaned]. apply IHr.
Qed.

Lemma clean_abc_score es :
  score_ok es = true -> clean_abc (render_score es) = render (cleaned false es).
Proof.
  intros Hok. unfold clean_abc, re_sub.
  rewrite (sub_symbols es Hok), (proj1 (sub_bar_lines es Hok)),
    (sub_directives es Hok false).
  exact (sub_chords es Hok false).
Qed.

Lemma cleaned_tokens es : forall b,
  tokens_of (cleaned b es) = tokens_of (plain_items es).
Proof.
  induction es as [|[[t|c]|s|s|s] rest IH]; intros b;
    cbn [cleaned plain_items tokens_of]; try apply IH; try reflexivity.
  - rewrite IH. reflexivity.
  - destruct (is_bar c); [destruct b|]; cbn [tokens_of]; apply IH.
Qed.

Lemma cleaned_head es :
  skip_extends (plain_items es) = false -> skip_extends (cleaned false es) = false.
Proof.
  induction es as [|[[t|c]|s|s|s] rest IH]; cbn [cleaned plain_items skip_extends];
    intros H; try (apply IH; exact H); try reflexivity.
  destruct (is_bar c); [reflexivity | exact H].
Qed.

Lemma cleaned_ok es :
  layout_ok (plain_items es) = true -> forall b, layout_ok (cleaned b es) = true.
Proof.
  induction es as [|[[t|c]|s|s|s] rest IH]; cbn [cleaned plain_items];
    intros Hok b; try (apply IH; exact Hok); try reflexivity.
  - cbn [layout_ok] in *. apply andb_true_iff in Hok as [Hok Hrest].
    apply andb_true_iff in Hok as [Ht Hext]. apply negb_true_iff in Hext.
    rewrite Ht, (cleaned_head rest Hext), (IH Hrest false). reflexivity.
  - cbn [layout_ok] in Hok. apply andb_true_iff in Hok as [Hc Hrest].
    destruct (is_bar c); [destruct b|]; cbn [layout_ok];
      rewrite ?Hc, (IH Hrest); reflexivity.
Qed.

Lemma count_score (es : list element) :
  score_ok es = true -> layout_ok (plain_items es) = true ->
  count_abc_units (render_score es) = spec_total f_zero (tokens_of (plain_items es)).
Proof.
  intros Hok Hlay. unfold count_abc_units.
  rewrite (clean_abc_score es Hok).
  rewrite (finditer_layout _ (cleaned_ok es Hlay false)), cleaned_tokens.
  apply sum_durations_tokens, layout_tokens_ok, Hlay.
Qed.

(** X3. Chord symbols, bracketed chords and directives add nothing to the
    count: the substitutions take them out whole, and the total of a score
    is the sum of the tokens outside them, in order.  A length written
    behind a chord, as in [CEG]4, is not counted either, and the letters
    behind a lone percent sign are counted as notes. *)
Theorem count_abc_units_score (es : list element) :
  score_ok es = true -> layout_ok (plain_items es) = true ->
  clean_abc (render_score es) = render (cleaned false es)
  /\ tokens_of (cleaned false es) = tokens_of (plain_items es)
  /\ count_abc_units (render_score es) = spec_total f_zero (tokens_of (plain_items es)).
Proof.
  intros Hok Hlay. split; [exact (clean_abc_score es Hok)|].
  split; [apply cleaned_tokens | exact (count_score es Hok Hlay)].
Qed.

Lemma count_abc_units_score_witness :
  render_score verse_bar = String dquote ("Cm" +:+ String dquote "C,2 C,2 G,,2 G,,2 |")
  /\ count_abc_units (render_score verse_bar) = Ok (dyadic 8 0)
  /\ count_abc_units "[CEG]4 [CEG]4 | [A,CE]4 [A,CE]4 |" = Ok f_zero
  /\ count_abc_units ("C4 D4 | % end" +:+ nl +:+ "%%MIDI control 1 30") = Ok (dyadic 10 0).
Proof.
  split; [reflexivity|]. split; [|split].
  - rewrite (proj2 (proj2 (count_abc_units_score verse_bar eq_refl eq_refl))).
    reflexivity.
  - change (count_abc_units (render_score chord_bars) = Ok f_zero).
    rewrite (proj2 (proj2 (count_abc_units_score chord_bars eq_refl eq_refl))).
    reflexivity.
  - change (count_abc_units (render_score commented_bar) = Ok (dyadic 10 0)).
    rewrite (proj2 (proj2 (count_abc_units_score commented_bar eq_refl eq_refl))).
    reflexivity.
Defined.
(** ** Control-change directives *)

Lemma uint_chars (p : ascii -> bool) d :
  (forall c, is_digit c = true -> p c = true) ->
  string_forall p (NilEmpty.string_of_uint d) = true.
Proof.
  intros Hp. induction d; cbn [NilEmpty.string_of_uint string_forall];
    try rewrite IHd; try rewrite Hp; reflexivity.
Qed.

(** [str(n)] holds digits and at most a minus sign. *)
Lemma py_str_chars (p : ascii -> bool) n :
  (forall c, is_digit c = true -> p c = true) -> p "-"%char = true ->
  string_forall p (py_str n) = true.
Proof.
  intros Hp Hm. unfold py_str, NilZero.string_of_int, NilZero.string_of_uint.
  destruct (Z.to_int n) as [d|d]; destruct d;
    cbn [string_forall NilEmpty.string_of_uint];
    rewrite ?Hm; repeat (rewrite Hp by reflexivity);
    rewrite ?(uint_chars p _ Hp); reflexivity.
Qed.

Lemma inject_cc_chars cc value :
  exists body, inject_cc cc value = "%%" +:+ body
               /\ string_forall directive_char body = true.
Proof.
  exists ("MIDI control " +:+ py_str cc +:+ " " +:+ py_str value). split; [reflexivity|].
  assert (Hd : forall n, string_forall directive_char (py_str n) = true).
  { intros n. apply py_str_chars; [|reflexivity].
    intros c. each_char c; vm_compute; congruence. }
  rewrite !string_forall_app, !Hd. reflexivity.
Qed.

(** A directive line in front of a text is taken out before the notes are
    scanned. *)
Lemma clean_abc_directive_line body text :
  string_forall directive_char body = true ->
  clean_abc (("%%" +:+ body) +:+ nl +:+ text) = nl +:+ clean_abc text.
Proof.
  intros Hb.
  assert (F : forall (p : ascii -> bool),
     p "%"%char = true -> p newline = true ->
     (forall c, directive_char c = true -> p c = true) ->
     string_forall p (("%%" +:+ body) +:+ nl) = true).
  { intros p H1 H2 Hp. rewrite string_forall_app. unfold nl.
    cbn [String.append string_forall].
    rewrite H1, H2, (string_forall_impl directive_char p body Hp Hb). reflexivity. }
  assert (E : forall r, ("%%" +:+ body) +:+ nl +:+ r = (("%%" +:+ body) +:+ nl) +:+ r).
  { intros r. symmetry. apply append_assoc. }
  unfold clean_abc, re_sub. rewrite E.
  rewrite (sub_from_copy match_quoted "" not_quote);
    [| intros c r Hc; apply match_quoted_none, negb_true_iff, Hc
     | apply F; [reflexivity | reflexivity |
         intros c Hc; unfold not_quote; destruct (directive_char_facts c Hc) as (-> & _); reflexivity]].
  rewrite (sub_from_copy match_bars " " not_bar);
    [| intros c r Hc; apply match_bars_none, negb_true_iff, Hc
     | apply F; [reflexivity | reflexivity |
         intros c Hc; unfold not_bar; destruct (directive_char_facts c Hc) as (_ & -> & _); reflexivity]].
  set (r2 := sub_from match_bars " " 0 _). rewrite <- E.
  rewrite (sub_from_match match_directive "" ("%%" +:+ body)); [|discriminate|].
  - cbn [String.append]. change (String newline ?r) with (nl +:+ r).
    rewrite (sub_from_copy match_directive "" not_percent nl);
      [| intros c r Hc; apply match_directive_none, negb_true_iff, Hc | reflexivity].
    apply (sub_from_copy match_bracket "" not_bracket nl); [|reflexivity].
    intros c r Hc. apply match_bracket_none, negb_true_iff, Hc.
  - cbn [String.append match_directive String.length].
    change (nl +:+ r2) with (String newline r2).
    rewrite (take_while_app not_newline body (String newline r2)
               (string_forall_impl directive_char not_newline body
                  (fun c H => proj2 (proj2 (directive_char_facts c H))) Hb)
               eq_refl).
    reflexivity.
Qed.

(** X4. A control-change directive from [inject_cc] adds nothing to the count,
    alone or on a line of its own in front of any text. *)
Theorem inject_cc_uncounted (cc value : Z) (text : string) :
  clean_abc (inject_cc cc value +:+ nl +:+ text) = nl +:+ clean_abc text
  /\ count_abc_units (inject_cc cc value +:+ nl +:+ text) = count_abc_units text
  /\ count_abc_units (inject_cc cc value) = Ok f_zero.
Proof.
  destruct (inject_cc_chars cc value) as (body & -> & Hb).
  assert (C : forall t, clean_abc (("%%" +:+ body) +:+ nl +:+ t) = nl +:+ clean_abc t)
    by (intros t; exact (clean_abc_directive_line body t Hb)).
  split; [exact (C text)|]. split.
  - unfold count_abc_units. rewrite (C text). reflexivity.
  - rewrite <- (append_empty_r ("%%" +:+ body)).
    change (count_abc_units (render_score [Directive body]) = Ok f_zero).
    rewrite (count_score [Directive body]); [reflexivity| |reflexivity].
    cbn [score_ok ends_line]. rewrite Hb. reflexivity.
Qed.

(** ** Keyswitch tokens determine the note *)

Lemma repeat_string_length (m : ascii) n :
  String.length (repeat_string (String m EmptyString) n) = n.
Proof. induction n as [|n IH]; cbn [repeat_string String.append String.length]; congruence. Qed.

Lemma marks_read_back (m : ascii) n :
  is_octave_mark m = true ->
  fst (take_while is_octave_mark (repeat_string (String m EmptyString) n +:+ "/8]z7/8"))
  = repeat_string (String m EmptyString) n.
Proof.
  intros Hm. rewrite (take_while_app is_octave_mark _ "/8]z7/8"
                        (repeat_string_marks m n Hm) eq_refl).
  reflexivity.
Qed.

Ltac pitch_name :=
  match goal with
  | |- context [nth ?k pitch_names EmptyString] =>
      let v := eval vm_compute in (nth k pitch_names EmptyString) in
      change (nth k pitch_names EmptyString) with v
  end;
  try match goal with
  | |- context [lower ?s] =>
      let v := eval vm_compute in (lower s) in change (lower s) with v
  end.

Lemma keyswitch_pitch_inject note beat unit_length :
  keyswitch_pitch (inject_keyswitch note beat unit_length) = note.
Proof.
  unfold inject_keyswitch.
  pose proof (Z.div_mod note 12 ltac:(lia)) as Hdm.
  pose proof (Z.mod_pos_bound note 12 ltac:(lia)) as Hpc.
  set (pc := note mod 12) in *. set (q := note / 12) in *.
  assert (Hcase : pc = 0 \/ pc = 1 \/ pc = 2 \/ pc = 3 \/ pc = 4 \/ pc = 5 \/ pc = 6
                  \/ pc = 7 \/ pc = 8 \/ pc = 9 \/ pc = 10 \/ pc = 11) by lia.
  clearbody pc q.
  destruct (Z.ltb_spec (q - 5) 0) as [Hneg|Hnn].
  - (* below octave 0: commas *)
    assert (Hk : Z.of_nat (Z.to_nat (Z.abs (q - 5))) = - (q - 5)) by lia.
    repeat (destruct Hcase as [->|Hcase]); try subst pc; pitch_name;
      cbn [String.append keyswitch_pitch];
      rewrite (marks_read_back "," _ eq_refl), repeat_string_length, Hk;
      vm_compute semitones; vm_compute is_lower; cbv beta iota; lia.
  - destruct (Z.gtb_spec (q - 5) 0) as [Hpos|Hzero].
    + destruct (Z.gtb_spec (q - 5) 1) as [Htwo|Hone].
      * (* above octave 1: apostrophes *)
        assert (Hk : Z.of_nat (Z.to_nat (q - 5 - 1)) = q - 5 - 1) by lia.
        repeat (destruct Hcase as [->|Hcase]); try subst pc; pitch_name;
          cbn [String.append keyswitch_pitch];
          rewrite (marks_read_back "'" _ eq_refl), repeat_string_length, Hk;
          vm_compute semitones; vm_compute is_lower; cbv beta iota; lia.
      * assert (q = 6) by lia. subst q.
        repeat (destruct Hcase as [->|Hcase]); try subst pc; vm_compute; lia.
    + assert (q = 5) by lia. subst q.
      repeat (destruct Hcase as [->|Hcase]); try subst pc; vm_compute; lia.
Qed.

(** X5. Two different MIDI notes never give the same keyswitch token, whatever
    the beats and unit lengths are: the pitch name, its case and the number
    of its octave marks determine the note. *)
Theorem inject_keyswitch_injective note1 beat1 unit_length1 note2 beat2 unit_length2 :
  note1 <> note2 ->
  inject_keyswitch note1 beat1 unit_length1 <> inject_keyswitch note2 beat2 unit_length2.
Proof.
  intros Hne E. apply Hne.
  rewrite <- (keyswitch_pitch_inject note1 beat1 unit_length1), E.
  apply keyswitch_pitch_inject.
Qed.

Lemma inject_keyswitch_injective_witness :
  inject_keyswitch 60 f_zero "1/8" = "[C/8]z7/8"%string
  /\ inject_keyswitch 73 f_one "1/4" = "[^c/8]z7/8"%string
  /\ inject_keyswitch 60 f_zero "1/8" <> inject_keyswitch 73 f_one "1/4".
Proof.
  split; [reflexivity|]. split; [reflexivity|].
  apply inject_keyswitch_injective. lia.
Defined.

(** ** The scripts: what is validated *)

Lemma join_nested sep (first : list string) (rest : list string) :
  first <> [] -> join sep (join sep first :: rest) = join sep (first ++ rest).
Proof.
  intros Hne. destruct rest as [|r rest].
  - rewrite app_nil_r. reflexivity.
  - induction first as [|a first IH]; [congruence|].
    destruct first as [|b first].
    + reflexivity.
    + change (join sep (a :: b :: first)) with (a +:+ sep +:+ join sep (b :: first)).
      change (join sep ((a :: b :: first) ++ r :: rest))
        with (a +:+ sep +:+ join sep ((b :: first) ++ r :: rest)).
      rewrite <- IH by discriminate.
      change (join sep (?x :: r :: rest)) with (x +:+ sep +:+ join sep (r :: rest)).
      rewrite !append_assoc. reflexivity.
Qed.

Lemma filter_none {A : Type} (f : A -> bool) (l : list A) :
  Forall (fun x => f x = false) l -> List.filter f l = [].
Proof.
  induction 1 as [|x l Hx _ IH]; [reflexivity|]. cbn [List.filter]. rewrite Hx. exact IH.
Qed.

(** No line of a header is a music line, whatever the fields hold. *)
Lemma header_lines_no_music header index :
  Forall (fun l => is_music_line l = false) (header_lines header index).
Proof.
  unfold header_lines. destruct (tempo header); repeat (once constructor);
    try reflexivity;
    match goal with |- is_music_line (_ +:+ ?s) = false => destruct s; reflexivity end.
Qed.

Lemma header_lines_split header index :
  string_forall not_newline (title header) = true ->
  string_forall not_newline (meter header) = true ->
  string_forall not_newline (unit_length header) = true ->
  string_forall not_newline (key header) = true ->
  Forall (fun l => string_forall not_newline l = true) (header_lines header index).
Proof.
  intros Ht Hm Hu Hk. unfold header_lines.
  destruct (tempo header); repeat constructor;
    rewrite string_forall_app; apply andb_true_iff; split;
    first [reflexivity | assumption | apply py_str_no_newline].
Qed.

(** X8. The lines of a header, and every directive, comment and blank line, are
    left out of the text the scripts validate: what is validated is the
    other lines, in order, joined by single spaces. *)
Theorem music_skips_header (header : ABCHeader) (index : Z) (body : list string) :
  string_forall not_newline (title header) = true ->
  string_forall not_newline (meter header) = true ->
  string_forall not_newline (unit_length header) = true ->
  string_forall not_newline (key header) = true ->
  Forall (fun l => string_forall not_newline l = true) body ->
  let abc_content := join nl (generate_abc_header header index :: body) in
  music_lines abc_content = List.filter is_music_line body
  /\ music abc_content = join " " (List.filter is_music_line body)
  /\ (forall l, In l (music_lines abc_content) ->
        l <> EmptyString /\ String.prefix "%" l = false /\ In l body)
  /\ (forall cc value, is_music_line (inject_cc cc value) = false).
Proof.
  intros Ht Hm Hu Hk Hbody abc_content.
  assert (E : music_lines abc_content = List.filter is_music_line body).
  { unfold abc_content, music_lines, generate_abc_header.
    rewrite join_nested by (unfold header_lines; discriminate).
    unfold nl. rewrite split_on_join.
    - rewrite List.filter_app, (filter_none _ _ (header_lines_no_music header index)).
      reflexivity.
    - unfold header_lines. discriminate.
    - apply Forall_app. split; [|exact Hbody].
      exact (header_lines_split header index Ht Hm Hu Hk). }
  split; [exact E|]. split; [unfold music; rewrite E; reflexivity|]. split.
  - intros l Hl. rewrite E in Hl. apply filter_In in Hl as [Hin Hmus].
    unfold is_music_line in Hmus. apply andb_true_iff in Hmus as [Hne Hpre].
    apply negb_true_iff in Hpre. cbn [existsb header_prefixes] in Hpre.
    apply orb_false_iff in Hpre as [Hpct _].
    split; [|split; [exact Hpct | exact Hin]].
    intros ->. discriminate Hne.
  - intros cc value. reflexivity.
Qed.

Lemma music_skips_header_witness :
  let r := fun _ : float => "48.0"%string in
  music generate_bass_line
  = ("A,,2E,,2 A,,2E,,2 | G,,2D,,2 G,,2D,,2 | F,,2C,,2 F,,2C,,2 | E,,2B,,,2 E,,2B,,,2 | "
     +:+ "A,,2A,,2 C,,2C,,2 | G,,2G,,2 D,,2D,,2 | A,,8 | A,,8 |")%string
  /\ validate_music r generate_bass_line = Ok (true, EmptyString)
  /\ validate_music r generate_bass_part2 = Ok (true, EmptyString)
  /\ validate_music r generate_guitar_part2
     = Ok (false, "Expected 8 bars (64 units), got 6.00 bars (48.0 units)"%string).
Proof.
  intros r. split; [|repeat split].
  unfold generate_bass_line.
  match goal with
  | |- music (join nl (generate_abc_header ?h ?i :: ?body)) = _ =>
      rewrite (proj1 (proj2 (music_skips_header h i body eq_refl eq_refl eq_refl eq_refl
                               ltac:(repeat constructor))))
  end.
  reflexivity.
Defined.

(** ** The header text determines the header *)

Lemma to_int_not_nil z :
  Z.to_int z <> Decimal.Pos Decimal.Nil /\ Z.to_int z <> Decimal.Neg Decimal.Nil.
Proof.
  pose proof (DecimalZ.to_of (Z.to_int z)) as H. rewrite DecimalZ.of_to in H.
  split; intros E; rewrite E in H; discriminate H.
Qed.

Lemma py_str_injective a b : py_str a = py_str b -> a = b.
Proof.
  unfold py_str. intros E. apply DecimalZ.to_int_inj.
  destruct (to_int_not_nil a) as [Ha1 Ha2]. destruct (to_int_not_nil b) as [Hb1 Hb2].
  pose proof (NilZero.isi _ Ha1 Ha2) as Ia. pose proof (NilZero.isi _ Hb1 Hb2) as Ib.
  rewrite E, Ib in Ia. congruence.
Qed.

Lemma header_read_back (h1 h2 : ABCHeader) (i1 i2 : Z) :
  Forall (fun s => string_forall not_newline s = true)
         [title h1; meter h1; unit_length h1; key h1;
          title h2; meter h2; unit_length h2; key h2] ->
  generate_abc_header h1 i1 = generate_abc_header h2 i2 ->
  h1 = h2 /\ i1 = i2.
Proof.
  intros Hf E.
  repeat match goal with H : Forall _ (_ :: _) |- _ =>
    let Hx := fresh "Hx" in apply Forall_cons_iff in H as [Hx H] end.
  assert (L : header_lines h1 i1 = header_lines h2 i2).
  { unfold generate_abc_header, nl in E.
    rewrite <- (split_on_join newline (header_lines h1 i1)),
            <- (split_on_join newline (header_lines h2 i2)).
    - rewrite E. reflexivity.
    - unfold header_lines. discriminate.
    - apply header_lines_split; assumption.
    - unfold header_lines. discriminate.
    - apply header_lines_split; assumption. }
  destruct h1 as [t1 m1 u1 q1 k1 p1 c1], h2 as [t2 m2 u2 q2 k2 p2 c2].
  unfold header_lines in L. cbn [title meter unit_length tempo key midi_program midi_channel] in L.
  destruct q1 as [q1|], q2 as [q2|]; cbn [app] in L.
  - injection L as Ex Et Em Eu Eq Ek Ep Ec.
    apply py_str_injective in Ex, Eq, Ep, Ec. subst. split; reflexivity.
  - (* a tempo line against a key line *)
    discriminate L.
  - discriminate L.
  - injection L as Ex Et Em Eu Ek Ep Ec.
    apply py_str_injective in Ex, Ep, Ec. subst. split; reflexivity.
Qed.

(** X6. Headers whose text fields hold no newline render to different
    texts as soon as they differ in a field or in the index: every field can
    be read back from its line.  With a newline in a field this fails: a
    meter that ends in a newline and an L: line renders like a unit length
    that carries them. *)
Theorem generate_abc_header_injective :
  (forall (h1 h2 : ABCHeader) (i1 i2 : Z),
      Forall (fun s => string_forall not_newline s = true)
             [title h1; meter h1; unit_length h1; key h1;
              title h2; meter h2; unit_length h2; key h2] ->
      h1 <> h2 \/ i1 <> i2 ->
      generate_abc_header h1 i1 <> generate_abc_header h2 i2)
  /\ (let h1 := with_meter_and_unit demo_header ("4/4" +:+ nl +:+ "L:1/8") "1/16" in
      let h2 := with_meter_and_unit demo_header "4/4" ("1/8" +:+ nl +:+ "L:1/16") in
      h1 <> h2 /\ generate_abc_header h1 1 = generate_abc_header h2 1).
Proof.
  split.
  - intros h1 h2 i1 i2 Hf Hne E.
    destruct (header_read_back h1 h2 i1 i2 Hf E) as [Eh Ei]. tauto.
  - split; [discriminate | reflexivity].
Qed.

Lemma generate_abc_header_injective_witness :
  generate_abc_header demo_header 1 <> generate_abc_header demo_header 2.
Proof.
  apply (proj1 generate_abc_header_injective demo_header demo_header 1 2).
  - repeat constructor.
  - right. lia.
Defined.

(** ** Every match of the note pattern is a token *)

Lemma digit_count_app a b :
  digit_count (a +:+ b) = (digit_count a + digit_count b)%nat.
Proof.
  induction a as [|c a IH]; [reflexivity|].
  cbn [String.append digit_count]. rewrite IH. destruct (is_digit c); reflexivity.
Qed.

Lemma digit_count_digits s :
  string_forall is_digit s = true -> digit_count s = String.length s.
Proof.
  induction s as [|c s IH]; [reflexivity|]. cbn [string_forall digit_count String.length].
  intros H. apply andb_true_iff in H as [-> Hs]. rewrite (IH Hs). reflexivity.
Qed.

Lemma digit_count_tail c r : (digit_count r <= digit_count (String c r))%nat.
Proof. cbn [digit_count]. destruct (is_digit c); lia. Qed.

Lemma match_note_letter_any (a : option ascii) s g n :
  match a with Some x => is_accidental x = true | None => True end ->
  match_note_letter (match a with Some x => String x EmptyString | None => EmptyString end) s
  = Some (g, n) ->
  exists t, token_ok t = true /\ g = groups_of t
            /\ (string_forall not_slash s = true -> has_slash t = false)
            /\ (String.length (numerator t) <= digit_count s)%nat
            /\ (String.length (denominator t) <= digit_count s)%nat.
Proof.
  intros Ha. unfold match_note_letter. destruct s as [|c r]; [discriminate|].
  destruct (is_note_letter c) eqn:Hc; [|discriminate].
  pose proof (take_while_spec is_octave_mark r) as (E1 & O1 & _).
  destruct (take_while is_octave_mark r) as [oct r1]. cbn [fst snd] in E1, O1.
  pose proof (take_while_spec is_digit r1) as (E2 & O2 & S2).
  destruct (take_while is_digit r1) as [num r2]. cbn [fst snd] in E2, O2, S2.
  assert (Hs : forall p, string_forall p (String c r) = true ->
                         string_forall p r2 = true).
  { intros p Hp. cbn [string_forall] in Hp. apply andb_true_iff in Hp as [_ Hp].
    rewrite E1, string_forall_app in Hp. apply andb_true_iff in Hp as [_ Hp].
    rewrite E2, string_forall_app in Hp. apply andb_true_iff in Hp as [_ Hp]. exact Hp. }
  assert (Hnum : (String.length num <= digit_count (String c r))%nat).
  { pose proof (digit_count_tail c r) as Hc'. rewrite E1, E2 in Hc' at 1.
    rewrite !digit_count_app, (digit_count_digits num O2) in Hc'. lia. }
  assert (Hrest : (digit_count r2 <= digit_count (String c r))%nat).
  { pose proof (digit_count_tail c r) as Hc'. rewrite E1, E2 in Hc' at 1.
    rewrite !digit_count_app in Hc'. lia. }
  destruct r2 as [|c2 r3].
  - cbn [take_while]. intros [= <- _].
    exists {| accidental := a; letter := c; octave_marks := oct; numerator := num;
              has_slash := false; denominator := "" |}.
    split; [|split; [|split; [reflexivity|]]].
    + unfold token_ok. cbn [accidental letter octave_marks numerator denominator has_slash].
      rewrite Hc, O1, O2. destruct a; [rewrite Ha|]; reflexivity.
    + unfold groups_of, accidental_text, slash_text.
      cbn [accidental letter octave_marks numerator denominator has_slash].
      destruct a; reflexivity.
    + cbn [numerator denominator String.length]. split; [exact Hnum | lia].
  - destruct (Ascii.eqb c2 "/") eqn:Hsl.
    + apply Ascii.eqb_eq in Hsl. subst c2.
      pose proof (take_while_spec is_digit r3) as (E3 & O3 & _).
      destruct (take_while is_digit r3) as [den r4]. cbn [fst snd] in E3, O3.
      intros [= <- _].
      exists {| accidental := a; letter := c; octave_marks := oct; numerator := num;
                has_slash := true; denominator := den |}.
      split; [|split; [|split]].
      * unfold token_ok. cbn [accidental letter octave_marks numerator denominator has_slash].
        rewrite Hc, O1, O2, O3. destruct a; [rewrite Ha|]; reflexivity.
      * unfold groups_of, accidental_text, slash_text.
        cbn [accidental letter octave_marks numerator denominator has_slash].
        destruct a; reflexivity.
      * intros Hno. apply (Hs not_slash) in Hno. discriminate Hno.
      * cbn [numerator denominator]. split; [exact Hnum|].
        pose proof (digit_count_tail "/" r3) as Hr3.
        rewrite E3, digit_count_app, (digit_count_digits den O3) in Hr3 at 1. lia.
    + assert (E : forall (A : Type) (x : string -> A) (y : A),
                match String c2 r3 with String "/" r => x r | _ => y end = y).
      { intros A x y. clear -Hsl. each_char c2; try reflexivity; discriminate Hsl. }
      rewrite E. cbn [starts_with] in S2. cbn [take_while]. rewrite S2.
      intros [= <- _].
      exists {| accidental := a; letter := c; octave_marks := oct; numerator := num;
                has_slash := false; denominator := "" |}.
      split; [|split; [|split; [reflexivity|]]].
      * unfold token_ok. cbn [accidental letter octave_marks numerator denominator has_slash].
        rewrite Hc, O1, O2. destruct a; [rewrite Ha|]; reflexivity.
      * unfold groups_of, accidental_text, slash_text.
        cbn [accidental letter octave_marks numerator denominator has_slash].
        destruct a; reflexivity.
      * cbn [numerator denominator String.length]. split; [exact Hnum | lia].
Qed.

Lemma match_note_any s g n :
  match_note s = Some (g, n) ->
  exists t, token_ok t = true /\ g = groups_of t
            /\ (string_forall not_slash s = true -> has_slash t = false)
            /\ (String.length (numerator t) <= digit_count s)%nat
            /\ (String.length (denominator t) <= digit_count s)%nat.
Proof.
  unfold match_note. destruct s as [|a r]; [discriminate|].
  assert (Plain : match_note_letter EmptyString (String a r) = Some (g, n) ->
     exists t, token_ok t = true /\ g = groups_of t
               /\ (string_forall not_slash (String a r) = true -> has_slash t = false)
               /\ (String.length (numerator t) <= digit_count (String a r))%nat
               /\ (String.length (denominator t) <= digit_count (String a r))%nat)
    by exact (match_note_letter_any None (String a r) g n I).
  destruct (is_accidental a) eqn:Ha; [|exact Plain].
  destruct (match_note_letter (String a EmptyString) r) as [found|] eqn:Hm; [|exact Plain].
  intros [= ->].
  destruct (match_note_letter_any (Some a) r g n Ha Hm) as (t & Hok & Hg & Hno & Hn & Hd).
  pose proof (digit_count_tail a r) as Ht.
  exists t. split; [exact Hok|]. split; [exact Hg|]. split; [|lia].
  intros Hs. apply Hno. cbn [string_forall] in Hs.
  apply andb_true_iff in Hs as [_ Hs]. exact Hs.
Qed.

Lemma string_forall_tail p c r :
  string_forall p (String c r) = true -> string_forall p r = true.
Proof. cbn [string_forall]. intros H. apply andb_true_iff in H as [_ H]. exact H. Qed.

Lemma finditer_tokens s : forall skip,
  exists ts, Forall (fun t => token_ok t = true) ts
             /\ finditer_from match_note skip s = map groups_of ts
             /\ (string_forall not_slash s = true ->
                 Forall (fun t => has_slash t = false) ts)
             /\ Forall (fun t => (String.length (numerator t) <= digit_count s)%nat
                                 /\ (String.length (denominator t) <= digit_count s)%nat) ts.
Proof.
  induction s as [|c r IH]; intros skip.
  - exists []. repeat split; constructor.
  - pose proof (digit_count_tail c r) as Ht.
    assert (W : forall ts,
      Forall (fun t => (String.length (numerator t) <= digit_count r)%nat
                       /\ (String.length (denominator t) <= digit_count r)%nat) ts ->
      Forall (fun t => (String.length (numerator t) <= digit_count (String c r))%nat
                       /\ (String.length (denominator t) <= digit_count (String c r))%nat) ts).
    { intros ts H. eapply List.Forall_impl; [|exact H]. cbn beta. intros t [? ?]. lia. }
    cbn [finditer_from]. destruct skip as [|k].
    + destruct (match_note (String c r)) as [[g n]|] eqn:Hm.
      * destruct (match_note_any _ g n Hm) as (t & Hok & -> & Hno & Hn & Hd).
        destruct (IH (Nat.pred n)) as (ts & Hts & -> & Hnos & Hw).
        exists (t :: ts). split; [constructor; assumption|]. split; [reflexivity|]. split.
        -- intros Hs. constructor;
             [exact (Hno Hs) | exact (Hnos (string_forall_tail _ _ _ Hs))].
        -- constructor; [split; assumption | exact (W ts Hw)].
      * destruct (IH O) as (ts & Hts & -> & Hnos & Hw).
        exists ts. split; [exact Hts|]. split; [reflexivity|]. split; [|exact (W ts Hw)].
        intros Hs. exact (Hnos (string_forall_tail _ _ _ Hs)).
    + destruct (IH k) as (ts & Hts & -> & Hnos & Hw).
      exists ts. split; [exact Hts|]. split; [reflexivity|]. split; [|exact (W ts Hw)].
      intros Hs. exact (Hnos (string_forall_tail _ _ _ Hs)).
Qed.

Lemma sub_from_forall p m repl s : forall skip,
  string_forall p repl = true -> string_forall p s = true ->
  string_forall p (sub_from m repl skip s) = true.
Proof.
  induction s as [|c r IH]; intros skip Hr Hs; [reflexivity|].
  cbn [string_forall] in Hs. apply andb_true_iff in Hs as [Hc Hs].
  cbn [sub_from]. destruct skip as [|k]; [|exact (IH k Hr Hs)].
  destruct (m (String c r)) as [n|].
  - rewrite string_forall_app, Hr, (IH _ Hr Hs). reflexivity.
  - cbn [string_forall]. rewrite Hc, (IH _ Hr Hs). reflexivity.
Qed.

Lemma clean_abc_forall p abc :
  p " "%char = true -> string_forall p abc = true ->
  string_forall p (clean_abc abc) = true.
Proof.
  intros Hsp H. unfold clean_abc, re_sub.
  apply sub_from_forall; [reflexivity|].
  apply sub_from_forall; [reflexivity|].
  apply sub_from_forall; [cbn [string_forall]; rewrite Hsp; reflexivity|].
  apply sub_from_forall; [reflexivity | exact H].
Qed.

Lemma sub_from_digit_count m repl s : forall skip,
  digit_count repl = O ->
  (digit_count (sub_from m repl skip s) <= digit_count s)%nat.
Proof.
  induction s as [|c r IH]; intros skip Hr; [cbn; lia|].
  pose proof (digit_count_tail c r) as Ht.
  cbn [sub_from]. destruct skip as [|k]; [|specialize (IH k Hr); lia].
  destruct (m (String c r)) as [n|].
  - rewrite digit_count_app, Hr. specialize (IH (Nat.pred n) Hr). lia.
  - specialize (IH O Hr). cbn [digit_count]. destruct (is_digit c); lia.
Qed.

(** The substitutions add no digit to the text. *)
Lemma clean_abc_digit_count abc : (digit_count (clean_abc abc) <= digit_count abc)%nat.
Proof.
  unfold clean_abc, re_sub.
  pose proof (sub_from_digit_count match_quoted "" abc O eq_refl) as H1.
  pose proof (sub_from_digit_count match_bars " " (sub_from match_quoted "" 0 abc) O eq_refl) as H2.
  pose proof (sub_from_digit_count match_directive ""
                (sub_from match_bars " " 0 (sub_from match_quoted "" 0 abc)) O eq_refl) as H3.
  pose proof (sub_from_digit_count match_bracket ""
                (sub_from match_directive "" 0
                   (sub_from match_bars " " 0 (sub_from match_quoted "" 0 abc))) O eq_refl) as H4.
  lia.
Qed.

(** Whatever the text, the parser adds up the durations of grammatical
    tokens, whose runs of digits are no longer than the text has digits. *)
Lemma count_abc_units_tokens abc :
  exists ts, Forall (fun t => token_ok t = true) ts
             /\ finditer match_note (clean_abc abc) = map groups_of ts
             /\ count_abc_units abc = spec_total f_zero ts
             /\ (string_forall not_slash abc = true ->
                 Forall (fun t => has_slash t = false) ts)
             /\ Forall (fun t => (String.length (numerator t) <= digit_count abc)%nat
                                 /\ (String.length (denominator t) <= digit_count abc)%nat) ts.
Proof.
  unfold count_abc_units, finditer.
  destruct (finditer_tokens (clean_abc abc) O) as (ts & Hts & -> & Hno & Hw).
  pose proof (clean_abc_digit_count abc) as Hc.
  exists ts. split; [exact Hts|]. split; [reflexivity|].
  split; [exact (sum_durations_tokens ts f_zero Hts)|]. split.
  - intros Hs. apply Hno. apply clean_abc_forall; [reflexivity | exact Hs].
  - eapply List.Forall_impl; [|exact Hw]. cbn beta. intros t [? ?]. lia.
Qed.

(** ** A count is never negative *)

Lemma shr_nonneg r e n : 0 <= shr_m r -> 0 <= shr_m (fst (shr r e n)).
Proof.
  intros Hr. destruct n as [|p|p]; try exact Hr.
  rewrite shr_mantissa by lia. apply Z.div_pos; lia.
Qed.

(** Rounding a non-negative mantissa keeps the sign given. *)
Lemma binary_round_aux_sign s m e l :
  0 <= m ->
  binary_round_aux prec emax s m e l = S754_zero s
  \/ (exists m' e', binary_round_aux prec emax s m e l = S754_finite s m' e')
  \/ binary_round_aux prec emax s m e l = S754_infinity s.
Proof.
  intros Hm. unfold binary_round_aux, shr_fexp.
  set (n1 := fexp prec emax (Zdigits2 m + e) - e).
  pose proof (shr_nonneg (shr_record_of_loc m l) e n1) as H1.
  rewrite shr_record_mantissa in H1. specialize (H1 Hm).
  destruct (shr (shr_record_of_loc m l) e n1) as [r1 e1]. cbn [fst] in H1.
  pose proof (round_nearest_even_bounds (shr_m r1) (loc_of_shr_record r1)) as Hr.
  set (m1 := round_nearest_even (shr_m r1) (loc_of_shr_record r1)) in *.
  set (n2 := fexp prec emax (Zdigits2 m1 + e1) - e1).
  pose proof (shr_nonneg (shr_record_of_loc m1 loc_Exact) e1 n2) as H2.
  rewrite shr_record_mantissa in H2. specialize (H2 ltac:(lia)).
  destruct (shr (shr_record_of_loc m1 loc_Exact) e1 n2) as [r2 e2]. cbn [fst] in H2.
  destruct (shr_m r2) as [|p|p]; [left; reflexivity | | lia].
  right. destruct (e2 <=? emax - prec); [left; eexists _, _; reflexivity | right; reflexivity].
Qed.

Lemma binary_round_aux_nonnegative m e l :
  0 <= m -> is_nonnegative (binary_round_aux prec emax false m e l) = true.
Proof.
  intros Hm. destruct (binary_round_aux_sign false m e l Hm) as [->|[(m' & e' & ->)| ->]];
    reflexivity.
Qed.

Lemma binary_normalize_nonnegative z e :
  0 <= z -> is_nonnegative (binary_normalize prec emax z e false) = true.
Proof.
  intros Hz. destruct z as [|p|p]; [reflexivity| |lia].
  cbn [binary_normalize]. unfold binary_round.
  destruct (shl_align p e _) as [mz ez]. apply binary_round_aux_nonnegative. lia.
Qed.

Lemma fadd_nonnegative x y :
  is_nonnegative x = true -> is_nonnegative y = true ->
  is_nonnegative (fadd x y) = true.
Proof.
  intros Hx Hy.
  destruct x as [[|]|[|]| |[|] mx ex], y as [[|]|[|]| |[|] my ey];
    try discriminate Hx; try discriminate Hy; try reflexivity.
  unfold fadd, SFadd. cbn [cond_Zopp]. apply binary_normalize_nonnegative. lia.
Qed.

Lemma fdiv_nonnegative x my ey :
  is_nonnegative x = true ->
  is_nonnegative (fdiv x (S754_finite false my ey)) = true.
Proof.
  intros Hx.
  destruct x as [[|]|[|]| |[|] mx ex]; try discriminate Hx; try reflexivity.
  unfold fdiv, SFdiv, SFdiv_core_binary. cbv zeta.
  set (s := ex - ey - _).
  set (m' := match s with Z0 => Zpos mx | Zpos _ => Z.shiftl (Zpos mx) s | Zneg _ => 0 end).
  assert (Hm : 0 <= m').
  { unfold m'. destruct s; try lia. apply Z.shiftl_nonneg. lia. }
  pose proof (Z_div_mod m' (Zpos my) ltac:(lia)) as Hdiv.
  destruct (Z.div_eucl m' (Zpos my)) as [q r]. cbn [xorb].
  apply binary_round_aux_nonnegative. nia.
Qed.

Lemma float_of_int_nonnegative z f :
  0 <= z -> float_of_int z = Ok f -> is_nonnegative f = true.
Proof.
  unfold float_of_int. intros Hz.
  pose proof (binary_normalize_nonnegative z 0 Hz) as Hn.
  destruct (is_infinite _); [discriminate|]. intros [= <-]. exact Hn.
Qed.

Lemma spec_duration_nonnegative t d :
  token_ok t = true -> spec_duration t = Ok d -> number_nonnegative d.
Proof.
  intros Hok. destruct (token_ok_parts t Hok) as (_ & _ & _ & Hnum & Hden & _).
  pose proof (digits_value_nonneg (numerator t) 0 Hnum ltac:(lia)) as Hn.
  pose proof (digits_value_nonneg (denominator t) 0 Hden ltac:(lia)) as Hd.
  unfold spec_duration.
  destruct (truthy (numerator t)), (has_slash t), (truthy (denominator t));
    cbn [bind]; try (intros [= <-]; cbn [number_nonnegative]; first [exact Hn | reflexivity]).
  - (* numerator / denominator *)
    unfold int_truediv. destruct (Z.eqb_spec (digits_value 0 (denominator t)) 0) as [E|E];
      [discriminate|].
    destruct (is_infinite _); cbn [bind]; [discriminate|]. intros [= <-].
    cbn [number_nonnegative].
    destruct (digits_value 0 (denominator t)) as [|p|p]; try lia.
    cbn [exact_operand]. apply fdiv_nonnegative.
    destruct (digits_value 0 (numerator t)) as [|q|q]; try lia; reflexivity.
  - (* 1.0 / denominator *)
    unfold float_div_int.
    destruct (float_of_int (digits_value 0 (denominator t))) as [y|e] eqn:Hy;
      cbn [bind]; [|discriminate].
    destruct (Z.eqb_spec (digits_value 0 (denominator t)) 0) as [E|E]; [discriminate|].
    intros [= <-]. cbn [number_nonnegative].
    pose proof (float_of_int_nonnegative _ _ Hd Hy) as Hpos.
    destruct (float_of_int_nonzero _ _ E Hy) as (s & m & e & ->).
    destruct s; [discriminate Hpos|]. exact (fdiv_nonnegative f_one m e eq_refl).
Qed.

Lemma float_add_number_nonnegative total d f :
  is_nonnegative total = true -> number_nonnegative d ->
  float_add_number total d = Ok f -> is_nonnegative f = true.
Proof.
  intros Ht Hd. destruct d as [z|q]; cbn [float_add_number number_nonnegative] in *.
  - destruct (float_of_int z) as [y|e] eqn:Hy; cbn [bind]; [|discriminate].
    intros [= <-]. apply fadd_nonnegative; [exact Ht|].
    exact (float_of_int_nonnegative z y Hd Hy).
  - intros [= <-]. apply fadd_nonnegative; assumption.
Qed.

Lemma spec_total_nonnegative ts : forall total f,
  Forall (fun t => token_ok t = true) ts -> is_nonnegative total = true ->
  spec_total total ts = Ok f -> is_nonnegative f = true.
Proof.
  induction ts as [|t ts IH]; intros total f Hts Ht; cbn [spec_total].
  - intros [= <-]. exact Ht.
  - inversion Hts as [|? ? Hok Hrest]; subst.
    destruct (spec_duration t) as [d|e] eqn:Hd; cbn [bind]; [|discriminate].
    destruct (float_add_number total d) as [x|e] eqn:Ha; cbn [bind]; [|discriminate].
    apply (IH x f Hrest).
    exact (float_add_number_nonnegative total d x Ht
             (spec_duration_nonnegative t d Hok Hd) Ha).
Qed.

Lemma spec_total_zero_division ts : forall total,
  spec_total total ts = Err ZeroDivisionError ->
  Exists (fun t => spec_duration t = Err ZeroDivisionError) ts.
Proof.
  induction ts as [|t ts IH]; intros total; cbn [spec_total]; [discriminate|].
  destruct (spec_duration t) as [d|e] eqn:Hd; cbn [bind].
  - destruct (float_add_number total d) as [x|e] eqn:Ha; cbn [bind].
    + intros H. right. exact (IH x H).
    + intros [= ->]. pose proof (float_add_number_errors _ _ _ Ha). discriminate.
  - intros [= ->]. left. exact Hd.
Qed.

(** X2. For a text that holds at most 4300 digits, every run of digits
    the note pattern matches, and so every argument of int(), has at most
    4300 digits (the interpreter's default cap on integer literals is never
    reached) and int() never fails on it: [count_abc_units] returns zero, a
    positive number or plus infinity, never a negative number or NaN, or it
    raises ZeroDivisionError or OverflowError.  Without a slash in the text
    there is no ZeroDivisionError. *)
Theorem count_abc_units_outcome (abc : string) :
  (digit_count abc <= 4300)%nat ->
  (exists ts,
      finditer match_note (clean_abc abc) = map groups_of ts
      /\ Forall (fun t => token_ok t = true
                          /\ (String.length (numerator t) <= 4300)%nat
                          /\ (String.length (denominator t) <= 4300)%nat) ts
      /\ sum_durations f_zero (map groups_of ts) = spec_total f_zero ts)
  /\ match count_abc_units abc with
     | Ok total => is_nonnegative total = true
     | Err e => e = ZeroDivisionError \/ e = OverflowError
     end
  /\ (string_forall not_slash abc = true ->
      count_abc_units abc <> Err ZeroDivisionError).
Proof.
  intros Hcap.
  destruct (count_abc_units_tokens abc) as (ts & Hts & Hfind & -> & Hno & Hw).
  split; [|split].
  - exists ts. split; [exact Hfind|]. split; [|exact (sum_durations_tokens ts f_zero Hts)].
    apply List.Forall_forall. intros t Hin.
    pose proof (proj1 (List.Forall_forall _ _) Hts t Hin) as Hok.
    pose proof (proj1 (List.Forall_forall _ _) Hw t Hin) as [Hn Hd].
    cbn beta in Hok. split; [exact Hok | split; lia].
  - destruct (spec_total f_zero ts) as [total|e] eqn:Hs.
    + exact (spec_total_nonnegative ts f_zero total Hts eq_refl Hs).
    + exact (spec_total_errors ts f_zero e Hs).
  - intros Hs Hz. apply spec_total_zero_division in Hz.
    apply List.Exists_exists in Hz as (t & Hin & Ht).
    apply spec_duration_zero_denominator in Ht as (Hsl & _).
    pose proof (proj1 (List.Forall_forall _ _) (Hno Hs) t Hin) as Hf.
    cbn beta in Hf. congruence.
Qed.

Lemma count_abc_units_outcome_witness :
  (digit_count "C2 D0 |: e'3 :|" <= 4300)%nat
  /\ string_forall not_slash "C2 D0 |: e'3 :|" = true
  /\ count_abc_units "C2 D0 |: e'3 :|" <> Err ZeroDivisionError.
Proof.
  assert (H : (digit_count "C2 D0 |: e'3 :|" <= 4300)%nat)
    by (change (3 <= 4300)%nat; lia).
  split; [exact H|]. split; [reflexivity|].
  exact (proj2 (proj2 (count_abc_units_outcome "C2 D0 |: e'3 :|" H)) eq_refl).
Defined.

(** ** Exact arithmetic on small integers *)

Lemma normal_mantissa n :
  n <> 0 -> Zdigits2 n <= 53 ->
  2 ^ 52 <= Z.abs n * 2 ^ (53 - Zdigits2 n) < 2 ^ 53.
Proof.
  intros Hn Hd. destruct (Zdigits2_bounds n Hn) as (Hpos & Hlo & Hhi).
  set (d := Zdigits2 n) in *.
  assert (Hp : 0 < 2 ^ (53 - d)) by (apply Z.pow_pos_nonneg; lia).
  assert (E1 : 2 ^ (d - 1) * 2 ^ (53 - d) = 2 ^ 52)
    by (rewrite <- Z.pow_add_r by lia; f_equal; lia).
  assert (E2 : 2 ^ d * 2 ^ (53 - d) = 2 ^ 53)
    by (rewrite <- Z.pow_add_r by lia; f_equal; lia).
  nia.
Qed.

(** Rounding [n * 2 ^ k] at the exponent [e] loses nothing when [n] has at
    most 53 bits. *)
Lemma binary_round_scaled s (p : positive) n k e :
  n <> 0 -> Zdigits2 n <= 53 -> 0 <= k -> Zpos p = Z.abs n * 2 ^ k ->
  -1074 <= e + k + Zdigits2 n - 53 <= 971 ->
  binary_round prec emax s p e
  = S754_finite s (Z.to_pos (Z.abs n * 2 ^ (53 - Zdigits2 n))) (e + k + Zdigits2 n - 53).
Proof.
  intros Hn Hd Hk Hp Hr.
  pose proof (normal_mantissa n Hn Hd) as Hm.
  destruct (Zdigits2_bounds n Hn) as (Hpos & Hlo & Hhi).
  set (d := Zdigits2 n) in *. set (m0 := Z.abs n * 2 ^ (53 - d)) in *.
  assert (Pm : Zpos (Z.to_pos m0) = m0) by (apply Z2Pos.id; lia).
  assert (Hdp : Zpos (digits2_pos p) = d + k).
  { apply digits_unique. rewrite Hp.
    replace (d + k - 1) with ((d - 1) + k) by lia. rewrite !Z.pow_add_r by lia.
    assert (0 < 2 ^ k) by (apply Z.pow_pos_nonneg; lia). nia. }
  assert (Hcan : canonical_mantissa prec emax (Z.to_pos m0) (e + k + d - 53) = true)
    by (apply mantissa_canonical; [rewrite Pm; exact Hm | lia]).
  unfold binary_round, shl_align. rewrite Hdp, fexp_normal by lia.
  replace (d + k + e - 53) with (e + k + d - 53) by lia.
  destruct (e + k + d - 53 - e) as [|q|q] eqn:Eq.
  - assert (H : Zpos p = Zpos (Z.to_pos m0) * 2 ^ Z.of_nat 0).
    { rewrite Pm, Hp. cbn [Z.of_nat]. rewrite Z.pow_0_r, Z.mul_1_r. unfold m0.
      replace (53 - d) with k by lia. reflexivity. }
    pose proof (binary_round_aux_exact s p _ _ 0%nat H Hcan) as R.
    cbn [Z.of_nat] in R. rewrite Z.sub_0_r in R.
    replace (e + k + d - 53) with e in R |- * by lia. rewrite R.
    destruct (Z.leb_spec e (emax - prec)) as [_|Hbad];
      [reflexivity | unfold emax, prec in Hbad; lia].
  - assert (H : Zpos p = Zpos (Z.to_pos m0) * 2 ^ Z.of_nat (Pos.to_nat q)).
    { rewrite Pm, Hp, positive_nat_Z. unfold m0.
      rewrite <- Z.mul_assoc, <- Z.pow_add_r by lia. do 2 f_equal. lia. }
    pose proof (binary_round_aux_exact s p _ (e + k + d - 53) (Pos.to_nat q) H Hcan) as R.
    rewrite positive_nat_Z in R.
    replace (e + k + d - 53 - Zpos q) with e in R by lia. rewrite R.
    destruct (Z.leb_spec (e + k + d - 53) (emax - prec)) as [_|Hbad];
      [reflexivity | unfold emax, prec in Hbad; lia].
  - assert (H : Zpos (Pos.iter xO p q) = Zpos (Z.to_pos m0) * 2 ^ Z.of_nat 0).
    { rewrite Pm, pos_iter_xO, Hp. cbn [Z.of_nat]. rewrite Z.pow_0_r, Z.mul_1_r.
      unfold m0. rewrite <- Z.mul_assoc, <- Z.pow_add_r by lia. do 2 f_equal. lia. }
    pose proof (binary_round_aux_exact s _ _ (e + k + d - 53) 0%nat H Hcan) as R.
    cbn [Z.of_nat] in R. rewrite Z.sub_0_r in R. rewrite R.
    destruct (Z.leb_spec (e + k + d - 53) (emax - prec)) as [_|Hbad];
      [reflexivity | unfold emax, prec in Hbad; lia].
Qed.

Lemma binary_normalize_scaled n k e :
  Zdigits2 n <= 53 -> 0 <= k -> -1074 <= e + k + Zdigits2 n - 53 <= 971 ->
  binary_normalize prec emax (n * 2 ^ k) e false = normal n (e + k).
Proof.
  intros Hd Hk Hr. assert (Hp : 0 < 2 ^ k) by (apply Z.pow_pos_nonneg; lia).
  destruct n as [|q|q].
  - reflexivity.
  - destruct (Zpos q * 2 ^ k) as [|p|p] eqn:E; try nia.
    cbn [binary_normalize normal].
    rewrite (binary_round_scaled false p (Zpos q) k e); [reflexivity|discriminate|exact Hd|exact Hk| |exact Hr].
    symmetry. exact E.
  - destruct (Zneg q * 2 ^ k) as [|p|p] eqn:E; try nia.
    cbn [binary_normalize normal].
    rewrite (binary_round_scaled true p (Zneg q) k e); [reflexivity|discriminate|exact Hd|exact Hk| |exact Hr].
    cbn [Z.abs]. rewrite <- Pos2Z.opp_pos in E. rewrite <- (Pos2Z.opp_pos p) in E. lia.
Qed.

Lemma shl_align_value (m : positive) e ez :
  ez <= e -> Zpos (fst (shl_align m e ez)) = Zpos m * 2 ^ (e - ez).
Proof.
  intros H. unfold shl_align. destruct (ez - e) as [|d|d] eqn:E; try lia; cbn [fst].
  - replace (e - ez) with 0 by lia. lia.
  - rewrite pos_iter_xO. do 2 f_equal. lia.
Qed.

(** The parts of the normal form of a positive integer. *)
Lemma normal_positive n e :
  0 < n -> Zdigits2 n <= 53 ->
  exists m, normal n e = S754_finite false m (e + Zdigits2 n - 53)
            /\ Zpos m = n * 2 ^ (53 - Zdigits2 n)
            /\ 0 < Zdigits2 n.
Proof.
  intros Hn Hd. pose proof (normal_mantissa n ltac:(lia) Hd) as Hm.
  destruct (Zdigits2_bounds n ltac:(lia)) as (Hpos & _).
  rewrite Z.abs_eq in Hm by lia.
  exists (Z.to_pos (n * 2 ^ (53 - Zdigits2 n))).
  assert (P : Zpos (Z.to_pos (n * 2 ^ (53 - Zdigits2 n))) = n * 2 ^ (53 - Zdigits2 n))
    by (apply Z2Pos.id; lia).
  destruct n as [|p|p]; try lia. cbn [normal Z.abs Z.ltb Z.compare].
  repeat split; assumption.
Qed.

(** Adding and subtracting two positive normal forms is exact when the
    result has at most 53 bits. *)
Lemma fadd_fsub_normal x y ex ey :
  0 < x -> 0 < y -> Zdigits2 x <= 53 -> Zdigits2 y <= 53 ->
  -100 <= ex <= 100 -> -100 <= ey <= 100 ->
  let g := Z.min ex ey in
  (Zdigits2 (x * 2 ^ (ex - g) + y * 2 ^ (ey - g)) <= 53 ->
   fadd (normal x ex) (normal y ey) = normal (x * 2 ^ (ex - g) + y * 2 ^ (ey - g)) g)
  /\ (Zdigits2 (x * 2 ^ (ex - g) - y * 2 ^ (ey - g)) <= 53 ->
      fsub (normal x ex) (normal y ey) = normal (x * 2 ^ (ex - g) - y * 2 ^ (ey - g)) g).
Proof.
  intros Hx Hy Dx Dy Rx Ry g.
  destruct (normal_positive x ex Hx Dx) as (mx & -> & Mx & Px).
  destruct (normal_positive y ey Hy Dy) as (my & -> & My & Py).
  set (dx := Zdigits2 x) in *. set (dy := Zdigits2 y) in *.
  set (ez := Z.min (ex + dx - 53) (ey + dy - 53)).
  assert (Hg : ez <= g) by (unfold ez, g; lia).
  assert (Ax : Zpos (fst (shl_align mx (ex + dx - 53) ez)) = x * 2 ^ (ex - g) * 2 ^ (g - ez)).
  { rewrite shl_align_value by (unfold ez; lia). rewrite Mx.
    rewrite <- !Z.mul_assoc, <- !Z.pow_add_r by (unfold g, ez; lia).
    do 2 f_equal. lia. }
  assert (Ay : Zpos (fst (shl_align my (ey + dy - 53) ez)) = y * 2 ^ (ey - g) * 2 ^ (g - ez)).
  { rewrite shl_align_value by (unfold ez; lia). rewrite My.
    rewrite <- !Z.mul_assoc, <- !Z.pow_add_r by (unfold g, ez; lia).
    do 2 f_equal. lia. }
  split; intros Dr.
  - unfold fadd, SFadd. fold ez. cbn [cond_Zopp]. rewrite Ax, Ay, <- Z.mul_add_distr_r.
    rewrite binary_normalize_scaled; [f_equal; lia | exact Dr | lia |].
    destruct (Z.eq_dec (x * 2 ^ (ex - g) + y * 2 ^ (ey - g)) 0) as [E|E].
    + rewrite E. cbn [Zdigits2]. unfold ez. lia.
    + destruct (Zdigits2_bounds _ E) as (Hp & _). unfold g in *. lia.
  - unfold fsub, SFsub. fold ez. cbn [cond_Zopp]. rewrite Ax, Ay, <- Z.mul_sub_distr_r.
    rewrite binary_normalize_scaled; [f_equal; lia | exact Dr | lia |].
    destruct (Z.eq_dec (x * 2 ^ (ex - g) - y * 2 ^ (ey - g)) 0) as [E|E].
    + rewrite E. cbn [Zdigits2]. unfold ez. lia.
    + destruct (Zdigits2_bounds _ E) as (Hp & _). unfold g in *. lia.
Qed.

Lemma small_digits n : Z.abs n < 2 ^ 53 -> Zdigits2 n <= 53.
Proof.
  intros H. destruct (Z.eq_dec n 0) as [->|Hn]; [cbn; lia|].
  apply digits_below; assumption.
Qed.

(** [float(n)] of a small integer is the integer. *)
Lemma float_of_int_small n :
  Z.abs n < 2 ^ 53 -> float_of_int n = Ok (normal n 0).
Proof.
  intros H. unfold float_of_int.
  pose proof (small_digits n H) as Hd.
  assert (E : binary_normalize prec emax n 0 false = normal n 0).
  { rewrite <- (Z.mul_1_r n) at 1. change 1 with (2 ^ 0) at 1.
    rewrite binary_normalize_scaled; [reflexivity | exact Hd | lia |].
    destruct (Z.eq_dec n 0) as [->|Hn]; [cbn; lia|].
    destruct (Zdigits2_bounds n Hn) as (Hp & _). lia. }
  rewrite E. destruct n; reflexivity.
Qed.

Lemma digits_pow2 j : 0 <= j -> Zdigits2 (2 ^ j) = j + 1.
Proof.
  intros Hj. assert (Hp : 0 < 2 ^ j) by (apply Z.pow_pos_nonneg; lia).
  destruct (2 ^ j) as [|p|p] eqn:E; try lia. cbn [Zdigits2].
  apply digits_unique. rewrite <- E. replace (j + 1 - 1) with j by lia.
  rewrite Z.pow_add_r by lia. lia.
Qed.

(** Dividing a normal form by a power of two only lowers the exponent. *)
Lemma fdiv_normal_pow2 n j :
  0 < n -> Zdigits2 n <= 53 -> 0 <= j <= 52 ->
  fdiv (normal n 0) (normal (2 ^ j) 0) = normal n (- j).
Proof.
  intros Hn Hd Hj.
  assert (Hp : 0 < 2 ^ j) by (apply Z.pow_pos_nonneg; lia).
  assert (Dp : Zdigits2 (2 ^ j) <= 53) by (rewrite digits_pow2; lia).
  destruct (normal_positive n 0 Hn Hd) as (mn & En & Mn & Pn).
  destruct (normal_positive n (- j) Hn Hd) as (mn' & En' & Mn' & _).
  destruct (normal_positive (2 ^ j) 0 Hp Dp) as (mp & Ep & Mp & _).
  assert (mn' = mn) by lia. subst mn'. rewrite En, En', Ep.
  rewrite digits_pow2 in * by lia. set (d := Zdigits2 n) in *.
  assert (Bn : 2 ^ 52 <= Zpos mn < 2 ^ 53).
  { rewrite Mn. pose proof (normal_mantissa n ltac:(lia) Hd) as B.
    rewrite Z.abs_eq in B by lia. exact B. }
  assert (Vp : Zpos mp = 2 ^ 52).
  { rewrite Mp, <- Z.pow_add_r by lia. f_equal. lia. }
  assert (Hcore : SFdiv_core_binary prec emax (Zpos mn) (0 + d - 53) (Zpos mp) (0 + (j + 1) - 53)
                  = (Zpos mn * 2 ^ 1, d - 53 - j - 1, loc_Exact)).
  { unfold SFdiv_core_binary. cbn [Zdigits2].
    rewrite (mantissa_digits mn Bn), (mantissa_digits mp) by (rewrite Vp; lia).
    replace (53 + (0 + d - 53) - (53 + (0 + (j + 1) - 53))) with (d - j - 1) by lia.
    rewrite fexp_normal by lia.
    replace (0 + d - 53 - (0 + (j + 1) - 53)) with (d - j - 1) by lia.
    rewrite Z.min_l by lia.
    replace (d - j - 1 - (d - j - 1 - 53)) with 53 by lia.
    cbv iota. rewrite Z.shiftl_mul_pow2 by lia. rewrite Vp.
    replace (Zpos mn * 2 ^ 53) with ((Zpos mn * 2 ^ 1) * 2 ^ 52)
      by (rewrite <- Z.mul_assoc, <- Z.pow_add_r by lia; reflexivity).
    rewrite div_eucl_exact by lia. rewrite new_location_zero.
    f_equal. f_equal. lia. }
  unfold fdiv, SFdiv. rewrite Hcore. cbn [xorb].
  assert (Hm : Zpos (mn~0) = Zpos mn * 2 ^ Z.of_nat 1) by (cbn [Z.of_nat]; lia).
  assert (Hc : canonical_mantissa prec emax mn (- j + d - 53) = true)
    by (apply mantissa_canonical; [exact Bn | lia]).
  pose proof (binary_round_aux_exact false _ _ _ _ Hm Hc) as R.
  change (Z.of_nat 1) with 1 in R.
  replace (Zpos mn * 2 ^ 1) with (Zpos mn~0) by lia.
  replace (d - 53 - j - 1) with (- j + d - 53 - 1) by lia. rewrite R.
  destruct (Z.leb_spec (- j + d - 53) (emax - prec)) as [_|Hbad];
    [reflexivity | unfold emax, prec in Hbad; lia].
Qed.

(** A normal form of at least 1/64 in size is not below the tolerance. *)
Lemma normal_against_tolerance n j :
  Zdigits2 n <= 53 -> 0 <= j <= 6 ->
  fltb (fabs (normal n (- j))) f_tolerance = (n =? 0).
Proof.
  intros Hd Hj. destruct (Z.eq_dec n 0) as [->|Hn]; [reflexivity|].
  destruct (Zdigits2_bounds n Hn) as (Hp & _).
  rewrite (proj2 (Z.eqb_neq n 0) Hn).
  assert (E : fabs (normal n (- j))
              = S754_finite false (Z.to_pos (Z.abs n * 2 ^ (53 - Zdigits2 n)))
                            (- j + Zdigits2 n - 53))
    by (destruct n; [congruence | reflexivity | reflexivity]).
  rewrite E. unfold fltb, SFltb, f_tolerance, SFcompare.
  destruct (Z.compare_spec (- j + Zdigits2 n - 53) (-59)) as [H|H|H];
    first [lia | reflexivity].
Qed.

Lemma fadd_small a b :
  0 <= a -> 0 <= b -> a + b < 2 ^ 53 ->
  fadd (normal a 0) (normal b 0) = normal (a + b) 0.
Proof.
  intros Ha Hb Hs.
  destruct (Z.eq_dec a 0) as [->|Na].
  - cbn [normal Z.add]. destruct b; reflexivity.
  - destruct (Z.eq_dec b 0) as [->|Nb].
    + rewrite Z.add_0_r. destruct a; reflexivity.
    + pose proof (fadd_fsub_normal a b 0 0 ltac:(lia) ltac:(lia)
                    (small_digits a ltac:(lia)) (small_digits b ltac:(lia))
                    ltac:(lia) ltac:(lia)) as [H _].
      cbn [Z.min Z.compare Z.sub Z.opp Z.add] in H. rewrite Z.pow_0_r, !Z.mul_1_r in H.
      apply H. apply small_digits. lia.
Qed.

Lemma whole_units_nonneg t : token_ok t = true -> 0 <= whole_units t.
Proof.
  intros Hok. destruct (token_ok_parts t Hok) as (_ & _ & _ & Hnum & _).
  unfold whole_units. destruct (truthy (numerator t)); [|lia].
  apply digits_value_nonneg; [exact Hnum | lia].
Qed.

Lemma total_units_nonneg ts :
  Forall (fun t => token_ok t = true) ts -> 0 <= total_units ts.
Proof.
  induction 1 as [|t ts Ht _ IH]; cbn [total_units]; [lia|].
  pose proof (whole_units_nonneg t Ht). lia.
Qed.

(** The running sum over tokens of whole lengths is the integer sum. *)
Lemma spec_total_whole ts : forall acc,
  Forall (fun t => token_ok t = true) ts ->
  Forall (fun t => has_slash t = false) ts ->
  0 <= acc -> acc + total_units ts < 2 ^ 53 ->
  spec_total (normal acc 0) ts = Ok (normal (acc + total_units ts) 0).
Proof.
  induction ts as [|t ts IH]; intros acc Hok Hw Hacc Hs; cbn [spec_total total_units] in *.
  - rewrite Z.add_0_r. reflexivity.
  - inversion Hok as [|? ? Ht Hts]; subst. inversion Hw as [|? ? Hwt Hwts]; subst.
    pose proof (whole_units_nonneg t Ht) as Hu.
    pose proof (total_units_nonneg ts Hts) as Hr.
    assert (E : (let* d := spec_duration t in float_add_number (normal acc 0) d)
                = Ok (normal (acc + whole_units t) 0)).
    { unfold spec_duration, whole_units in *. rewrite Hwt.
      destruct (truthy (numerator t)); destruct (truthy (denominator t));
        cbn [bind float_add_number].
      - rewrite float_of_int_small by lia. cbn [bind]. rewrite fadd_small by lia. reflexivity.
      - rewrite float_of_int_small by lia. cbn [bind]. rewrite fadd_small by lia. reflexivity.
      - change f_one with (normal 1 0). rewrite fadd_small by lia. reflexivity.
      - change f_one with (normal 1 0). rewrite fadd_small by lia. reflexivity. }
    destruct (spec_duration t) as [d|e]; cbn [bind] in E |- *; [|discriminate E].
    rewrite E. cbn [bind]. rewrite (IH _ Hts Hwts) by lia. do 2 f_equal. lia.
Qed.

Lemma normal_scale n k e :
  Zdigits2 (n * 2 ^ k) <= 53 -> 0 <= k -> -100 <= e <= 100 -> k <= 100 ->
  normal (n * 2 ^ k) e = normal n (e + k).
Proof.
  intros Hd Hk He Hk'.
  assert (Hp : 0 < 2 ^ k) by (apply Z.pow_pos_nonneg; lia).
  destruct (Z.eq_dec n 0) as [->|Hn]; [reflexivity|].
  assert (Hnk : n * 2 ^ k <> 0) by nia.
  assert (Dn : Zdigits2 n <= 53).
  { transitivity (Zdigits2 (n * 2 ^ k)); [|exact Hd].
    apply digits_monotone; [exact Hn | exact Hnk | rewrite Z.abs_mul; nia]. }
  destruct (Zdigits2_bounds n Hn) as (P1 & _).
  destruct (Zdigits2_bounds _ Hnk) as (P2 & _).
  pose proof (binary_normalize_scaled n k e Dn Hk ltac:(lia)) as A.
  pose proof (binary_normalize_scaled (n * 2 ^ k) 0 e Hd ltac:(lia) ltac:(lia)) as B.
  rewrite Z.pow_0_r, Z.mul_1_r, Z.add_0_r in B. congruence.
Qed.

(** The bar count of a whole total, less the expected bars: exact. *)
Lemma bars_difference T E j :
  0 <= T < 2 ^ 53 -> 0 <= E -> E * 2 ^ j < 2 ^ 53 -> 0 <= j <= 6 ->
  fdiv (normal T 0) (normal (2 ^ j) 0) = normal T (- j)
  /\ fsub (normal T (- j)) (normal E 0) = normal (T - E * 2 ^ j) (- j).
Proof.
  intros HT HE HEj Hj.
  assert (Hp : 0 < 2 ^ j) by (apply Z.pow_pos_nonneg; lia).
  assert (Dp : Zdigits2 (2 ^ j) <= 53) by (rewrite digits_pow2; lia).
  assert (HE53 : E < 2 ^ 53) by nia.
  split.
  - destruct (Z.eq_dec T 0) as [->|NT].
    + destruct (normal_positive (2 ^ j) 0 Hp Dp) as (mp & -> & _). reflexivity.
    + apply fdiv_normal_pow2; [lia | apply small_digits; lia | lia].
  - destruct (Z.eq_dec E 0) as [->|NE].
    + rewrite Z.mul_0_l, Z.sub_0_r. cbn [normal]. destruct T; reflexivity.
    + destruct (Z.eq_dec T 0) as [->|NT].
      * (* nothing counted *)
        replace (0 - E * 2 ^ j) with ((- E) * 2 ^ j) by lia.
        rewrite normal_scale;
          [| apply small_digits; rewrite Z.abs_mul; nia | lia | lia | lia].
        replace (- j + j) with 0 by lia.
        destruct E as [|p|p]; try lia. reflexivity.
      * pose proof (fadd_fsub_normal T E (- j) 0 ltac:(lia) ltac:(lia)
                      (small_digits T ltac:(lia)) (small_digits E ltac:(lia))
                      ltac:(lia) ltac:(lia)) as [_ H].
        cbv zeta in H. rewrite Z.min_l in H by lia.
        replace (- j - - j) with 0 in H by lia. replace (0 - - j) with j in H by lia.
        rewrite Z.pow_0_r, Z.mul_1_r in H.
        apply H. apply small_digits. nia.
Qed.

Section WholeLengths.

Variable float_repr : float -> string.

Lemma validate_bars_whole abc expected_bars meter unit_length total j :
  count_abc_units abc = Ok (normal total 0) -> 0 <= total < 2 ^ 53 ->
  units_per_bar meter unit_length = Ok (2 ^ j) -> 0 <= j <= 6 ->
  0 <= expected_bars -> expected_bars * 2 ^ j < 2 ^ 53 ->
  exists message,
    validate_bars float_repr abc expected_bars meter unit_length
    = Ok (if total =? expected_bars * 2 ^ j then (true, EmptyString)
          else (false, message)).
Proof.
  intros Hc HT Hu Hj HE HEj.
  assert (Hp : 0 < 2 ^ j) by (apply Z.pow_pos_nonneg; lia).
  assert (Hp6 : 2 ^ j <= 2 ^ 6) by (apply Z.pow_le_mono_r; lia).
  destruct (bars_difference total expected_bars j HT HE HEj Hj) as [Hq Hd].
  unfold validate_bars, float_div_int, float_sub_int.
  rewrite Hu, Hc. cbn [bind].
  rewrite (float_of_int_small (2 ^ j))
    by (rewrite Z.abs_eq by lia; change (2 ^ 6) with 64 in Hp6; change (2 ^ 53) with 9007199254740992; lia).
  cbn [bind]. rewrite (proj2 (Z.eqb_neq (2 ^ j) 0)) by lia. cbn [bind].
  rewrite (float_of_int_small expected_bars) by (rewrite Z.abs_eq by lia; nia).
  cbn [bind]. rewrite Hq, Hd.
  rewrite normal_against_tolerance by (try apply small_digits; nia || lia).
  destruct (Z.eqb_spec (total - expected_bars * 2 ^ j) 0) as [E|E].
  - rewrite (proj2 (Z.eqb_eq total (expected_bars * 2 ^ j))) by lia.
    exists EmptyString. reflexivity.
  - rewrite (proj2 (Z.eqb_neq total (expected_bars * 2 ^ j))) by lia.
    eexists. reflexivity.
Qed.

(** X9. A score whose notes all have whole lengths is counted exactly, and
    with 2, 4, ... or 64 units per bar the validation is exact as well: it
    succeeds when the lengths add up to expected_bars times the units per
    bar and fails for every other total; the tolerance lets no wrong total
    through. *)
Theorem validate_bars_whole_lengths
    (es : list element) (expected_bars : Z) (meter unit_length : string) (j : Z) :
  score_ok es = true -> layout_ok (plain_items es) = true ->
  Forall (fun t => has_slash t = false) (tokens_of (plain_items es)) ->
  let total := total_units (tokens_of (plain_items es)) in
  total < 2 ^ 53 ->
  units_per_bar meter unit_length = Ok (2 ^ j) -> 0 <= j <= 6 ->
  0 <= expected_bars -> expected_bars * 2 ^ j < 2 ^ 53 ->
  count_abc_units (render_score es) = float_of_int total
  /\ (validate_bars float_repr (render_score es) expected_bars meter unit_length
      = Ok (true, EmptyString)
      <-> total = expected_bars * 2 ^ j)
  /\ (total <> expected_bars * 2 ^ j ->
      exists message,
        validate_bars float_repr (render_score es) expected_bars meter unit_length
        = Ok (false, message)).
Proof.
  intros Hok Hlay Hw total HT Hu Hj HE HEj.
  pose proof (layout_tokens_ok _ Hlay) as Hts.
  pose proof (total_units_nonneg _ Hts) as Hnn. fold total in Hnn.
  assert (Hc : count_abc_units (render_score es) = Ok (normal total 0)).
  { rewrite (count_score es Hok Hlay). change f_zero with (normal 0 0).
    rewrite (spec_total_whole _ 0 Hts Hw) by (fold total; lia). reflexivity. }
  destruct (validate_bars_whole (render_score es) expected_bars meter unit_length
              total j Hc ltac:(lia) Hu Hj HE HEj) as (message & Hv).
  split; [|split].
  - rewrite Hc. symmetry. apply float_of_int_small. rewrite Z.abs_eq by lia. exact HT.
  - rewrite Hv. destruct (Z.eqb_spec total (expected_bars * 2 ^ j)) as [E|E].
    + split; [intros _; exact E | reflexivity].
    + split; [discriminate | contradiction].
  - intros Hne. rewrite Hv, (proj2 (Z.eqb_neq _ _) Hne). exists message. reflexivity.
Qed.

End WholeLengths.

Lemma validate_bars_whole_lengths_witness :
  let r := fun _ : float => "0.0"%string in
  validate_bars r (render_score verse_bar) 1 "4/4" "1/8" = Ok (true, EmptyString)
  /\ (exists message,
        validate_bars r "[CEG]4 [CEG]4 | [A,CE]4 [A,CE]4 |" 2 "4/4" "1/8"
        = Ok (false, message)).
Proof.
  intros r. split.
  - apply (proj1 (proj2 (validate_bars_whole_lengths r verse_bar 1 "4/4" "1/8" 3
             eq_refl eq_refl ltac:(repeat constructor) eq_refl eq_refl
             ltac:(lia) ltac:(lia) eq_refl))).
    reflexivity.
  - apply (proj2 (proj2 (validate_bars_whole_lengths r chord_bars 2 "4/4" "1/8" 3
             eq_refl eq_refl ltac:(repeat constructor) eq_refl eq_refl
             ltac:(lia) ltac:(lia) eq_refl))).
    discriminate.
Defined.
